(** * gcp-compute-persistent-disk-csi-driver: device utilities and the
      k8s-integration pipeline driver

    Two parts of the repository are embedded here.

    - [pkg/mount-manager/device-utils.go]: [GetDiskByIdPaths],
      [VerifyDevicePath], [VerifyExistingMount] and [pathExists], as pure
      functions over an explicit description of the machine (what [os.Stat],
      [filepath.Glob], [filepath.EvalSymlinks], the mounter and the [udevadm]
      command answer).
    - [test/k8s-integration/main.go], function [handle]: the main goroutine,
      the four background goroutines, the two buffered channels and the
      deferred calls, as a small-step interleaving semantics.  Every channel
      operation and every call of an external operation is one atomic step of
      one goroutine; the scheduler is any interleaving of enabled steps.
      Function [runTestsWithConfig], over the environment of the process. *)

From Stdlib Require Import List String Ascii Bool Arith ZArith Lia.
Import ListNotations.
Open Scope string_scope.

(** A Go [error] value: [None] is [nil], [Some msg] an error whose [Error()]
    text is [msg]. *)
Definition error := option string.

(** [fmt.Errorf(prefix + "%v", err)]: the message of [err] after [prefix]. *)
Definition Errorf (prefix : string) (err : string) : error :=
  Some (prefix ++ err).

Arguments Errorf : simpl never.

(** ** Go's [path] package (standard library), as far as [path.Join] needs it *)
Module GoPath.

(** [strings.Split(s, "/")]: the elements between slashes, empty ones kept. *)
Fixpoint split_slash (s : string) : list string :=
  match s with
  | EmptyString => [EmptyString]
  | String c r =>
      if Ascii.eqb c "/" then EmptyString :: split_slash r
      else match split_slash r with
           | seg :: segs => String c seg :: segs
           | [] => [String c EmptyString]
           end
  end.

(** One iteration of the loop of [path.Clean], seen element by element.  The
    accumulator is the number of leading [..] elements that could not be
    resolved (only in a path that is not rooted) and the real elements kept so
    far, last one first.  An empty element and [.] are dropped; [..] removes
    the last real element when there is one, is dropped at the root, and is
    kept in front otherwise; any other element is appended. *)
Definition clean_step (rooted : bool) (acc : nat * list string) (seg : string)
  : nat * list string :=
  let '(ups, elems) := acc in
  if (seg =? "") || (seg =? ".") then acc
  else if seg =? ".." then
    match elems with
    | _ :: rest => (ups, rest)
    | [] => if rooted then acc else (S ups, [])
    end
  else (ups, seg :: elems).

(** [path.Clean]: the shortest path equivalent to [p] by purely lexical
    processing. *)
Definition Clean (p : string) : string :=
  match p with
  | EmptyString => "."
  | String c _ =>
      let rooted := Ascii.eqb c "/" in
      let '(ups, elems) := fold_left (clean_step rooted) (split_slash p) (0, []) in
      if rooted then "/" ++ String.concat "/" (rev elems)
      else match (repeat ".." ups ++ rev elems)%list with
           | [] => "."
           | l => String.concat "/" l
           end
  end.

(** [path.Join]: the elements from the first non-empty one on, joined by
    slashes and cleaned; the empty string when every element is empty. *)
Fixpoint Join (elem : list string) : string :=
  match elem with
  | [] => ""
  | e :: rest => if e =? "" then Join rest else Clean (String.concat "/" elem)
  end.

(** No byte of [s] is a slash. *)
Fixpoint no_slash (s : string) : bool :=
  match s with
  | EmptyString => true
  | String c r => negb (Ascii.eqb c "/") && no_slash r
  end.

End GoPath.

(** ** pkg/mount-manager/device-utils.go *)
Module MountManager.

Definition diskByIdPath : string := "/dev/disk/by-id/".
Definition diskGooglePrefix : string := "google-".
Definition diskScsiGooglePrefix : string := "scsi-0Google_PersistentDisk_".
Definition diskPartitionSuffix : string := "-part".
Definition diskSDPath : string := "/dev/sd".
Definition diskSDPattern : string := "/dev/sd*".

(** [GetDiskByIdPaths]: all [/dev/disk/by-id/*] paths of a persistent disk. *)
Definition GetDiskByIdPaths (deviceName partition : string) : list string :=
  let devicePaths :=
    [ GoPath.Join [diskByIdPath; diskGooglePrefix ++ deviceName];
      GoPath.Join [diskByIdPath; diskScsiGooglePrefix ++ deviceName] ] in
  if negb (partition =? "")
  then map (fun path => (path ++ diskPartitionSuffix) ++ partition) devicePaths
  else devicePaths.

(** What [os.Stat] answers for a path: it is there, it is not
    ([os.IsNotExist]), or the check itself fails. *)
Inductive StatResult : Type :=
| StatOk
| StatNotExist
| StatFailed (err : string).

(** The machine as the functions of this file see it. *)
Record Machine : Type := {
  (** [filepath.Glob(diskSDPattern)] at the start of [VerifyDevicePath] *)
  globBefore : list string * error;
  (** [filepath.Glob(diskSDPattern)] in [udevadmChangeToNewDrives] *)
  globAfter : list string * error;
  (** [filepath.EvalSymlinks] *)
  evalSymlinks : string -> string * error;
  (** [udevadm trigger --action=change --property-match=DEVNAME=...] *)
  udevadmTrigger : string -> error;
  (** [os.Stat] *)
  stat : string -> StatResult
}.

(** [pathExists]: true if the path exists. *)
Definition pathExists (m : Machine) (path : string) : bool * error :=
  match stat m path with
  | StatOk => (true, None)
  | StatNotExist => (false, None)
  | StatFailed err => (false, Some err)
  end.

(** [strings.Contains]. *)
Fixpoint contains (s sub : string) : bool :=
  String.prefix sub s
  || match s with
     | EmptyString => false
     | String _ r => contains r sub
     end.

(** [udevadmChangeToDrive]. *)
Definition udevadmChangeToDrive (m : Machine) (drivePath : string) : error :=
  match evalSymlinks m drivePath with
  | (_, Some err) =>
      Errorf ("udevadmChangeToDrive: filepath.EvalSymlinks(" ++ drivePath ++ ") failed with ") err
  | (drive, None) =>
      if negb (contains drive diskSDPath)
      then Some ("udevadmChangeToDrive: expected input in the form " ++ diskSDPattern
                 ++ " but drive is " ++ drive)
      else match udevadmTrigger m drive with
           | Some err =>
               Errorf ("udevadmChangeToDrive: udevadm trigger failed for drive " ++ drive ++ " with ") err
           | None => None
           end
  end.

(** [udevadmChangeToNewDrives]: triggers udev for the first drive that is in
    the second glob and not in [sdBeforeSet]. *)
Definition udevadmChangeToNewDrives (m : Machine) (sdBeforeSet : list string) : error :=
  match globAfter m with
  | (_, Some err) => Errorf "Error filepath.Glob: " err
  | (sdAfter, None) =>
      match find (fun sd => negb (existsb (String.eqb sd) sdBeforeSet)) sdAfter with
      | Some sd => udevadmChangeToDrive m sd
      | None => None
      end
  end.

(** The loop of [VerifyDevicePath] over the candidate paths. *)
Fixpoint firstExisting (m : Machine) (devicePaths : list string) : string * error :=
  match devicePaths with
  | [] => ("", None)
  | path :: rest =>
      match pathExists m path with
      | (_, Some err) => ("", Errorf "Error checking if path exists: " err)
      | (true, None) => (path, None)
      | (false, None) => firstExisting m rest
      end
  end.

(** [VerifyDevicePath]: the result, and the lines written with
    [klog.Errorf] on the way (a failing glob or udevadm call is logged and
    otherwise ignored). *)
Definition VerifyDevicePath (m : Machine) (devicePaths : list string)
  : (string * error) * list string :=
  let '(sdBefore, globErr) := globBefore m in
  let log1 := match globErr with
              | Some err => ["Error filepath.Glob: " ++ err]
              | None => []
              end in
  let log2 := match udevadmChangeToNewDrives m sdBefore with
              | Some err => ["udevadmChangeToNewDrives failed with: " ++ err]
              | None => []
              end in
  (firstExisting m devicePaths, (log1 ++ log2)%list).

(** The path exists: [pathExists] answers [(true, nil)]. *)
Definition existsOn (m : Machine) (path : string) : bool :=
  match stat m path with
  | StatOk => true
  | _ => false
  end.

(** The first candidate the loop does not step over. *)
Definition firstDecisive (m : Machine) (devicePaths : list string) : option string :=
  find (fun path => match stat m path with
                    | StatNotExist => false
                    | _ => true
                    end) devicePaths.

(** A mounted filesystem, as [mounter.Interface.List] of
    [k8s.io/kubernetes/pkg/util/mount] reports it ([mount.MountPoint]; its
    field [Type] is [Type_] here). *)
Record MountPoint : Type := {
  Device : string;
  Path : string;
  Type_ : string;
  Opts : list string;
  Freq : Z;
  Pass : Z
}.

(** The inner loop of [VerifyExistingMount], over the options of one mount
    point: it stops at the first option that is the wanted mode. *)
Fixpoint optsVerify (readOnly : bool) (opts : list string) : bool :=
  match opts with
  | [] => false
  | opt :: rest =>
      if readOnly && (opt =? "ro") then true
      else if negb readOnly && (opt =? "rw") then true
      else optsVerify readOnly rest
  end.

(** The outer loop of [VerifyExistingMount], over the mount points. *)
Fixpoint verifyMounts (actualDevicePath targetPath : string) (readOnly : bool)
  (allMountPoints : list MountPoint) : option MountPoint :=
  match allMountPoints with
  | [] => None
  | mp :: rest =>
      if (Device mp =? actualDevicePath) && (Path mp =? targetPath)
      then if optsVerify readOnly (Opts mp) then Some mp
           else verifyMounts actualDevicePath targetPath readOnly rest
      else verifyMounts actualDevicePath targetPath readOnly rest
  end.

(** [VerifyExistingMount]; [mounterList] is what [mounter.Interface.List()]
    answers.  The error of a failing [filepath.EvalSymlinks] is dropped: the
    message names the device path. *)
Definition VerifyExistingMount (m : Machine) (mounterList : list MountPoint * error)
  (devicePath targetPath : string) (readOnly : bool) : option MountPoint * error :=
  match evalSymlinks m devicePath with
  | (_, Some _) => (None, Some ("error resolving device symlink: " ++ devicePath))
  | (actualDevicePath, None) =>
      match mounterList with
      | (_, Some err) => (None, Errorf "error listing mounts: " err)
      | (allMountPoints, None) =>
          match verifyMounts actualDevicePath targetPath readOnly allMountPoints with
          | Some mp => (Some mp, None)
          | None =>
              (None, Some ("could not verify mountpoint at " ++ targetPath
                           ++ " for device " ++ devicePath))
          end
      end
  end.

(** The option that stands for the wanted mode. *)
Definition modeOpt (readOnly : bool) : string := if readOnly then "ro" else "rw".

(** A mount point of the device at the target, in the wanted mode. *)
Definition verifies (actualDevicePath targetPath : string) (readOnly : bool)
  (mp : MountPoint) : bool :=
  (Device mp =? actualDevicePath) && (Path mp =? targetPath)
  && existsb (String.eqb (modeOpt readOnly)) (Opts mp).

(** A path element as [path.Clean] leaves it: not empty, not [.], not [..],
    without a slash. *)
Definition cleanElem (e : string) : bool :=
  negb (e =? "") && negb (e =? ".") && negb (e =? "..") && GoPath.no_slash e.

End MountManager.


(** ** test/k8s-integration/main.go: [runTestsWithConfig] *)
Module TestRunner.

Local Open Scope list_scope.

Definition k8sBuildBinDir : string := "_output/dockerized/bin/linux/amd64".

(** The environment of the process. *)
Definition Environ : Type := string -> option string.

(** [os.LookupEnv]: the value, empty when the variable is not set, and
    whether it is set. *)
Definition LookupEnv (env : Environ) (key : string) : string * bool :=
  match env key with
  | Some value => (value, true)
  | None => ("", false)
  end.

(** The string holds the byte [b]. *)
Fixpoint hasByte (b : ascii) (s : string) : bool :=
  match s with
  | EmptyString => false
  | String c r => Ascii.eqb c b || hasByte b r
  end.

(** [os.Setenv]: [EINVAL] for an empty key, a key with [=] or a NUL byte, and
    a value with a NUL byte; the variable is set otherwise. *)
Definition Setenv (env : Environ) (key value : string) : Environ * error :=
  if (key =? "")%string || hasByte "=" key || hasByte "000" key || hasByte "000" value
  then (env, Some "setenv: invalid argument")
  else (fun k => if (k =? key)%string then Some value else env k, None).

(** What [runTestsWithConfig] calls and does not define: [os.Chdir], and
    [runCommand] of the same package, given the action and the arguments of
    the command. *)
Record Sys : Type := {
  Chdir : string -> error;
  runCommand : string -> list string -> error
}.

(** What a function did to the process: the directories it changed to and the
    commands it gave to [runCommand], oldest first. *)
Inductive Effect : Type :=
| ChangedDir (dir : string)
| Ran (action : string) (argv : list string).

Record Proc : Type := {
  environ : Environ;
  effects : list Effect
}.

(** [runTestsWithConfig].  [filepath.Join] is [path.Join] where the separator
    is the slash; the error of [os.Setenv] is dropped, as in the source. *)
Definition runTestsWithConfig (sys : Sys)
  (pkgDir k8sDir gceZone testFocus testConfigArg : string) (p : Proc) : error * Proc :=
  match Chdir sys k8sDir with
  | Some err => (Some err, p)
  | None =>
      let '(homeDir, _) := LookupEnv (environ p) "HOME" in
      let '(env1, _) :=
        Setenv (environ p) "KUBECONFIG" (GoPath.Join [homeDir; ".kube/config"]) in
      let '(artifactsDir, _) := LookupEnv env1 "ARTIFACTS" in
      let reportArg := ("-report-dir=" ++ artifactsDir)%string in
      let testFocusArg := ("-focus=" ++ testFocus)%string in
      let cmd :=
        [ GoPath.Join [k8sBuildBinDir; "ginkgo"];
          "-p";
          testFocusArg;
          "-skip=\[Disruptive\]|\[Serial\]|\[Feature:.+\]";
          GoPath.Join [k8sBuildBinDir; "e2e.test"];
          "--";
          reportArg;
          "-provider=gce";
          "-node-os-distro=cos";
          ("-gce-zone=" ++ gceZone)%string;
          testConfigArg ] in
      let p1 := {| environ := env1;
                   effects := effects p ++ [ChangedDir k8sDir; Ran "Running Tests" cmd] |} in
      match runCommand sys "Running Tests" cmd with
      | Some err => (Errorf "failed to run tests on e2e cluster: " err, p1)
      | None => (None, p1)
      end
  end.

End TestRunner.

(** ** test/k8s-integration/main.go: [handle] *)
Module Pipeline.

Local Open Scope list_scope.

(** The command-line flags [handle] reads (the package-level [flag]
    variables). *)
Record Flags : Type := {
  teardownCluster : bool;
  teardownDriver : bool;
  bringupCluster : bool;
  gceZone : string;
  kubeVersion : string;
  testVersion : string;
  kubeFeatureGates : string;
  localK8sDir : string;
  deploymentStrat : string;
  gkeClusterVer : string;
  boskosResourceType : string;
  storageClassFile : string;
  inProw : bool;
  stagingImage : string;
  saFile : string;
  deployOverlayName : string;
  doDriverBuild : bool;
  migrationTest : bool;
  testFocus : string
}.

(** The external operations [handle] and its goroutines call, one name per
    call site.  Their arguments (directories, image names, zones) are not
    modelled: no test of [handle] looks at them. *)
Inductive Op : Type :=
| Umask                 (* line 119: syscall.Umask(0000) *)
| RestoreUmask          (* line 120: deferred syscall.Umask(oldmask) *)
| LookupEnvGOPATH       (* line 124 *)
| SetupProwConfig       (* line 133 *)
| GcloudGetProject      (* line 135 *)
| SetEnvProject         (* line 140 *)
| RestoreEnvProject     (* line 145, deferred *)
| LookupEnvUSER         (* line 155 *)
| SetenvUSER            (* line 156 *)
| GetK8sTempDir         (* line 164 *)
| GetTestTempDir        (* line 166 *)
| RemoveK8sTempDir      (* line 168, deferred *)
| RemoveTestTempDir     (* line 169, deferred *)
| DownloadK8sSource     (* line 179 *)
| BuildK8s              (* line 185 *)
| DownloadTestSource    (* line 205 *)
| BuildTest             (* line 210 *)
| PushImage             (* line 225 *)
| DeleteImage           (* line 229, deferred *)
| StatKubectl           (* line 249 *)
| SetenvKubectl         (* line 252 *)
| SetenvFeatureGates    (* line 262 *)
| ClusterUpGCE          (* line 270 *)
| ClusterUpGKE          (* line 276 *)
| ClusterDownGCE        (* line 295, deferred *)
| ClusterDownGKE        (* line 300, deferred *)
| InstallDriver         (* line 324 *)
| DeleteDriver          (* line 328, deferred *)
| RunCSITests           (* line 339 *)
| RunMigrationTests     (* line 341 *).

(** What each external operation answers in one run: [None] for success (for
    [os.LookupEnv]: the variable is set), [Some msg] for a failure.  The
    answer of an operation whose result the code drops is never looked at. *)
Definition World : Type := Op -> error.

(** The four background tasks, in the order [handle] declares them; each owns
    one slot of the [numTasks] outcomes. *)
Inductive Task : Type :=
| ClusterBuild   (* lines 177-198 *)
| TestBuild      (* lines 202-220 *)
| ImagePush      (* lines 223-237 *)
| ClusterUp      (* lines 239-288 *).

Inductive Thread : Type :=
| Main
| Bg (t : Task).

(** The closures [handle] defers. *)
Inductive Deferred : Type :=
| DUmask            (* line 120 *)
| DRestoreProject   (* lines 144-149 *)
| DRemoveK8sTemp    (* line 168 *)
| DRemoveTestTemp   (* line 169 *)
| DDeleteImage      (* lines 227-234 *)
| DClusterDown      (* lines 292-307 *)
| DDeleteDriver     (* lines 326-331 *).

(** What a run does, as seen from outside a goroutine. *)
Inductive Event : Type :=
| Call (o : Op) (r : error)        (* an external operation and its answer *)
| Klog (msg : string)              (* klog.Errorf *)
| Go (t : Task)                    (* go func() { ... }() *)
| Defer (d : Deferred)             (* defer func() { ... }() *)
| RunDeferred (d : Deferred)       (* a deferred closure starts *)
| Send (slot : Task) (e : error)   (* errChan <- e, for the slot of a task *)
| Recv (e : error)                 (* <-errChan *)
| DepSend (b : bool)               (* k8sDependencyChan <- b *)
| DepRecv (b : bool)               (* <-k8sDependencyChan *).

(** Program points.  A point is named after the line of the channel
    operation, [go] statement or external call the goroutine performs next;
    the local statements after it (tests, [defer] and [klog] statements) run
    in the same step.  The test of line 319 on the aggregated [firstErr] is a
    step of its own. *)
Inductive MainPC : Type :=
| M119 | M124 | M133 | M135 | M140 | M155 | M156 | M164 | M166
| M178                   (* go: cluster build *)
| M195                   (* errChan <- nil *)
| M197                   (* k8sDependencyChan <- true *)
| M203                   (* go: test build *)
| M219                   (* errChan <- nil *)
| M224                   (* go: image push; defer image deletion *)
| M236                   (* errChan <- nil *)
| M240                   (* go: cluster bring-up; defer cluster down *)
| M287                   (* errChan <- nil; defer cluster down *)
| M313 (i : nat) (firstErr : error)   (* <-errChan, i-th iteration *)
| M319 (firstErr : error)             (* if firstErr != nil *)
| M324                   (* installDriver *)
| M339                   (* runCSITests *)
| M341                   (* runMigrationTests *)
| MUnwind (ret : error)  (* return ret: the deferred closures run *)
| MReturned (ret : error).

Inductive BuildPC : Type :=
| BIdle | B179 | B181 (e : error) | B182 | B185 | B187 (e : error) | B188
| B191 | B192 | BDone.

Inductive TestPC : Type :=
| TIdle | T205 | T207 (e : error) | T210 | T212 (e : error) | T215 | TDone.

Inductive PushPC : Type :=
| PIdle | P225 | P225send (e : error) | PDone.

Inductive UpPC : Type :=
| UIdle | U241 | U242 | U249 | U252 | U254 (e : error) | U262 | U264 (e : error)
| U270 | U272 (e : error) | U276 | U278 (e : error) | U282 | U284 | UDone.

Record State : Type := {
  pcMain : MainPC;
  pcBuild : BuildPC;
  pcTest : TestPC;
  pcPush : PushPC;
  pcUp : UpPC;
  (** [errChan := make(chan error, numTasks)], oldest value first *)
  errChan : list error;
  (** [k8sDependencyChan := make(chan bool, 1)] *)
  k8sDependencyChan : list bool;
  (** the deferred closures of [handle], last deferred first *)
  deferred : list Deferred;
  (** everything done so far, in the order it happened *)
  log : list (Thread * Event)
}.

Definition numTasks : nat := 4.

Definition init : State :=
  {| pcMain := M119; pcBuild := BIdle; pcTest := TIdle; pcPush := PIdle;
     pcUp := UIdle; errChan := []; k8sDependencyChan := []; deferred := [];
     log := [] |}.

Definition setMain (pc : MainPC) (s : State) : State :=
  {| pcMain := pc; pcBuild := pcBuild s; pcTest := pcTest s; pcPush := pcPush s;
     pcUp := pcUp s; errChan := errChan s; k8sDependencyChan := k8sDependencyChan s;
     deferred := deferred s; log := log s |}.

Definition setBuild (pc : BuildPC) (s : State) : State :=
  {| pcMain := pcMain s; pcBuild := pc; pcTest := pcTest s; pcPush := pcPush s;
     pcUp := pcUp s; errChan := errChan s; k8sDependencyChan := k8sDependencyChan s;
     deferred := deferred s; log := log s |}.

Definition setTest (pc : TestPC) (s : State) : State :=
  {| pcMain := pcMain s; pcBuild := pcBuild s; pcTest := pc; pcPush := pcPush s;
     pcUp := pcUp s; errChan := errChan s; k8sDependencyChan := k8sDependencyChan s;
     deferred := deferred s; log := log s |}.

Definition setPush (pc : PushPC) (s : State) : State :=
  {| pcMain := pcMain s; pcBuild := pcBuild s; pcTest := pcTest s; pcPush := pc;
     pcUp := pcUp s; errChan := errChan s; k8sDependencyChan := k8sDependencyChan s;
     deferred := deferred s; log := log s |}.

Definition setUp (pc : UpPC) (s : State) : State :=
  {| pcMain := pcMain s; pcBuild := pcBuild s; pcTest := pcTest s; pcPush := pcPush s;
     pcUp := pc; errChan := errChan s; k8sDependencyChan := k8sDependencyChan s;
     deferred := deferred s; log := log s |}.

Definition setErrChan (c : list error) (s : State) : State :=
  {| pcMain := pcMain s; pcBuild := pcBuild s; pcTest := pcTest s; pcPush := pcPush s;
     pcUp := pcUp s; errChan := c; k8sDependencyChan := k8sDependencyChan s;
     deferred := deferred s; log := log s |}.

Definition setDepChan (c : list bool) (s : State) : State :=
  {| pcMain := pcMain s; pcBuild := pcBuild s; pcTest := pcTest s; pcPush := pcPush s;
     pcUp := pcUp s; errChan := errChan s; k8sDependencyChan := c;
     deferred := deferred s; log := log s |}.

Definition setDeferred (ds : list Deferred) (s : State) : State :=
  {| pcMain := pcMain s; pcBuild := pcBuild s; pcTest := pcTest s; pcPush := pcPush s;
     pcUp := pcUp s; errChan := errChan s; k8sDependencyChan := k8sDependencyChan s;
     deferred := ds; log := log s |}.

(** Thread [t] does [evs], in this order. *)
Definition emit (t : Thread) (evs : list Event) (s : State) : State :=
  {| pcMain := pcMain s; pcBuild := pcBuild s; pcTest := pcTest s; pcPush := pcPush s;
     pcUp := pcUp s; errChan := errChan s; k8sDependencyChan := k8sDependencyChan s;
     deferred := deferred s; log := log s ++ map (pair t) evs |}.

(** [defer d]. *)
Definition pushDeferred (d : Deferred) (s : State) : State :=
  emit Main [Defer d] (setDeferred (d :: deferred s) s).

(** [errChan <- e]: blocks while the buffer holds [numTasks] values. *)
Definition sendErr (t : Thread) (slot : Task) (e : error) (s : State) : option State :=
  if (List.length (errChan s) <? numTasks)%nat
  then Some (emit t [Send slot e] (setErrChan (errChan s ++ [e]) s))
  else None.

(** [k8sDependencyChan <- b]: blocks while the buffer holds a value. *)
Definition sendDep (t : Thread) (b : bool) (s : State) : option State :=
  if (List.length (k8sDependencyChan s) <? 1)%nat
  then Some (emit t [DepSend b] (setDepChan (k8sDependencyChan s ++ [b]) s))
  else None.

(** *** Reading a log *)

(** The events of a log that [g] selects, in order. *)
Definition pick {A : Type} (g : Thread * Event -> option A)
  (l : list (Thread * Event)) : list A :=
  flat_map (fun te => match g te with
                      | Some a => [a]
                      | None => []
                      end) l.

(** The same for the events of one goroutine. *)
Definition pickE {A : Type} (g : Event -> option A) (l : list Event) : list A :=
  flat_map (fun e => match g e with
                     | Some a => [a]
                     | None => []
                     end) l.

Definition sameThread (t u : Thread) : bool :=
  match t, u with
  | Main, Main => true
  | Bg ClusterBuild, Bg ClusterBuild => true
  | Bg TestBuild, Bg TestBuild => true
  | Bg ImagePush, Bg ImagePush => true
  | Bg ClusterUp, Bg ClusterUp => true
  | _, _ => false
  end.

(** What one goroutine did. *)
Definition eventsOf (t : Thread) : list (Thread * Event) -> list Event :=
  pick (fun te => if sameThread (fst te) t then Some (snd te) else None).

(** The outcomes a goroutine took from [errChan]. *)
Definition recvsIn : list Event -> list error :=
  pickE (fun e => match e with
                  | Recv r => Some r
                  | _ => None
                  end).

(** The deferred closures a goroutine has run, first run first. *)
Definition ranIn : list Event -> list Deferred :=
  pickE (fun e => match e with
                  | RunDeferred d => Some d
                  | _ => None
                  end).

(** The closures a goroutine has deferred, first deferred first. *)
Definition registeredIn : list Event -> list Deferred :=
  pickE (fun e => match e with
                  | Defer d => Some d
                  | _ => None
                  end).

(** The outcomes sent on [errChan], by any goroutine, in the order they were
    sent: the order in which they arrive. *)
Definition sentOn : list (Thread * Event) -> list error :=
  pick (fun te => match snd te with
                  | Send _ e => Some e
                  | _ => None
                  end).

Definition arrivals (s : State) : list error := sentOn (log s).

(** The outcome an event reports for one slot. *)
Definition slotOutcome (slot : Task) (e : Event) : option error :=
  match e, slot with
  | Send ClusterBuild x, ClusterBuild => Some x
  | Send TestBuild x, TestBuild => Some x
  | Send ImagePush x, ImagePush => Some x
  | Send ClusterUp x, ClusterUp => Some x
  | _, _ => None
  end.

(** The outcomes sent for one slot, by any goroutine and by one. *)
Definition sentFor (slot : Task) : list (Thread * Event) -> list error :=
  pick (fun te => slotOutcome slot (snd te)).

Definition sentForIn (slot : Task) : list Event -> list error :=
  pickE (slotOutcome slot).

(** The outcomes the loop of line 312 has received, in order. *)
Definition received (s : State) : list error := recvsIn (eventsOf Main (log s)).

(** The values written to and read from [k8sDependencyChan]. *)
Definition depSent : list (Thread * Event) -> list bool :=
  pick (fun te => match snd te with
                  | DepSend b => Some b
                  | _ => None
                  end).

Definition depRecvd : list (Thread * Event) -> list bool :=
  pick (fun te => match snd te with
                  | DepRecv b => Some b
                  | _ => None
                  end).

(** The first outcome of a list that is a failure; [nil] when all are
    successes. *)
Fixpoint firstFailure (l : list error) : error :=
  match l with
  | [] => None
  | Some e :: _ => Some e
  | None :: rest => firstFailure rest
  end.

(** A [go] statement for task [t] is among the events. *)
Definition started (t : Task) (evs : list Event) : bool :=
  existsb (fun e => match e, t with
                    | Go ClusterBuild, ClusterBuild => true
                    | Go TestBuild, TestBuild => true
                    | Go ImagePush, ImagePush => true
                    | Go ClusterUp, ClusterUp => true
                    | _, _ => false
                    end) evs.

(** The goroutine of task [t] does not exist yet. *)
Definition idle (t : Task) (s : State) : bool :=
  match t with
  | ClusterBuild => match pcBuild s with BIdle => true | _ => false end
  | TestBuild => match pcTest s with TIdle => true | _ => false end
  | ImagePush => match pcPush s with PIdle => true | _ => false end
  | ClusterUp => match pcUp s with UIdle => true | _ => false end
  end.

(** [handle] is at a [return]. *)
Definition unwinding (pc : MainPC) : bool :=
  match pc with
  | MUnwind _ | MReturned _ => true
  | _ => false
  end.

(** The events of the set-up and of the sequential phases: anything but a
    receive or the run of a deferred closure. *)
Definition forward (e : Event) : bool :=
  match e with
  | Recv _ | RunDeferred _ => false
  | _ => true
  end.

(** The values a goroutine wrote to and read from [k8sDependencyChan]. *)
Definition depSentIn : list Event -> list bool :=
  pickE (fun e => match e with
                  | DepSend b => Some b
                  | _ => None
                  end).

Definition depRecvdIn : list Event -> list bool :=
  pickE (fun e => match e with
                  | DepRecv b => Some b
                  | _ => None
                  end).

(** Every event of the bring-up goroutine comes after a write to
    [k8sDependencyChan]; [written] tells whether one has been seen. *)
Fixpoint upAfterWrite (written : bool) (l : list (Thread * Event)) : bool :=
  match l with
  | [] => true
  | (t, e) :: rest =>
      match e with
      | DepSend _ => upAfterWrite true rest
      | _ =>
          match t with
          | Bg ClusterUp => written
          | _ => true
          end && upAfterWrite written rest
      end
  end.

(** The outcomes a goroutine sent on [errChan]. *)
Definition sendsIn : list Event -> list error :=
  pickE (fun e => match e with
                  | Send _ e => Some e
                  | _ => None
                  end).

(** [a] is the beginning of [b]. *)
Definition isPrefix {A : Type} (a b : list A) : Prop := exists r, b = a ++ r.

(** What [handle] does from the loop of line 312 on: it receives outcomes,
    installs the driver and runs the tests, and runs its deferred closures. *)
Definition lateEvent (e : Event) : bool :=
  match e with
  | Recv _ | RunDeferred _ | Klog _ | Defer DDeleteDriver => true
  | Call o _ =>
      match o with
      | InstallDriver | RunCSITests | RunMigrationTests
      | RestoreUmask | RestoreEnvProject | RemoveK8sTempDir | RemoveTestTempDir
      | DeleteImage | ClusterDownGCE | ClusterDownGKE | DeleteDriver => true
      | _ => false
      end
  | _ => false
  end.

(** The failure a slot-ordered aggregation would report: the first failure
    when the outcomes are taken slot by slot, in the order the tasks are
    declared. *)
Definition lowestSlotFailure (l : list (Thread * Event)) : error :=
  firstFailure (sentFor ClusterBuild l ++ sentFor TestBuild l
                ++ sentFor ImagePush l ++ sentFor ClusterUp l).

(** The external calls of a log whose operation [p] selects. *)
Definition called (p : Op -> bool) : list (Thread * Event) -> list Op :=
  pick (fun te => match snd te with
                  | Call o _ => if p o then Some o else None
                  | _ => None
                  end).

(** The same for the events of one goroutine. *)
Definition calledIn (p : Op -> bool) : list Event -> list Op :=
  pickE (fun e => match e with
                  | Call o _ => if p o then Some o else None
                  | _ => None
                  end).

(** The operations that release what the concurrent phase acquires: the
    image pushed and the cluster brought up. *)
Definition isAcquisitionTeardown (o : Op) : bool :=
  match o with
  | DeleteImage | ClusterDownGCE | ClusterDownGKE => true
  | _ => false
  end.

(** The operations of the sequential phase. *)
Definition isInstallOrTest (o : Op) : bool :=
  match o with
  | InstallDriver | RunCSITests | RunMigrationTests => true
  | _ => false
  end.

(** The operations that bring a cluster up. *)
Definition isClusterUp (o : Op) : bool :=
  match o with
  | ClusterUpGCE | ClusterUpGKE => true
  | _ => false
  end.

(** The operations the deferred closures call. *)
Definition isTeardownOp (o : Op) : bool :=
  match o with
  | RestoreUmask | RestoreEnvProject | RemoveK8sTempDir | RemoveTestTempDir
  | DeleteImage | ClusterDownGCE | ClusterDownGKE | DeleteDriver => true
  | _ => false
  end.

(** *** How far a run is from its end

    No goroutine loops but [handle], 4 times at line 312: the number of steps
    a goroutine can still take is bounded at each program point.  For
    [handle] the bound counts the goroutines it is still to start and the
    closures it is still to defer. *)

Definition stepsLeftBuild (pc : BuildPC) : nat :=
  match pc with
  | BIdle | BDone => 0
  | B179 => 4
  | B185 => 3
  | B181 _ | B187 _ | B191 => 2
  | B182 | B188 | B192 => 1
  end.

Definition stepsLeftTest (pc : TestPC) : nat :=
  match pc with
  | TIdle | TDone => 0
  | T205 => 3
  | T210 => 2
  | T207 _ | T212 _ | T215 => 1
  end.

Definition stepsLeftPush (pc : PushPC) : nat :=
  match pc with
  | PIdle | PDone => 0
  | P225 => 2
  | P225send _ => 1
  end.

Definition stepsLeftUp (pc : UpPC) : nat :=
  match pc with
  | UIdle | UDone => 0
  | U241 => 6
  | U249 => 5
  | U252 => 4
  | U262 => 3
  | U270 | U276 | U282 => 2
  | U242 | U254 _ | U264 _ | U272 _ | U278 _ | U284 => 1
  end.

Definition stepsLeftMain (pc : MainPC) : nat :=
  match pc with
  | M119 => 44
  | M124 => 42
  | M133 => 41
  | M135 => 40
  | M140 => 39
  | M155 => 37
  | M156 => 36
  | M164 => 35
  | M166 => 34
  | M178 => 31
  | M195 => 28
  | M197 => 27
  | M203 | M219 => 26
  | M224 | M236 => 22
  | M240 | M287 => 18
  | M313 i _ => 6 + (4 - i)
  | M319 _ => 5
  | M324 => 4
  | M339 | M341 => 2
  | MUnwind _ => 1
  | MReturned _ => 0
  end.

Definition stepsLeft (s : State) : nat :=
  stepsLeftMain (pcMain s) + List.length (deferred s)
  + stepsLeftBuild (pcBuild s) + stepsLeftTest (pcTest s)
  + stepsLeftPush (pcPush s) + stepsLeftUp (pcUp s).

(** The goroutine of task [t] was never started or has ended. *)
Definition ended (t : Task) (s : State) : bool :=
  match t with
  | ClusterBuild => match pcBuild s with BIdle | BDone => true | _ => false end
  | TestBuild => match pcTest s with TIdle | TDone => true | _ => false end
  | ImagePush => match pcPush s with PIdle | PDone => true | _ => false end
  | ClusterUp => match pcUp s with UIdle | UDone => true | _ => false end
  end.

(** [handle] has returned and every goroutine it started has ended. *)
Definition finished (s : State) : bool :=
  match pcMain s with MReturned _ => true | _ => false end
  && ended ClusterBuild s && ended TestBuild s && ended ImagePush s
  && ended ClusterUp s.

(** Lines 119-288: [handle] has not reached the loop of line 312. *)
Definition inSetup (pc : MainPC) : bool :=
  match pc with
  | M313 _ _ | M319 _ | M324 | M339 | M341 | MUnwind _ | MReturned _ => false
  | _ => true
  end.

(** *** Some runs *)

(** Kubernetes is built at a given version, the driver is built and pushed,
    a cluster is brought up on GCE, everything is torn down at the end. *)
Definition flagsGCE : Flags :=
  {| teardownCluster := true; teardownDriver := true; bringupCluster := true;
     gceZone := "us-central1-b"; kubeVersion := "master"; testVersion := "";
     kubeFeatureGates := ""; localK8sDir := ""; deploymentStrat := "gce";
     gkeClusterVer := ""; boskosResourceType := "gce-project";
     storageClassFile := "sc-standard.yaml"; inProw := false;
     stagingImage := "gcr.io/project/driver"; saFile := "sa.json";
     deployOverlayName := "dev"; doDriverBuild := true; migrationTest := false;
     testFocus := "External.Storage" |}.

(** The same from a local Kubernetes directory: nothing is built for the
    cluster. *)
Definition flagsLocal : Flags :=
  {| teardownCluster := true; teardownDriver := true; bringupCluster := true;
     gceZone := "us-central1-b"; kubeVersion := ""; testVersion := "";
     kubeFeatureGates := ""; localK8sDir := "/src/kubernetes"; deploymentStrat := "gce";
     gkeClusterVer := ""; boskosResourceType := "gce-project";
     storageClassFile := "sc-standard.yaml"; inProw := false;
     stagingImage := "gcr.io/project/driver"; saFile := "sa.json";
     deployOverlayName := "dev"; doDriverBuild := true; migrationTest := false;
     testFocus := "External.Storage" |}.

(** A deployment strategy that is neither [gce] nor [gke]; [main] only checks
    that the flag is set. *)
Definition flagsOther : Flags :=
  {| teardownCluster := true; teardownDriver := true; bringupCluster := true;
     gceZone := "us-central1-b"; kubeVersion := ""; testVersion := "";
     kubeFeatureGates := ""; localK8sDir := "/src/kubernetes"; deploymentStrat := "aws";
     gkeClusterVer := ""; boskosResourceType := "gce-project";
     storageClassFile := "sc-standard.yaml"; inProw := false;
     stagingImage := "gcr.io/project/driver"; saFile := "sa.json";
     deployOverlayName := "dev"; doDriverBuild := true; migrationTest := false;
     testFocus := "External.Storage" |}.

Definition allSucceed : World := fun _ => None.

(** The download of the Kubernetes sources and the image push fail. *)
Definition downloadAndPushFail : World :=
  fun o => match o with
           | DownloadK8sSource => Some "no route to host"
           | PushImage => Some "denied"
           | _ => None
           end.

Definition pushFails : World :=
  fun o => match o with
           | PushImage => Some "denied"
           | _ => None
           end.

Definition installFails : World :=
  fun o => match o with
           | InstallDriver => Some "kubectl apply failed"
           | _ => None
           end.

(** The image push fails, and so do the teardowns of the cluster and of the
    image. *)
Definition pushAndTeardownFail : World :=
  fun o => match o with
           | PushImage => Some "denied"
           | ClusterDownGCE => Some "quota exceeded"
           | DeleteImage => Some "image not found"
           | _ => None
           end.

(** Everything succeeds but the teardowns of the driver, of the cluster and of
    the image. *)
Definition teardownFails : World :=
  fun o => match o with
           | DeleteDriver => Some "timed out"
           | ClusterDownGCE => Some "quota exceeded"
           | DeleteImage => Some "image not found"
           | _ => None
           end.


(** [n] steps of goroutine [t]. *)
Definition steps (n : nat) (t : Thread) : list Thread := repeat t n.

(** [handle] up to the loop of line 312, then the image push, then the
    cluster build, then the bring-up, then the loop. *)
Definition pushFirst : list Thread :=
  steps 8 Main ++ steps 2 (Bg ImagePush) ++ steps 3 (Bg ClusterBuild)
  ++ steps 2 (Bg ClusterUp) ++ steps 4 Main.

(** The same with the cluster build before the image push. *)
Definition buildFirst : list Thread :=
  steps 8 Main ++ steps 3 (Bg ClusterBuild) ++ steps 2 (Bg ImagePush)
  ++ steps 2 (Bg ClusterUp) ++ steps 4 Main.

(** [handle] up to the loop of line 312 from a local Kubernetes directory,
    then the image push, then the bring-up on GCE, then [n] steps of
    [handle]: 4 bring it to line 319. *)
Definition localRun (n : nat) : list Thread :=
  steps 9 Main ++ steps 2 (Bg ImagePush) ++ steps 5 (Bg ClusterUp) ++ steps n Main.

Section Handle.

Variable f : Flags.
Variable w : World.

(** An external operation is called and answers what the world says. *)
Definition call (t : Thread) (o : Op) (s : State) : State :=
  emit t [Call o (w o)] s.

Definition klogIfErr (prefix : string) (r : error) : list Event :=
  match r with
  | Some err => [Klog (prefix ++ err)%string]
  | None => []
  end.

(** The cluster-build goroutine, lines 178-193. *)
Definition stepBuild (s : State) : option State :=
  let t := Bg ClusterBuild in
  match pcBuild s with
  | BIdle | BDone => None
  | B179 =>
      Some (setBuild
              match w DownloadK8sSource with
              | Some err => B181 (Errorf "failed to download Kubernetes source: " err)
              | None => B185
              end (call t DownloadK8sSource s))
  | B181 e => option_map (setBuild B182) (sendErr t ClusterBuild e s)
  | B182 => option_map (setBuild BDone) (sendDep t false s)
  | B185 =>
      Some (setBuild
              match w BuildK8s with
              | Some err => B187 (Errorf "failed to build Kubernetes: " err)
              | None => B191
              end (call t BuildK8s s))
  | B187 e => option_map (setBuild B188) (sendErr t ClusterBuild e s)
  | B188 => option_map (setBuild BDone) (sendDep t false s)
  | B191 => option_map (setBuild B192) (sendDep t true s)
  | B192 => option_map (setBuild BDone) (sendErr t ClusterBuild None s)
  end.

(** The test-build goroutine, lines 203-216. *)
Definition stepTest (s : State) : option State :=
  let t := Bg TestBuild in
  match pcTest s with
  | TIdle | TDone => None
  | T205 =>
      Some (setTest
              match w DownloadTestSource with
              | Some err => T207 (Errorf "failed to download Kubernetes source: " err)
              | None => T210
              end (call t DownloadTestSource s))
  | T207 e => option_map (setTest TDone) (sendErr t TestBuild e s)
  | T210 =>
      Some (setTest
              match w BuildTest with
              | Some err => T212 (Errorf "failed to build Kubernetes: " err)
              | None => T215
              end (call t BuildTest s))
  | T212 e => option_map (setTest TDone) (sendErr t TestBuild e s)
  | T215 => option_map (setTest TDone) (sendErr t TestBuild None s)
  end.

(** The image-push goroutine, lines 224-226. *)
Definition stepPush (s : State) : option State :=
  let t := Bg ImagePush in
  match pcPush s with
  | PIdle | PDone => None
  | P225 => Some (setPush (P225send (w PushImage)) (call t PushImage s))
  | P225send e => option_map (setPush PDone) (sendErr t ImagePush e s)
  end.

(** Line 261, where both branches of the [gce] case meet. *)
Definition upAfterKubectl : UpPC :=
  if negb (kubeFeatureGates f =? "") then U262 else U270.

(** The cluster bring-up goroutine, lines 240-285. *)
Definition stepUp (s : State) : option State :=
  let t := Bg ClusterUp in
  match pcUp s with
  | UIdle | UDone => None
  | U241 =>
      match k8sDependencyChan s with
      | [] => None
      | b :: rest =>
          Some (setUp
                  (if negb b then U242
                   else if deploymentStrat f =? "gce" then U249
                   else if deploymentStrat f =? "gke" then U276
                   else U282)
                  (emit t [DepRecv b] (setDepChan rest s)))
      end
  | U242 => option_map (setUp UDone) (sendErr t ClusterUp None s)
  | U249 =>
      match w StatKubectl with
      | None => Some (setUp U252 (call t StatKubectl s))
      | Some _ =>
          Some (setUp upAfterKubectl
                  (emit t [Klog "could not find cluster kubectl, falling back to default kubectl"]
                     (call t StatKubectl s)))
      end
  | U252 =>
      Some (setUp
              match w SetenvKubectl with
              | Some err => U254 (Errorf "failed to set cluster specific kubectl: " err)
              | None => upAfterKubectl
              end (call t SetenvKubectl s))
  | U254 e => option_map (setUp UDone) (sendErr t ClusterUp e s)
  | U262 =>
      Some (setUp
              match w SetenvFeatureGates with
              | Some err => U264 (Errorf "failed to set kubernetes feature gates: " err)
              | None => U270
              end (call t SetenvFeatureGates s))
  | U264 e => option_map (setUp UDone) (sendErr t ClusterUp e s)
  | U270 =>
      Some (setUp
              match w ClusterUpGCE with
              | Some err => U272 (Errorf "failed to cluster up: " err)
              | None => U284
              end (call t ClusterUpGCE s))
  | U272 e => option_map (setUp UDone) (sendErr t ClusterUp e s)
  | U276 =>
      Some (setUp
              match w ClusterUpGKE with
              | Some err => U278 (Errorf "failed to cluster up: " err)
              | None => U284
              end (call t ClusterUpGKE s))
  | U278 e => option_map (setUp UDone) (sendErr t ClusterUp e s)
  | U282 =>
      (* the default case has no return: control leaves the switch and
         reaches line 284 *)
      option_map (setUp U284)
        (sendErr t ClusterUp
           (Errorf "deployment-strategy must be set to 'gce' or 'gke', but is: "
              (deploymentStrat f)) s)
  | U284 => option_map (setUp UDone) (sendErr t ClusterUp None s)
  end.

(** What a deferred closure does when it runs. *)
Definition runDeferred (d : Deferred) : list Event :=
  match d with
  | DUmask => [Call RestoreUmask (w RestoreUmask)]
  | DRestoreProject =>
      Call RestoreEnvProject (w RestoreEnvProject)
      :: klogIfErr "failed to set project environment: " (w RestoreEnvProject)
  | DRemoveK8sTemp => [Call RemoveK8sTempDir (w RemoveK8sTempDir)]
  | DRemoveTestTemp => [Call RemoveTestTempDir (w RemoveTestTempDir)]
  | DDeleteImage =>
      if teardownCluster f
      then Call DeleteImage (w DeleteImage)
           :: klogIfErr "failed to delete image: " (w DeleteImage)
      else []
  | DClusterDown =>
      if deploymentStrat f =? "gce"
      then Call ClusterDownGCE (w ClusterDownGCE)
           :: klogIfErr "failed to cluster down: " (w ClusterDownGCE)
      else if deploymentStrat f =? "gke"
      then Call ClusterDownGKE (w ClusterDownGKE)
           :: klogIfErr "failed to cluster down: " (w ClusterDownGKE)
      else [Klog ("deployment-strategy must be set to 'gce' or 'gke', but is: "
                  ++ deploymentStrat f)%string]
  | DDeleteDriver =>
      Call DeleteDriver (w DeleteDriver)
      :: klogIfErr "failed to delete driver: " (w DeleteDriver)
  end.

(** The test of line 177: Kubernetes is built for the cluster. *)
Definition needClusterBuild : bool := negb (kubeVersion f =? "").

(** The test of line 202: Kubernetes is built once more for the tests. *)
Definition needTestBuild : bool :=
  negb (testVersion f =? "") && negb (testVersion f =? kubeVersion f).

(** The tests of lines 177, 202, 223 and 239: the step of slot [t] is needed,
    and a goroutine is started for it. *)
Definition needed (t : Task) : bool :=
  match t with
  | ClusterBuild => needClusterBuild
  | TestBuild => needTestBuild
  | ImagePush => doDriverBuild f
  | ClusterUp => bringupCluster f
  end.

Definition mainAt177 : MainPC := if needClusterBuild then M178 else M195.

Definition mainAt202 : MainPC := if needTestBuild then M203 else M219.

Definition mainAt223 : MainPC :=
  if doDriverBuild f then M224 else M236.

Definition mainAt239 : MainPC :=
  if bringupCluster f then M240 else M287.

(** Lines 291-308: the cluster teardown is deferred when the flag is set. *)
Definition deferClusterDown (s : State) : State :=
  if teardownCluster f then pushDeferred DClusterDown s else s.

(** Lines 313-317: one outcome is taken into [firstErr]. *)
Definition keepFirst (firstErr err : error) : error :=
  match err, firstErr with
  | Some _, None => err
  | _, _ => firstErr
  end.

(** Line 312: after the outcome of iteration [i]. *)
Definition mainAfterRecv (i : nat) (firstErr : error) : MainPC :=
  if (S i <? 4)%nat then M313 (S i) firstErr else M319 firstErr.

(** Lines 346-350: what [handle] returns after the tests. *)
Definition testsResult (r : error) : error :=
  match r with
  | Some err => Errorf "failed to run tests: " err
  | None => None
  end.

(** The main goroutine: [handle], lines 119-351. *)
Definition stepMain (s : State) : option State :=
  match pcMain s with
  | M119 => Some (setMain M124 (pushDeferred DUmask (call Main Umask s)))
  | M124 =>
      Some (setMain
              match w LookupEnvGOPATH with
              | Some _ => MUnwind (Some "Could not find env variable GOPATH")
              | None => if inProw f then M133 else M164
              end (call Main LookupEnvGOPATH s))
  | M133 => Some (setMain M135 (call Main SetupProwConfig s))
  | M135 =>
      Some (setMain
              match w GcloudGetProject with
              | Some err => MUnwind (Errorf "failed to get gcloud project, err: " err)
              | None => M140
              end (call Main GcloudGetProject s))
  | M140 =>
      match w SetEnvProject with
      | Some err =>
          Some (setMain (MUnwind (Errorf "failed to set project environment: " err))
                  (call Main SetEnvProject s))
      | None =>
          Some (setMain M155 (pushDeferred DRestoreProject (call Main SetEnvProject s)))
      end
  | M155 =>
      Some (setMain
              match w LookupEnvUSER with
              | Some _ => M156
              | None => M164
              end (call Main LookupEnvUSER s))
  | M156 =>
      Some (setMain
              match w SetenvUSER with
              | Some err => MUnwind (Errorf "failed to set user in prow to prow: " err)
              | None => M164
              end (call Main SetenvUSER s))
  | M164 => Some (setMain M166 (call Main GetK8sTempDir s))
  | M166 =>
      Some (setMain mainAt177
              (pushDeferred DRemoveTestTemp
                 (pushDeferred DRemoveK8sTemp (call Main GetTestTempDir s))))
  | M178 => Some (setMain mainAt202 (setBuild B179 (emit Main [Go ClusterBuild] s)))
  | M195 => option_map (setMain M197) (sendErr Main ClusterBuild None s)
  | M197 => option_map (setMain mainAt202) (sendDep Main true s)
  | M203 => Some (setMain mainAt223 (setTest T205 (emit Main [Go TestBuild] s)))
  | M219 => option_map (setMain mainAt223) (sendErr Main TestBuild None s)
  | M224 =>
      Some (setMain mainAt239
              (pushDeferred DDeleteImage (setPush P225 (emit Main [Go ImagePush] s))))
  | M236 => option_map (setMain mainAt239) (sendErr Main ImagePush None s)
  | M240 =>
      Some (setMain (M313 0 None)
              (deferClusterDown (setUp U241 (emit Main [Go ClusterUp] s))))
  | M287 =>
      option_map (fun s' => setMain (M313 0 None) (deferClusterDown s'))
        (sendErr Main ClusterUp None s)
  | M313 i firstErr =>
      match errChan s with
      | [] => None
      | err :: rest =>
          Some (setMain (mainAfterRecv i (keepFirst firstErr err))
                  (emit Main [Recv err] (setErrChan rest s)))
      end
  | M319 firstErr =>
      Some (setMain
              match firstErr with
              | Some _ => MUnwind firstErr
              | None => M324
              end s)
  | M324 =>
      let s1 := call Main InstallDriver s in
      let s2 := if teardownDriver f then pushDeferred DDeleteDriver s1 else s1 in
      Some (setMain
              match w InstallDriver with
              | Some err => MUnwind (Errorf "failed to install CSI Driver: " err)
              | None =>
                  if negb (storageClassFile f =? "") then M339
                  else if migrationTest f then M341
                  else MUnwind (Some "Did not run either CSI or Migration test")
              end s2)
  | M339 => Some (setMain (MUnwind (testsResult (w RunCSITests))) (call Main RunCSITests s))
  | M341 =>
      Some (setMain (MUnwind (testsResult (w RunMigrationTests)))
              (call Main RunMigrationTests s))
  | MUnwind ret =>
      match deferred s with
      | d :: rest =>
          Some (emit Main (RunDeferred d :: runDeferred d) (setDeferred rest s))
      | [] => Some (setMain (MReturned ret) s)
      end
  | MReturned _ => None
  end.

(** One step of one goroutine; [None] when it is blocked or has ended. *)
Definition step (t : Thread) (s : State) : option State :=
  match t with
  | Main => stepMain s
  | Bg ClusterBuild => stepBuild s
  | Bg TestBuild => stepTest s
  | Bg ImagePush => stepPush s
  | Bg ClusterUp => stepUp s
  end.

(** The states a run of [handle] can be in, under any scheduling. *)
Inductive reachable : State -> Prop :=
| reachable_init : reachable init
| reachable_step (s s' : State) (t : Thread) :
    reachable s -> step t s = Some s' -> reachable s'.

(** The run that schedules the goroutines as [sched] says. *)
Fixpoint run (sched : list Thread) (s : State) : option State :=
  match sched with
  | [] => Some s
  | t :: rest =>
      match step t s with
      | Some s' => run rest s'
      | None => None
      end
  end.

(** *** What each goroutine does, as a list of events

    A background goroutine takes no input but what the world answers (and,
    for the bring-up, the value it reads from [k8sDependencyChan]), so all it
    will ever do is one list of events.  [xRest pc] is what is still to come
    at program point [pc]; the invariant of the goroutine is that what it has
    done, followed by what is to come, is its whole run. *)

(** [fmt.Errorf(prefix, err)] if [r] is an error, [nil] otherwise. *)
Definition outcome (prefix : string) (r : error) : error :=
  match r with
  | Some err => Errorf prefix err
  | None => None
  end.

(** The outcome the cluster-build goroutine reports. *)
Definition buildOutcome : error :=
  match w DownloadK8sSource with
  | Some err => Errorf "failed to download Kubernetes source: " err
  | None => outcome "failed to build Kubernetes: " (w BuildK8s)
  end.

(** The outcome the test-build goroutine reports. *)
Definition testOutcome : error :=
  match w DownloadTestSource with
  | Some err => Errorf "failed to download Kubernetes source: " err
  | None => outcome "failed to build Kubernetes: " (w BuildTest)
  end.

Definition buildFrom185 : list Event :=
  Call BuildK8s (w BuildK8s) ::
  match w BuildK8s with
  | Some err => [Send ClusterBuild (Errorf "failed to build Kubernetes: " err); DepSend false]
  | None => [DepSend true; Send ClusterBuild None]
  end.

(** The cluster-build goroutine, from line 179 to its end. *)
Definition buildRun : list Event :=
  Call DownloadK8sSource (w DownloadK8sSource) ::
  match w DownloadK8sSource with
  | Some err =>
      [Send ClusterBuild (Errorf "failed to download Kubernetes source: " err); DepSend false]
  | None => buildFrom185
  end.

Definition buildRest (pc : BuildPC) : list Event :=
  match pc with
  | BIdle | B179 => buildRun
  | B181 e | B187 e => [Send ClusterBuild e; DepSend false]
  | B182 | B188 => [DepSend false]
  | B185 => buildFrom185
  | B191 => [DepSend true; Send ClusterBuild None]
  | B192 => [Send ClusterBuild None]
  | BDone => []
  end.

Definition buildInv (s : State) : Prop :=
  eventsOf (Bg ClusterBuild) (log s) ++ buildRest (pcBuild s) = buildRun.

Definition testFrom210 : list Event :=
  [Call BuildTest (w BuildTest);
   Send TestBuild (outcome "failed to build Kubernetes: " (w BuildTest))].

(** The test-build goroutine. *)
Definition testRun : list Event :=
  Call DownloadTestSource (w DownloadTestSource) ::
  match w DownloadTestSource with
  | Some err => [Send TestBuild (Errorf "failed to download Kubernetes source: " err)]
  | None => testFrom210
  end.

Definition testRest (pc : TestPC) : list Event :=
  match pc with
  | TIdle | T205 => testRun
  | T207 e | T212 e => [Send TestBuild e]
  | T210 => testFrom210
  | T215 => [Send TestBuild None]
  | TDone => []
  end.

Definition testInv (s : State) : Prop :=
  eventsOf (Bg TestBuild) (log s) ++ testRest (pcTest s) = testRun.

(** The image-push goroutine. *)
Definition pushRun : list Event :=
  [Call PushImage (w PushImage); Send ImagePush (w PushImage)].

Definition pushRest (pc : PushPC) : list Event :=
  match pc with
  | PIdle | P225 => pushRun
  | P225send e => [Send ImagePush e]
  | PDone => []
  end.

Definition pushInv (s : State) : Prop :=
  eventsOf (Bg ImagePush) (log s) ++ pushRest (pcPush s) = pushRun.

Definition upFrom270 : list Event :=
  [Call ClusterUpGCE (w ClusterUpGCE);
   Send ClusterUp (outcome "failed to cluster up: " (w ClusterUpGCE))].

Definition upFrom262 : list Event :=
  Call SetenvFeatureGates (w SetenvFeatureGates) ::
  match w SetenvFeatureGates with
  | Some err => [Send ClusterUp (Errorf "failed to set kubernetes feature gates: " err)]
  | None => upFrom270
  end.

Definition upFrom261 : list Event :=
  if negb (kubeFeatureGates f =? "") then upFrom262 else upFrom270.

Definition upFrom252 : list Event :=
  Call SetenvKubectl (w SetenvKubectl) ::
  match w SetenvKubectl with
  | Some err => [Send ClusterUp (Errorf "failed to set cluster specific kubectl: " err)]
  | None => upFrom261
  end.

Definition upFrom249 : list Event :=
  Call StatKubectl (w StatKubectl) ::
  match w StatKubectl with
  | None => upFrom252
  | Some _ =>
      Klog "could not find cluster kubectl, falling back to default kubectl" :: upFrom261
  end.

Definition upFrom276 : list Event :=
  [Call ClusterUpGKE (w ClusterUpGKE);
   Send ClusterUp (outcome "failed to cluster up: " (w ClusterUpGKE))].

Definition upFrom282 : list Event :=
  [Send ClusterUp
     (Errorf "deployment-strategy must be set to 'gce' or 'gke', but is: "
        (deploymentStrat f));
   Send ClusterUp None].

(** The bring-up goroutine when it reads [b] from [k8sDependencyChan]. *)
Definition upRun (b : bool) : list Event :=
  DepRecv b ::
  if negb b then [Send ClusterUp None]
  else if deploymentStrat f =? "gce" then upFrom249
  else if deploymentStrat f =? "gke" then upFrom276
  else upFrom282.

Definition upRest (pc : UpPC) : list Event :=
  match pc with
  | UIdle | U241 | UDone => []
  | U242 | U284 => [Send ClusterUp None]
  | U249 => upFrom249
  | U252 => upFrom252
  | U254 e | U264 e | U272 e | U278 e => [Send ClusterUp e]
  | U262 => upFrom262
  | U270 => upFrom270
  | U276 => upFrom276
  | U282 => upFrom282
  end.

Definition upInv (s : State) : Prop :=
  let evs := eventsOf (Bg ClusterUp) (log s) in
  match pcUp s with
  | UIdle | U241 => evs = []
  | pc => exists b, evs ++ upRest pc = upRun b
  end.

(** *** What the main goroutine has done at each program point

    [Ennn] is the list of events of [handle] when it reaches line [nnn]
    without having returned. *)

(** What running the deferred closures [ds], in this order, does. *)
Definition unwind (ds : list Deferred) : list Event :=
  flat_map (fun d => RunDeferred d :: runDeferred d) ds.

(** Operation [o] is called and answers. *)
Definition callOf (o : Op) : Event := Call o (w o).

Definition E124 : list Event := [callOf Umask; Defer DUmask].
Definition E133 : list Event := E124 ++ [callOf LookupEnvGOPATH].
Definition E135 : list Event := E133 ++ [callOf SetupProwConfig].
Definition E140 : list Event := E135 ++ [callOf GcloudGetProject].
Definition E155 : list Event := E140 ++ [callOf SetEnvProject; Defer DRestoreProject].
Definition E156 : list Event := E155 ++ [callOf LookupEnvUSER].
Definition E164 : list Event :=
  if inProw f
  then E156 ++ match w LookupEnvUSER with
               | Some _ => [callOf SetenvUSER]
               | None => []
               end
  else E133.
Definition E166 : list Event := E164 ++ [callOf GetK8sTempDir].
Definition E177 : list Event :=
  E166 ++ [callOf GetTestTempDir; Defer DRemoveK8sTemp; Defer DRemoveTestTemp].
Definition E202 : list Event :=
  E177 ++ if needClusterBuild then [Go ClusterBuild]
          else [Send ClusterBuild None; DepSend true].
Definition E223 : list Event :=
  E202 ++ if needTestBuild then [Go TestBuild] else [Send TestBuild None].
Definition E239 : list Event :=
  E223 ++ if doDriverBuild f then [Go ImagePush; Defer DDeleteImage]
          else [Send ImagePush None].
Definition E312 : list Event :=
  E239 ++ (if bringupCluster f then [Go ClusterUp] else [Send ClusterUp None])
       ++ (if teardownCluster f then [Defer DClusterDown] else []).

(** Lines 119-161: where [handle] returns before it starts any task, if it
    does: the events up to that [return] and the error returned. *)
Definition preludeFailure : option (list Event * error) :=
  match w LookupEnvGOPATH with
  | Some _ => Some (E133, Some "Could not find env variable GOPATH")
  | None =>
      if inProw f then
        match w GcloudGetProject with
        | Some err => Some (E140, Errorf "failed to get gcloud project, err: " err)
        | None =>
            match w SetEnvProject with
            | Some err =>
                Some (E140 ++ [callOf SetEnvProject],
                      Errorf "failed to set project environment: " err)
            | None =>
                match w LookupEnvUSER, w SetenvUSER with
                | Some _, Some err =>
                    Some (E156 ++ [callOf SetenvUSER],
                          Errorf "failed to set user in prow to prow: " err)
                | _, _ => None
                end
            end
        end
      else None
  end.

(** Lines 338-344: the test suite that is run. *)
Definition selectedTests : option Op :=
  if negb (storageClassFile f =? "") then Some RunCSITests
  else if migrationTest f then Some RunMigrationTests
  else None.

(** Lines 324-332. *)
Definition installEvents : list Event :=
  callOf InstallDriver :: if teardownDriver f then [Defer DDeleteDriver] else [].

(** Lines 319-350: what [handle] does between the loop and its [return], and
    what it returns, for the aggregated [firstErr]. *)
Definition afterAggregate (firstErr : error) : list Event * error :=
  match firstErr with
  | Some e => ([], Some e)
  | None =>
      match w InstallDriver with
      | Some err => (installEvents, Errorf "failed to install CSI Driver: " err)
      | None =>
          match selectedTests with
          | None => (installEvents, Some "Did not run either CSI or Migration test")
          | Some o => (installEvents ++ [callOf o], testsResult (w o))
          end
      end
  end.

(** The events of [handle] up to its [return] and the error it returns, when
    the loop receives the outcomes [rcv]. *)
Definition returnPoint (rcv : list error) : list Event * error :=
  match preludeFailure with
  | Some r => r
  | None =>
      (E312 ++ map Recv rcv ++ fst (afterAggregate (firstFailure rcv)),
       snd (afterAggregate (firstFailure rcv)))
  end.

(** What holds once [handle] has reached a [return] with [ret]: its events
    are those up to the [return] followed by the deferred closures run so
    far. *)
Definition returning (ret : error) (evs : list Event) : Prop :=
  evs = fst (returnPoint (recvsIn evs)) ++ unwind (ranIn evs) /\
  ret = snd (returnPoint (recvsIn evs)) /\
  (preludeFailure = None -> List.length (recvsIn evs) = 4).

Definition mainInv (s : State) : Prop :=
  let evs := eventsOf Main (log s) in
  let rcv := recvsIn evs in
  match pcMain s with
  | M119 => evs = []
  | M124 => evs = E124
  | M133 => evs = E133 /\ w LookupEnvGOPATH = None /\ inProw f = true
  | M135 => evs = E135 /\ w LookupEnvGOPATH = None /\ inProw f = true
  | M140 => evs = E140 /\ w LookupEnvGOPATH = None /\ inProw f = true
            /\ w GcloudGetProject = None
  | M155 => evs = E155 /\ w LookupEnvGOPATH = None /\ inProw f = true
            /\ w GcloudGetProject = None /\ w SetEnvProject = None
  | M156 => evs = E156 /\ w LookupEnvGOPATH = None /\ inProw f = true
            /\ w GcloudGetProject = None /\ w SetEnvProject = None
            /\ w LookupEnvUSER <> None
  | M164 => evs = E164 /\ preludeFailure = None
  | M166 => evs = E166 /\ preludeFailure = None
  | M178 => evs = E177 /\ preludeFailure = None /\ needClusterBuild = true
  | M195 => evs = E177 /\ preludeFailure = None /\ needClusterBuild = false
  | M197 => evs = E177 ++ [Send ClusterBuild None] /\ preludeFailure = None
            /\ needClusterBuild = false
  | M203 => evs = E202 /\ preludeFailure = None /\ needTestBuild = true
  | M219 => evs = E202 /\ preludeFailure = None /\ needTestBuild = false
  | M224 => evs = E223 /\ preludeFailure = None /\ doDriverBuild f = true
  | M236 => evs = E223 /\ preludeFailure = None /\ doDriverBuild f = false
  | M240 => evs = E239 /\ preludeFailure = None /\ bringupCluster f = true
  | M287 => evs = E239 /\ preludeFailure = None /\ bringupCluster f = false
  | M313 i firstErr =>
      evs = E312 ++ map Recv rcv /\ preludeFailure = None /\
      List.length rcv = i /\ i < 4 /\ firstErr = firstFailure rcv
  | M319 firstErr =>
      evs = E312 ++ map Recv rcv /\ preludeFailure = None /\
      List.length rcv = 4 /\ firstErr = firstFailure rcv
  | M324 =>
      evs = E312 ++ map Recv rcv /\ preludeFailure = None /\
      List.length rcv = 4 /\ firstFailure rcv = None
  | M339 =>
      evs = E312 ++ map Recv rcv ++ installEvents /\ preludeFailure = None /\
      List.length rcv = 4 /\ firstFailure rcv = None /\
      w InstallDriver = None /\ selectedTests = Some RunCSITests
  | M341 =>
      evs = E312 ++ map Recv rcv ++ installEvents /\ preludeFailure = None /\
      List.length rcv = 4 /\ firstFailure rcv = None /\
      w InstallDriver = None /\ selectedTests = Some RunMigrationTests
  | MUnwind ret | MReturned ret => returning ret evs
  end.

(** *** Invariants that tie the goroutines together *)

(** A goroutine exists exactly when [handle] has executed its [go]. *)
Definition spawnInv (s : State) : Prop :=
  forall t, idle t s = negb (started t (eventsOf Main (log s))).

(** [errChan] is first in, first out: what was sent is what was received,
    then what waits in the buffer. *)
Definition chanInv (s : State) : Prop :=
  arrivals s = received s ++ errChan s.

Definition depInv (s : State) : Prop :=
  depSent (log s) = depRecvd (log s) ++ k8sDependencyChan s.

(** The deferred closures run last deferred first, and none before the
    [return]. *)
Definition deferInv (s : State) : Prop :=
  let evs := eventsOf Main (log s) in
  ranIn evs ++ deferred s = rev (registeredIn evs) /\
  (unwinding (pcMain s) = false -> ranIn evs = []) /\
  (forall ret, pcMain s = MReturned ret -> deferred s = []).

Record Inv (s : State) : Prop := {
  inv_main : mainInv s;
  inv_spawn : spawnInv s;
  inv_build : buildInv s;
  inv_test : testInv s;
  inv_push : pushInv s;
  inv_up : upInv s;
  inv_chan : chanInv s;
  inv_dep : depInv s;
  inv_defer : deferInv s
}.

(** *** What a run amounts to, whatever the scheduling *)

(** The value written to [k8sDependencyChan]: [true] by [handle] at line 197
    when Kubernetes is not built, and by the cluster-build goroutine
    otherwise, [true] at line 191 or [false] at line 182 or 188. *)
Definition gateValue : bool :=
  if needClusterBuild
  then match w DownloadK8sSource, w BuildK8s with
       | None, None => true
       | _, _ => false
       end
  else true.

(** Lines 247-274: the outcome of the [gce] case. *)
Definition upOutcomeGCE : error :=
  let clusterUp := outcome "failed to cluster up: " (w ClusterUpGCE) in
  let fromFeatureGates :=
    if negb (kubeFeatureGates f =? "")
    then match w SetenvFeatureGates with
         | Some err => Errorf "failed to set kubernetes feature gates: " err
         | None => clusterUp
         end
    else clusterUp in
  match w StatKubectl with
  | None =>
      match w SetenvKubectl with
      | Some err => Errorf "failed to set cluster specific kubectl: " err
      | None => fromFeatureGates
      end
  | Some _ => fromFeatureGates
  end.

(** Lines 241-285: the first outcome the bring-up goroutine reports. *)
Definition upOutcome : error :=
  if negb gateValue then None
  else if deploymentStrat f =? "gce" then upOutcomeGCE
  else if deploymentStrat f =? "gke" then outcome "failed to cluster up: " (w ClusterUpGKE)
  else Errorf "deployment-strategy must be set to 'gce' or 'gke', but is: "
         (deploymentStrat f).

(** The bring-up goroutine reaches the [default] case of line 281, and
    reports a second outcome. *)
Definition reportsTwice : bool :=
  bringupCluster f && gateValue
  && negb (deploymentStrat f =? "gce") && negb (deploymentStrat f =? "gke").

(** The outcome of the slot of task [t]: the one of its goroutine when the
    step is needed, [nil] otherwise. *)
Definition slotResult (t : Task) : error :=
  match t with
  | ClusterBuild => if needClusterBuild then buildOutcome else None
  | TestBuild => if needTestBuild then testOutcome else None
  | ImagePush => if doDriverBuild f then w PushImage else None
  | ClusterUp => if bringupCluster f then upOutcome else None
  end.

Definition isNil (e : error) : bool :=
  match e with
  | None => true
  | Some _ => false
  end.

(** None of the four tasks fails. *)
Definition tasksSucceed : bool :=
  isNil (slotResult ClusterBuild) && isNil (slotResult TestBuild)
  && isNil (slotResult ImagePush) && isNil (slotResult ClusterUp).

(** Nothing fails but, possibly, a teardown. *)
Definition runSucceeds : bool :=
  match preludeFailure with
  | Some _ => false
  | None =>
      tasksSucceed && isNil (w InstallDriver)
      && match selectedTests with
         | Some o => isNil (w o)
         | None => false
         end
  end.

(** Lines 247-277: the calls that bring a cluster up. *)
Definition clusterUpCalls : list Op :=
  if bringupCluster f && gateValue
  then if deploymentStrat f =? "gce"
       then if isNil (match w StatKubectl with
                      | None => w SetenvKubectl
                      | Some _ => None
                      end)
               && (if negb (kubeFeatureGates f =? "")
                   then isNil (w SetenvFeatureGates) else true)
            then [ClusterUpGCE] else []
       else if deploymentStrat f =? "gke" then [ClusterUpGKE] else []
  else [].

(** *** The invariants hold in every reachable state *)

Lemma pick_app {A} (g : Thread * Event -> option A) l1 l2 :
  pick g (l1 ++ l2) = pick g l1 ++ pick g l2.
Proof. unfold pick. apply flat_map_app. Qed.

Lemma eventsOf_app t l1 l2 : eventsOf t (l1 ++ l2) = eventsOf t l1 ++ eventsOf t l2.
Proof. apply pick_app. Qed.

Lemma eventsOf_own t evs : eventsOf t (map (pair t) evs) = evs.
Proof.
  induction evs as [|e evs IH]; [reflexivity|].
  unfold eventsOf, pick in *. simpl. rewrite IH.
  destruct t as [|[]]; reflexivity.
Qed.

Lemma eventsOf_other t u evs :
  sameThread t u = false -> eventsOf u (map (pair t) evs) = [].
Proof.
  intros H. induction evs as [|e evs IH]; [reflexivity|].
  unfold eventsOf, pick in *. simpl. rewrite H, IH. reflexivity.
Qed.

Ltac break_step H :=
  repeat (simpl in H;
          match type of H with
          | context [match ?x with _ => _ end] =>
              lazymatch x with
              | context [match _ with _ => _ end] => fail
              | _ => destruct x eqn:?
              end
          end);
  try discriminate H.

Ltac break_goal :=
  repeat match goal with
         | |- context [match ?x with _ => _ end] =>
             lazymatch x with
             | context [match _ with _ => _ end] => fail
             | _ => destruct x eqn:?
             end
         end.

Ltac step_inv H :=
  unfold step, stepMain, stepBuild, stepTest, stepPush, stepUp,
     sendErr, sendDep, option_map in H;
  break_step H; inversion H; subst; clear H.

Lemma emit_log t evs s : log (emit t evs s) = log s ++ map (pair t) evs.
Proof. reflexivity. Qed.

Ltac simpl_state :=
  unfold deferClusterDown, pushDeferred, call, upAfterKubectl; simpl;
  repeat match goal with |- context [if ?b then _ else _] => destruct b eqn:? end; simpl;
  rewrite <- ?app_assoc; simpl.

Lemma step_log t s s' :
  step t s = Some s' -> exists evs, log s' = log s ++ map (pair t) evs.
Proof.
  intros H. destruct t as [|[]]; step_inv H; simpl_state;
    try (exists []; simpl; rewrite app_nil_r; reflexivity);
    try match goal with
    | |- exists evs, ?l ++ (?t, ?e) :: map (pair ?t) ?r = ?l ++ map (pair ?t) evs =>
        exists (e :: r); reflexivity
    | |- exists evs, ?l ++ ?new = ?l ++ map (pair ?t) evs =>
        exists (map snd new); reflexivity
    end.
Qed.

Lemma stepBuild_frame s s' :
  stepBuild s = Some s' ->
  pcMain s' = pcMain s /\ pcTest s' = pcTest s /\ pcPush s' = pcPush s /\
  pcUp s' = pcUp s /\ deferred s' = deferred s.
Proof. intros H. step_inv H; simpl; auto. Qed.

Lemma stepTest_frame s s' :
  stepTest s = Some s' ->
  pcMain s' = pcMain s /\ pcBuild s' = pcBuild s /\ pcPush s' = pcPush s /\
  pcUp s' = pcUp s /\ deferred s' = deferred s.
Proof. intros H. step_inv H; simpl; auto. Qed.

Lemma stepPush_frame s s' :
  stepPush s = Some s' ->
  pcMain s' = pcMain s /\ pcBuild s' = pcBuild s /\ pcTest s' = pcTest s /\
  pcUp s' = pcUp s /\ deferred s' = deferred s.
Proof. intros H. step_inv H; simpl; auto. Qed.

Lemma stepUp_frame s s' :
  stepUp s = Some s' ->
  pcMain s' = pcMain s /\ pcBuild s' = pcBuild s /\ pcTest s' = pcTest s /\
  pcPush s' = pcPush s /\ deferred s' = deferred s.
Proof. intros H. step_inv H; simpl; auto. Qed.

Lemma stepMain_frame s s' :
  stepMain s = Some s' ->
  (pcBuild s' = pcBuild s \/ pcMain s = M178 /\ pcBuild s' = B179) /\
  (pcTest s' = pcTest s \/ pcMain s = M203 /\ pcTest s' = T205) /\
  (pcPush s' = pcPush s \/ pcMain s = M224 /\ pcPush s' = P225) /\
  (pcUp s' = pcUp s \/ pcMain s = M240 /\ pcUp s' = U241).
Proof. intros H. step_inv H; simpl_state; auto 10. Qed.

Lemma eventsOf_step_own t s s' :
  step t s = Some s' ->
  exists evs, log s' = log s ++ map (pair t) evs /\
              eventsOf t (log s') = eventsOf t (log s) ++ evs.
Proof.
  intros H. destruct (step_log _ _ _ H) as [evs He]. exists evs. split; [exact He|].
  rewrite He, eventsOf_app, eventsOf_own. reflexivity.
Qed.

Lemma eventsOf_step_other t u s s' :
  step t s = Some s' -> sameThread t u = false ->
  eventsOf u (log s') = eventsOf u (log s).
Proof.
  intros H Hn. destruct (step_log _ _ _ H) as [evs He].
  rewrite He, eventsOf_app, eventsOf_other, app_nil_r by exact Hn. reflexivity.
Qed.

Ltac own_step H :=
  step_inv H; simpl_state; rewrite ?eventsOf_app; simpl; rewrite <- ?app_assoc; simpl.

Lemma buildInv_own s s' :
  buildInv s -> stepBuild s = Some s' -> buildInv s'.
Proof.
  unfold buildInv. intros HI H.
  step_inv H; simpl_state; rewrite ?eventsOf_app; simpl; rewrite <- ?app_assoc; simpl;
  rewrite <- HI; simpl; unfold buildRun, buildFrom185;
  repeat match goal with H : w _ = _ |- _ => rewrite H end; try reflexivity.
Qed.

Lemma pickE_app {A} (g : Event -> option A) l1 l2 :
  pickE g (l1 ++ l2) = pickE g l1 ++ pickE g l2.
Proof. unfold pickE. apply flat_map_app. Qed.

Lemma recvsIn_app l1 l2 : recvsIn (l1 ++ l2) = recvsIn l1 ++ recvsIn l2.
Proof. apply pickE_app. Qed.

Lemma ranIn_app l1 l2 : ranIn (l1 ++ l2) = ranIn l1 ++ ranIn l2.
Proof. apply pickE_app. Qed.

Lemma registeredIn_app l1 l2 : registeredIn (l1 ++ l2) = registeredIn l1 ++ registeredIn l2.
Proof. apply pickE_app. Qed.

Lemma recvsIn_map_Recv l : recvsIn (map Recv l) = l.
Proof. induction l as [|x l IH]; [reflexivity|]. unfold recvsIn, pickE in *. simpl. now rewrite IH. Qed.

Lemma ranIn_map_Recv l : ranIn (map Recv l) = [].
Proof. induction l as [|x l IH]; [reflexivity|]. exact IH. Qed.

Lemma forward_recvsIn l : forallb forward l = true -> recvsIn l = [].
Proof.
  induction l as [|e l IH]; [reflexivity|]. simpl. intros H.
  apply andb_true_iff in H as [He Hl]. unfold recvsIn, pickE in *. simpl.
  rewrite (IH Hl). destruct e; try discriminate; reflexivity.
Qed.

Lemma forward_ranIn l : forallb forward l = true -> ranIn l = [].
Proof.
  induction l as [|e l IH]; [reflexivity|]. simpl. intros H.
  apply andb_true_iff in H as [He Hl]. unfold ranIn, pickE in *. simpl.
  rewrite (IH Hl). destruct e; try discriminate; reflexivity.
Qed.

Ltac fwd := unfold E312, E239, E223, E202, E177, E166, E164, E156, E155, E140, E135, E133, E124,
    installEvents, callOf;
  repeat match goal with |- context [match ?b with _ => _ end] => destruct b end; reflexivity.

Lemma forward_E133 : forallb forward E133 = true. Proof. fwd. Qed.

Lemma forward_E140 : forallb forward E140 = true. Proof. fwd. Qed.

Lemma forward_E156 : forallb forward E156 = true. Proof. fwd. Qed.

Lemma forward_E312 : forallb forward E312 = true. Proof. fwd. Qed.

Lemma forward_installEvents : forallb forward installEvents = true. Proof. fwd. Qed.

Lemma recvsIn_E133 : recvsIn E133 = []. Proof. apply forward_recvsIn, forward_E133. Qed.

Lemma recvsIn_E140 : recvsIn E140 = []. Proof. apply forward_recvsIn, forward_E140. Qed.

Lemma recvsIn_E156 : recvsIn E156 = []. Proof. apply forward_recvsIn, forward_E156. Qed.

Lemma recvsIn_E312 : recvsIn E312 = []. Proof. apply forward_recvsIn, forward_E312. Qed.

Lemma recvsIn_installEvents : recvsIn installEvents = [].
Proof. apply forward_recvsIn, forward_installEvents. Qed.

Lemma ranIn_E133 : ranIn E133 = []. Proof. apply forward_ranIn, forward_E133. Qed.

Lemma ranIn_E140 : ranIn E140 = []. Proof. apply forward_ranIn, forward_E140. Qed.

Lemma ranIn_E156 : ranIn E156 = []. Proof. apply forward_ranIn, forward_E156. Qed.

Lemma ranIn_E312 : ranIn E312 = []. Proof. apply forward_ranIn, forward_E312. Qed.

Lemma ranIn_installEvents : ranIn installEvents = [].
Proof. apply forward_ranIn, forward_installEvents. Qed.

Ltac evnorm :=
  repeat (progress rewrite ?recvsIn_app, ?ranIn_app, ?recvsIn_map_Recv, ?ranIn_map_Recv,
            ?recvsIn_E133, ?recvsIn_E140, ?recvsIn_E156, ?recvsIn_E312, ?recvsIn_installEvents,
            ?ranIn_E133, ?ranIn_E140, ?ranIn_E156, ?ranIn_E312, ?ranIn_installEvents,
            ?app_nil_r, ?map_app, ?length_app).

Lemma firstFailure_snoc l e : firstFailure (l ++ [e]) = keepFirst (firstFailure l) e.
Proof.
  induction l as [|[x|] l IH]; simpl.
  - destruct e; reflexivity.
  - destruct e; reflexivity.
  - exact IH.
Qed.

Lemma returnPoint_prelude r rcv : preludeFailure = Some r -> returnPoint rcv = r.
Proof. unfold returnPoint. now intros ->. Qed.

Lemma returnPoint_ok rcv :
  preludeFailure = None ->
  returnPoint rcv = (E312 ++ map Recv rcv ++ fst (afterAggregate (firstFailure rcv)),
                     snd (afterAggregate (firstFailure rcv))).
Proof. unfold returnPoint. now intros ->. Qed.

Ltac prelude_fail :=
  match goal with
  | |- context [returnPoint ?r] =>
      let pf := fresh "pf" in
      destruct preludeFailure as [?|] eqn:pf;
      unfold preludeFailure in pf;
      repeat match goal with H : w _ = _ |- _ => rewrite H in pf end;
      repeat match goal with H : inProw _ = _ |- _ => rewrite H in pf end;
      simpl in pf; inversion pf; subst; clear pf
  end.

Ltac use_eqs :=
  repeat match goal with
         | H : w _ = _ |- _ => rewrite H in *
         | H : _ = true |- _ => rewrite H in *
         | H : _ = false |- _ => rewrite H in *
         end.

Ltac one_E :=
  solve [ reflexivity
        | unfold E124, callOf; use_eqs; reflexivity
        | unfold E133, callOf; use_eqs; reflexivity
        | unfold E135, callOf; use_eqs; reflexivity
        | unfold E140, callOf; use_eqs; reflexivity
        | unfold E155, callOf; use_eqs; reflexivity
        | unfold E156, callOf; use_eqs; reflexivity
        | unfold E164, callOf; use_eqs; simpl; rewrite ?app_nil_r; reflexivity
        | unfold E164, E133, callOf; use_eqs; simpl; rewrite ?app_nil_r; reflexivity
        | unfold E164, E156, callOf; use_eqs; simpl; rewrite <- ?app_assoc; reflexivity
        | unfold E166, callOf; use_eqs; reflexivity
        | unfold E177, callOf; use_eqs; reflexivity
        | unfold E202, callOf; use_eqs; simpl; rewrite <- ?app_assoc; reflexivity
        | unfold E223, callOf; use_eqs; reflexivity
        | unfold E239, callOf; use_eqs; reflexivity
        | unfold E312, callOf; use_eqs; simpl; rewrite ?app_nil_r; reflexivity
        | unfold preludeFailure; use_eqs; reflexivity ].

Lemma recvsIn_runDeferred d : recvsIn (runDeferred d) = [].
Proof.
  apply forward_recvsIn. unfold runDeferred, klogIfErr.
  destruct d; repeat match goal with |- context [match ?b with _ => _ end] => destruct b end;
    reflexivity.
Qed.

Lemma ranIn_runDeferred d : ranIn (runDeferred d) = [].
Proof.
  apply forward_ranIn. unfold runDeferred, klogIfErr.
  destruct d; repeat match goal with |- context [match ?b with _ => _ end] => destruct b end;
    reflexivity.
Qed.

Lemma unwind_app l1 l2 : unwind (l1 ++ l2) = unwind l1 ++ unwind l2.
Proof. unfold unwind. apply flat_map_app. Qed.

Lemma returning_prelude base ret evs :
  preludeFailure = Some (base, ret) -> evs = base ->
  forallb forward base = true -> returning ret evs.
Proof.
  intros Hp -> Hf. unfold returning.
  rewrite (returnPoint_prelude _ _ Hp), (forward_ranIn _ Hf). simpl.
  rewrite app_nil_r. repeat split. congruence.
Qed.

Lemma returning_after rcv ret evs tail :
  preludeFailure = None -> List.length rcv = 4 ->
  afterAggregate (firstFailure rcv) = (tail, ret) ->
  forallb forward tail = true ->
  evs = E312 ++ map Recv rcv ++ tail -> returning ret evs.
Proof.
  intros Hp Hl Ha Hf ->. unfold returning.
  assert (Hr : recvsIn (E312 ++ map Recv rcv ++ tail) = rcv).
  { evnorm. rewrite (forward_recvsIn _ Hf). apply app_nil_r. }
  rewrite Hr, (returnPoint_ok _ Hp), Ha. simpl.
  evnorm. rewrite (forward_ranIn _ Hf). simpl.
  evnorm. auto.
Qed.

Lemma returning_unwind ret evs d :
  returning ret evs -> returning ret (evs ++ RunDeferred d :: runDeferred d).
Proof.
  unfold returning. intros (He & Hr & Hl).
  assert (R1 : recvsIn (evs ++ RunDeferred d :: runDeferred d) = recvsIn evs).
  { rewrite recvsIn_app.
    change (recvsIn (RunDeferred d :: runDeferred d)) with (recvsIn (runDeferred d)).
    rewrite recvsIn_runDeferred. apply app_nil_r. }
  assert (R2 : ranIn (evs ++ RunDeferred d :: runDeferred d) = ranIn evs ++ [d]).
  { rewrite ranIn_app.
    change (ranIn (RunDeferred d :: runDeferred d)) with (d :: ranIn (runDeferred d)).
    rewrite ranIn_runDeferred. reflexivity. }
  rewrite R1, R2, unwind_app. repeat split; auto.
  rewrite app_assoc, <- He. simpl. rewrite app_nil_r. reflexivity.
Qed.

Lemma loop_recv evs e :
  evs = E312 ++ map Recv (recvsIn evs) ->
  evs ++ [Recv e] = E312 ++ map Recv (recvsIn (evs ++ [Recv e])) /\
  recvsIn (evs ++ [Recv e]) = recvsIn evs ++ [e].
Proof.
  intros H. assert (R : recvsIn (evs ++ [Recv e]) = recvsIn evs ++ [e]) by apply recvsIn_app.
  split; [|exact R]. rewrite R, map_app. simpl. rewrite app_assoc, <- H. reflexivity.
Qed.

Ltac ret_prelude :=
  eapply returning_prelude;
  [ unfold preludeFailure; use_eqs; reflexivity | subst; one_E | fwd ].

Ltac ret_after :=
  match goal with
  | H : ?evs = E312 ++ map Recv (recvsIn ?evs) |- _ =>
      let rcv := fresh "rcv" in
      remember (recvsIn evs) as rcv in *; subst evs;
      eapply (returning_after rcv);
      [ assumption | assumption
      | unfold afterAggregate, selectedTests in *; use_eqs;
        repeat match goal with H : _ = firstFailure _ |- _ => rewrite <- H end;
        repeat match goal with H : firstFailure _ = _ |- _ => rewrite H end;
        simpl; reflexivity
      | fwd
      | rewrite <- ?app_assoc; unfold installEvents, callOf; use_eqs; simpl;
        rewrite ?app_nil_r; reflexivity ]
  end.

Lemma loop_enter evs :
  evs = E312 ->
  evs = E312 ++ map Recv (recvsIn evs) /\ List.length (recvsIn evs) = 0 /\
  None = firstFailure (recvsIn evs).
Proof. intros ->. rewrite recvsIn_E312. simpl. rewrite app_nil_r. auto. Qed.

Lemma loop_tail evs tail :
  evs = E312 ++ map Recv (recvsIn evs) -> forallb forward tail = true ->
  recvsIn (evs ++ tail) = recvsIn evs /\
  evs ++ tail = E312 ++ map Recv (recvsIn (evs ++ tail)) ++ tail.
Proof.
  intros H Hf.
  assert (R : recvsIn (evs ++ tail) = recvsIn evs).
  { rewrite recvsIn_app, (forward_recvsIn _ Hf). apply app_nil_r. }
  split; [exact R|]. rewrite R, app_assoc, <- H. reflexivity.
Qed.

Ltac known_failures :=
  repeat match goal with
         | H : w ?o <> None |- _ =>
             destruct (w o) eqn:?; [clear H | congruence]
         end.

Lemma mainInv_own s s' : mainInv s -> stepMain s = Some s' -> mainInv s'.
Proof.
  unfold mainInv. intros HI H.
  step_inv H; simpl_state; rewrite ?eventsOf_app; simpl; rewrite <- ?app_assoc; simpl.
  all: rewrite ?eventsOf_own, ?Heqm; rewrite ?Heqm in HI; simpl in HI.
  all: generalize dependent (eventsOf Main (log s)); intros evs HI.
  all: try (intuition (subst; try congruence; try reflexivity); fail).
  all: try (unfold mainAt177, mainAt202, mainAt223, mainAt239;
            repeat match goal with |- context [if ?b then _ else _] => destruct b eqn:? end).
  all: try (intuition (subst; try congruence; try reflexivity); fail).
  all: repeat match goal with H : _ /\ _ |- _ => destruct H end.
  all: known_failures.
  all: try (subst evs; repeat split; auto; one_E).
  all: try (apply returning_unwind; assumption).
  all: try ret_prelude.
  all: try ret_after.
  all: try (match goal with
            | |- ?e = E312 ++ map Recv (recvsIn ?e) /\ _ =>
                let He := fresh in
                assert (He : e = E312) by (subst; one_E);
                destruct (loop_enter _ He) as (? & ? & ?); repeat split; auto
            end; fail).
  all: try (match goal with
            | H : ?evs = E312 ++ map Recv (recvsIn ?evs)
              |- ?evs ++ ?tail = E312 ++ map Recv (recvsIn (?evs ++ ?tail)) ++ installEvents /\ _ =>
                let Hf := fresh in
                assert (Hf : forallb forward tail = true) by reflexivity;
                destruct (loop_tail _ _ H Hf) as [R1 R2];
                rewrite R1 in *; repeat split; auto;
                try (rewrite app_assoc, <- H; unfold installEvents, callOf; use_eqs; reflexivity);
                try (unfold selectedTests; use_eqs; reflexivity)
            end; fail).
  - (* line 313: one more outcome *)
    destruct (loop_recv _ e H) as [R1 R2].
    assert (Hl : List.length (recvsIn (evs ++ [Recv e])) = S i)
      by (rewrite R2, length_app; simpl; lia).
    assert (Hf : keepFirst firstErr e = firstFailure (recvsIn (evs ++ [Recv e])))
      by (rewrite R2, firstFailure_snoc; now subst).
    unfold mainAfterRecv. destruct (S i <? 4)%nat eqn:Hi.
    + apply Nat.ltb_lt in Hi. repeat split; auto.
    + apply Nat.ltb_ge in Hi. repeat split; auto. lia.
  - (* line 339 *)
    remember (recvsIn evs) as rcv in *. subst evs.
    apply (returning_after rcv _ _ (installEvents ++ [callOf RunCSITests])); auto.
    + rewrite H2. unfold afterAggregate. rewrite H3, H4. reflexivity.
    + rewrite forallb_app, forward_installEvents. reflexivity.
    + rewrite <- !app_assoc. reflexivity.
  - (* line 341 *)
    remember (recvsIn evs) as rcv in *. subst evs.
    apply (returning_after rcv _ _ (installEvents ++ [callOf RunMigrationTests])); auto.
    + rewrite H2. unfold afterAggregate. rewrite H3, H4. reflexivity.
    + rewrite forallb_app, forward_installEvents. reflexivity.
    + rewrite <- !app_assoc. reflexivity.
Qed.

Lemma mainInv_step s s' t : mainInv s -> step t s = Some s' -> mainInv s'.
Proof.
  intros HI H. destruct t as [|g].
  - exact (mainInv_own _ _ HI H).
  - assert (He : eventsOf Main (log s') = eventsOf Main (log s))
      by (apply (eventsOf_step_other _ _ _ _ H); destruct g; reflexivity).
    assert (Hp : pcMain s' = pcMain s).
    { destruct g; simpl in H;
        [apply stepBuild_frame in H | apply stepTest_frame in H
        | apply stepPush_frame in H | apply stepUp_frame in H]; tauto. }
    unfold mainInv. rewrite He, Hp. exact HI.
Qed.

Lemma started_app t l1 l2 : started t (l1 ++ l2) = started t l1 || started t l2.
Proof. apply existsb_app. Qed.

Lemma started_runDeferred t d : started t (runDeferred d) = false.
Proof.
  unfold runDeferred, klogIfErr.
  destruct d, t; repeat match goal with |- context [match ?b with _ => _ end] => destruct b end;
    reflexivity.
Qed.

Ltac use_pcs s :=
  repeat match goal with
         | H : pcBuild s = _ |- _ => rewrite H in *; clear H
         | H : pcTest s = _ |- _ => rewrite H in *; clear H
         | H : pcPush s = _ |- _ => rewrite H in *; clear H
         | H : pcUp s = _ |- _ => rewrite H in *; clear H
         end.

Lemma spawnInv_step s s' t : spawnInv s -> step t s = Some s' -> spawnInv s'.
Proof.
  unfold spawnInv. intros HI H u. specialize (HI u).
  destruct t as [|[]]; step_inv H; simpl_state;
    rewrite ?eventsOf_app, ?eventsOf_own, ?started_app in *; simpl;
    rewrite ?eventsOf_own, ?started_runDeferred, ?app_nil_r, ?orb_false_r;
    destruct u; simpl in *; use_pcs s; simpl in *;
    rewrite ?orb_false_r, ?orb_true_r; auto; try congruence.
Qed.

Ltac run_eq :=
  rewrite ?eventsOf_app, ?eventsOf_own; simpl; rewrite <- ?app_assoc; simpl.

Lemma testInv_own s s' : testInv s -> stepTest s = Some s' -> testInv s'.
Proof.
  unfold testInv. intros HI H.
  step_inv H; simpl_state; run_eq; rewrite <- HI; simpl;
  unfold testRun, testFrom210, outcome; use_eqs; reflexivity.
Qed.

Lemma pushInv_own s s' : pushInv s -> stepPush s = Some s' -> pushInv s'.
Proof.
  unfold pushInv. intros HI H.
  step_inv H; simpl_state; run_eq; rewrite <- HI; simpl;
  unfold pushRun; use_eqs; reflexivity.
Qed.

Lemma upInv_own s s' : upInv s -> stepUp s = Some s' -> upInv s'.
Proof.
  unfold upInv. intros HI H.
  step_inv H; simpl_state; run_eq; use_pcs s; simpl in HI;
    try (match type of HI with
         | ex _ => destruct HI as [b0 HI]; exists b0; rewrite <- HI
         end);
    try (rewrite HI; simpl;
         match goal with |- exists b, DepRecv ?x :: _ = _ => exists x end;
         unfold upRun);
    unfold upFrom249, upFrom252, upFrom261, upFrom262, upFrom270, upFrom276, upFrom282, outcome;
    use_eqs; simpl; try reflexivity.
Qed.

Ltac not_started :=
  unfold E239, E223, E202, E177, E166, E164, E156, E155, E140, E135, E133, E124, callOf;
  repeat match goal with |- context [match ?b with _ => _ end] => destruct b end; reflexivity.

Lemma started_E177 t : started t E177 = false.
Proof. destruct t; not_started. Qed.

Lemma started_E202 : started TestBuild E202 = false.
Proof. not_started. Qed.

Lemma started_E223 : started ImagePush E223 = false.
Proof. not_started. Qed.

Lemma started_E239 : started ClusterUp E239 = false.
Proof. not_started. Qed.

(** A goroutine is started once: at its [go] statement it has not run yet. *)
Lemma idle_at_go s :
  mainInv s -> spawnInv s ->
  (pcMain s = M178 -> pcBuild s = BIdle) /\
  (pcMain s = M203 -> pcTest s = TIdle) /\
  (pcMain s = M224 -> pcPush s = PIdle) /\
  (pcMain s = M240 -> pcUp s = UIdle).
Proof.
  unfold mainInv, spawnInv. intros HM HS. repeat split; intros Hpc; rewrite Hpc in HM;
    destruct HM as (HE & _).
  - specialize (HS ClusterBuild). rewrite HE, started_E177 in HS. simpl in HS.
    destruct (pcBuild s); try discriminate; reflexivity.
  - specialize (HS TestBuild). rewrite HE, started_E202 in HS. simpl in HS.
    destruct (pcTest s); try discriminate; reflexivity.
  - specialize (HS ImagePush). rewrite HE, started_E223 in HS. simpl in HS.
    destruct (pcPush s); try discriminate; reflexivity.
  - specialize (HS ClusterUp). rewrite HE, started_E239 in HS. simpl in HS.
    destruct (pcUp s); try discriminate; reflexivity.
Qed.

Lemma buildInv_step s s' t :
  mainInv s -> spawnInv s -> buildInv s -> step t s = Some s' -> buildInv s'.
Proof.
  intros HM HS HI H. destruct t as [|[]]; try exact (buildInv_own _ _ HI H);
    unfold buildInv; erewrite (eventsOf_step_other _ _ _ _ H) by reflexivity; simpl in H.
  - destruct (stepMain_frame _ _ H) as ([E|[Hpc E]] & _); rewrite E; [exact HI|].
    destruct (idle_at_go _ HM HS) as (Hb & _). unfold buildInv in HI.
    rewrite (Hb Hpc) in HI. exact HI.
  - destruct (stepTest_frame _ _ H) as (_ & E & _). rewrite E. exact HI.
  - destruct (stepPush_frame _ _ H) as (_ & E & _). rewrite E. exact HI.
  - destruct (stepUp_frame _ _ H) as (_ & E & _). rewrite E. exact HI.
Qed.

Lemma testInv_step s s' t :
  mainInv s -> spawnInv s -> testInv s -> step t s = Some s' -> testInv s'.
Proof.
  intros HM HS HI H. destruct t as [|[]]; try exact (testInv_own _ _ HI H);
    unfold testInv; erewrite (eventsOf_step_other _ _ _ _ H) by reflexivity; simpl in H.
  - destruct (stepMain_frame _ _ H) as (_ & [E|[Hpc E]] & _); rewrite E; [exact HI|].
    destruct (idle_at_go _ HM HS) as (_ & Hb & _). unfold testInv in HI.
    rewrite (Hb Hpc) in HI. exact HI.
  - destruct (stepBuild_frame _ _ H) as (_ & E & _). rewrite E. exact HI.
  - destruct (stepPush_frame _ _ H) as (_ & _ & E & _). rewrite E. exact HI.
  - destruct (stepUp_frame _ _ H) as (_ & _ & E & _). rewrite E. exact HI.
Qed.

Lemma pushInv_step s s' t :
  mainInv s -> spawnInv s -> pushInv s -> step t s = Some s' -> pushInv s'.
Proof.
  intros HM HS HI H. destruct t as [|[]]; try exact (pushInv_own _ _ HI H);
    unfold pushInv; erewrite (eventsOf_step_other _ _ _ _ H) by reflexivity; simpl in H.
  - destruct (stepMain_frame _ _ H) as (_ & _ & [E|[Hpc E]] & _); rewrite E; [exact HI|].
    destruct (idle_at_go _ HM HS) as (_ & _ & Hb & _). unfold pushInv in HI.
    rewrite (Hb Hpc) in HI. exact HI.
  - destruct (stepBuild_frame _ _ H) as (_ & _ & E & _). rewrite E. exact HI.
  - destruct (stepTest_frame _ _ H) as (_ & _ & E & _). rewrite E. exact HI.
  - destruct (stepUp_frame _ _ H) as (_ & _ & _ & E & _). rewrite E. exact HI.
Qed.

Lemma upInv_step s s' t :
  mainInv s -> spawnInv s -> upInv s -> step t s = Some s' -> upInv s'.
Proof.
  intros HM HS HI H. destruct t as [|[]]; try exact (upInv_own _ _ HI H);
    unfold upInv; erewrite (eventsOf_step_other _ _ _ _ H) by reflexivity; simpl in H.
  - destruct (stepMain_frame _ _ H) as (_ & _ & _ & [E|[Hpc E]]); rewrite E; [exact HI|].
    destruct (idle_at_go _ HM HS) as (_ & _ & _ & Hb). unfold upInv in HI.
    rewrite (Hb Hpc) in HI. exact HI.
  - destruct (stepBuild_frame _ _ H) as (_ & _ & _ & E & _). rewrite E. exact HI.
  - destruct (stepTest_frame _ _ H) as (_ & _ & _ & E & _). rewrite E. exact HI.
  - destruct (stepPush_frame _ _ H) as (_ & _ & _ & E & _). rewrite E. exact HI.
Qed.

Lemma sentOn_app l1 l2 : sentOn (l1 ++ l2) = sentOn l1 ++ sentOn l2.
Proof. apply pick_app. Qed.

Lemma depSent_app l1 l2 : depSent (l1 ++ l2) = depSent l1 ++ depSent l2.
Proof. apply pick_app. Qed.

Lemma depRecvd_app l1 l2 : depRecvd (l1 ++ l2) = depRecvd l1 ++ depRecvd l2.
Proof. apply pick_app. Qed.

Ltac deferred_cases d :=
  unfold runDeferred, klogIfErr;
  destruct d; repeat match goal with |- context [match ?b with _ => _ end] => destruct b end;
  reflexivity.

Lemma sentOn_runDeferred t d : sentOn (map (pair t) (runDeferred d)) = [].
Proof. deferred_cases d. Qed.

Lemma depSent_runDeferred t d : depSent (map (pair t) (runDeferred d)) = [].
Proof. deferred_cases d. Qed.

Lemma depRecvd_runDeferred t d : depRecvd (map (pair t) (runDeferred d)) = [].
Proof. deferred_cases d. Qed.

Lemma registeredIn_runDeferred d : registeredIn (runDeferred d) = [].
Proof. deferred_cases d. Qed.

Lemma chanInv_step s s' t : chanInv s -> step t s = Some s' -> chanInv s'.
Proof.
  unfold chanInv, arrivals, received. intros HI H.
  destruct t as [|[]]; step_inv H; simpl_state;
    rewrite ?sentOn_app, ?eventsOf_app, ?recvsIn_app; simpl;
    rewrite ?sentOn_runDeferred, ?eventsOf_own, ?recvsIn_runDeferred, ?app_nil_r;
    rewrite HI; rewrite <- ?app_assoc; reflexivity.
Qed.

Lemma depInv_step s s' t : depInv s -> step t s = Some s' -> depInv s'.
Proof.
  unfold depInv. intros HI H.
  destruct t as [|[]]; step_inv H; simpl_state;
    rewrite ?depSent_app, ?depRecvd_app; simpl;
    rewrite ?depSent_runDeferred, ?depRecvd_runDeferred, ?app_nil_r;
    rewrite HI; rewrite <- ?app_assoc; reflexivity.
Qed.

Lemma deferInv_step s s' t : deferInv s -> step t s = Some s' -> deferInv s'.
Proof.
  unfold deferInv. intros (HI & HQ & HR) H.
  destruct t as [|g].
  - step_inv H; simpl_state;
      rewrite ?eventsOf_app, ?ranIn_app, ?registeredIn_app; simpl;
      rewrite ?eventsOf_own, ?ranIn_runDeferred, ?registeredIn_runDeferred, ?app_nil_r,
        ?rev_app_distr; simpl;
      rewrite ?Heqm in *; simpl in *;
      unfold mainAt177, mainAt202, mainAt223, mainAt239, mainAfterRecv;
      repeat match goal with |- context [if ?b then _ else _] => destruct b end; simpl;
      try (rewrite (HQ eq_refl) in *; simpl in *; rewrite <- HI;
           repeat split; auto; discriminate);
      try (repeat split; [exact HI | auto; discriminate | discriminate]).
    + rewrite Heql. repeat split; [exact HI | discriminate].
    + rewrite <- app_assoc. repeat split; [exact HI | discriminate | discriminate].
  - assert (He : eventsOf Main (log s') = eventsOf Main (log s))
      by (apply (eventsOf_step_other _ _ _ _ H); destruct g; reflexivity).
    assert (Hp : pcMain s' = pcMain s /\ deferred s' = deferred s).
    { destruct g; simpl in H;
        [apply stepBuild_frame in H | apply stepTest_frame in H
        | apply stepPush_frame in H | apply stepUp_frame in H]; tauto. }
    destruct Hp as [Hp Hd]. rewrite He, Hp, Hd. auto.
Qed.

Lemma Inv_init : Inv init.
Proof.
  split; try reflexivity.
  - intros []; reflexivity.
  - repeat split; try reflexivity; discriminate.
Qed.

Lemma Inv_step s s' t : Inv s -> step t s = Some s' -> Inv s'.
Proof.
  intros [] H. split;
    eauto using mainInv_step, spawnInv_step, buildInv_step, testInv_step, pushInv_step,
      upInv_step, chanInv_step, depInv_step, deferInv_step.
Qed.

(** Every state of every run satisfies the invariants. *)
Lemma reachable_Inv s : reachable s -> Inv s.
Proof.
  induction 1 as [|s s' t _ IH H]; [apply Inv_init | exact (Inv_step _ _ _ IH H)].
Qed.

Lemma run_reachable sched s s' : reachable s -> run sched s = Some s' -> reachable s'.
Proof.
  revert s. induction sched as [|t rest IH]; simpl; intros s Hs H.
  - inversion H. now subst.
  - destruct (step t s) as [s1|] eqn:E; [|discriminate].
    exact (IH _ (reachable_step _ _ _ Hs E) H).
Qed.

(** *** Attribution: who did what *)

Lemma eventsOf_cons t u e l :
  eventsOf u ((t, e) :: l) = (if sameThread t u then [e] else []) ++ eventsOf u l.
Proof. unfold eventsOf, pick. simpl. destruct (sameThread t u); reflexivity. Qed.

Lemma sameThread_refl t : sameThread t t = true.
Proof. destruct t as [|[]]; reflexivity. Qed.

(** A selection over the whole log whose events all come from [handle]. *)
Lemma pick_only_main {A} (g : Event -> option A) l :
  (forall t, pickE g (eventsOf (Bg t) l) = []) ->
  pick (fun te => g (snd te)) l = pickE g (eventsOf Main l).
Proof.
  induction l as [|[t e] l IH]; [reflexivity|]. intros H.
  assert (Hl : forall u, pickE g (eventsOf (Bg u) l) = []).
  { intros u. specialize (H u). rewrite eventsOf_cons, pickE_app in H.
    now apply app_eq_nil in H. }
  change (pick (fun te => g (snd te)) ((t, e) :: l))
    with ((match g e with Some a => [a] | None => [] end)
          ++ pick (fun te => g (snd te)) l).
  rewrite (IH Hl), eventsOf_cons, pickE_app. f_equal.
  destruct t as [|u].
  - unfold pickE. simpl. destruct (g e); reflexivity.
  - specialize (H u). rewrite eventsOf_cons, sameThread_refl, pickE_app in H.
    apply app_eq_nil in H as [H _]. unfold pickE in H. simpl in H.
    rewrite app_nil_r in H. rewrite H. destruct u; reflexivity.
Qed.

(** Whatever is selected in the log was done by some goroutine. *)
Lemma pick_in_thread {A} (g : Event -> option A) l x :
  In x (pick (fun te => g (snd te)) l) ->
  exists t, In x (pickE g (eventsOf t l)).
Proof.
  induction l as [|[t e] l IH]; [intros []|].
  change (pick (fun te => g (snd te)) ((t, e) :: l))
    with ((match g e with Some a => [a] | None => [] end)
          ++ pick (fun te => g (snd te)) l).
  intros H. apply in_app_or in H as [H|H].
  - exists t. rewrite eventsOf_cons, sameThread_refl, pickE_app.
    apply in_or_app. left. simpl. rewrite app_nil_r. exact H.
  - destruct (IH H) as [u Hu]. exists u.
    rewrite eventsOf_cons, pickE_app. apply in_or_app. now right.
Qed.

Lemma pickE_in {A} (g : Event -> option A) l x :
  In x (pickE g l) -> exists e, In e l /\ g e = Some x.
Proof.
  induction l as [|e l IH]; [intros []|]. unfold pickE in *. simpl.
  intros H. apply in_app_or in H as [H|H].
  - exists e. split; [now left|]. destruct (g e); [|destruct H].
    destruct H as [<-|[]]. reflexivity.
  - destruct (IH H) as (e' & He & Hg). exists e'. split; [now right | exact Hg].
Qed.

(** *** The aggregate *)

Lemma aggregate_at_319 s firstErr :
  reachable s -> pcMain s = M319 firstErr ->
  received s = firstn 4 (arrivals s) /\ List.length (received s) = 4 /\
  firstErr = firstFailure (received s).
Proof.
  intros Hr Hpc. destruct (reachable_Inv _ Hr) as [HM _ _ _ _ _ HC _ _].
  unfold mainInv in HM. rewrite Hpc in HM. destruct HM as (_ & _ & Hl & Hf).
  unfold chanInv in HC. fold (received s) in Hl, Hf. repeat split; auto.
  assert (Hn : firstn 4 (received s) = received s)
    by (rewrite <- Hl; apply firstn_all).
  rewrite HC, firstn_app, Hl, Nat.sub_diag, firstn_O, app_nil_r. now rewrite Hn.
Qed.

(** *** The shape of what [handle] has done *)

Lemma isPrefix_refl {A} (a : list A) : isPrefix a a.
Proof. exists []. now rewrite app_nil_r. Qed.

Lemma isPrefix_trans {A} (a b c : list A) : isPrefix a b -> isPrefix b c -> isPrefix a c.
Proof. intros [r ->] [r' ->]. exists (r ++ r'). now rewrite app_assoc. Qed.

Lemma isPrefix_app {A} (a r : list A) : isPrefix a (a ++ r).
Proof. now exists r. Qed.

Lemma isPrefix_app_mid {A} (a r r' : list A) : isPrefix (a ++ r) (a ++ r ++ r').
Proof. exists r'. now rewrite app_assoc. Qed.

Lemma prefix_124_133 : isPrefix E124 E133. Proof. apply isPrefix_app. Qed.
Lemma prefix_133_135 : isPrefix E133 E135. Proof. apply isPrefix_app. Qed.
Lemma prefix_135_140 : isPrefix E135 E140. Proof. apply isPrefix_app. Qed.
Lemma prefix_140_155 : isPrefix E140 E155. Proof. apply isPrefix_app. Qed.
Lemma prefix_155_156 : isPrefix E155 E156. Proof. apply isPrefix_app. Qed.
Lemma prefix_156_164 : inProw f = true -> isPrefix E156 E164.
Proof. intros H. unfold E164. rewrite H. apply isPrefix_app. Qed.
Lemma prefix_133_164 : isPrefix E133 E164.
Proof.
  unfold E164. destruct (inProw f); [|apply isPrefix_refl].
  eauto using isPrefix_trans, prefix_133_135, prefix_135_140, prefix_140_155,
    prefix_155_156, isPrefix_app.
Qed.
Lemma prefix_164_166 : isPrefix E164 E166. Proof. apply isPrefix_app. Qed.
Lemma prefix_166_177 : isPrefix E166 E177. Proof. apply isPrefix_app. Qed.
Lemma prefix_177_202 : isPrefix E177 E202. Proof. apply isPrefix_app. Qed.
Lemma prefix_202_223 : isPrefix E202 E223. Proof. apply isPrefix_app. Qed.
Lemma prefix_223_239 : isPrefix E223 E239. Proof. apply isPrefix_app. Qed.
Lemma prefix_239_312 : isPrefix E239 E312. Proof. apply isPrefix_app. Qed.

Lemma prefix_197_202 :
  needClusterBuild = false -> isPrefix (E177 ++ [Send ClusterBuild None]) E202.
Proof.
  intros H. unfold E202. rewrite H.
  apply (isPrefix_app_mid E177 [Send ClusterBuild None] [DepSend true]).
Qed.

Ltac pfx :=
  first
    [ apply isPrefix_refl
    | eapply isPrefix_trans;
      [ first [ apply prefix_124_133 | apply prefix_133_164 | apply prefix_135_140
              | apply prefix_140_155 | apply prefix_155_156
              | apply prefix_156_164; assumption | apply prefix_164_166
              | apply prefix_166_177 | apply prefix_177_202
              | apply prefix_197_202; assumption | apply prefix_202_223
              | apply prefix_223_239 ]
      | pfx ] ].

Lemma prefix_164_239 : isPrefix E164 E239.
Proof. pfx. Qed.

Lemma prefix_inProw_164 pre :
  inProw f = true -> isPrefix pre E156 -> isPrefix pre E164.
Proof. intros H Hp. exact (isPrefix_trans _ _ _ Hp (prefix_156_164 H)). Qed.

Lemma lateEvent_runDeferred d : forallb lateEvent (runDeferred d) = true.
Proof. deferred_cases d. Qed.

Lemma lateEvent_unwind ds : forallb lateEvent (unwind ds) = true.
Proof.
  induction ds as [|d ds IH]; [reflexivity|].
  unfold unwind in *. simpl. rewrite forallb_app, lateEvent_runDeferred, IH. reflexivity.
Qed.

Lemma lateEvent_map_Recv l : forallb lateEvent (map Recv l) = true.
Proof. induction l as [|x l IH]; [reflexivity | exact IH]. Qed.

Lemma lateEvent_installEvents : forallb lateEvent installEvents = true.
Proof. unfold installEvents, callOf. destruct (teardownDriver f); reflexivity. Qed.

Lemma lateEvent_afterAggregate firstErr :
  forallb lateEvent (fst (afterAggregate firstErr)) = true.
Proof.
  unfold afterAggregate, selectedTests.
  break_goal; cbn [fst]; rewrite ?forallb_app, ?lateEvent_installEvents; reflexivity.
Qed.

(** The prelude failed: the events up to the [return] are the beginning of
    those of line 164. *)
Lemma preludeFailure_prefix base ret :
  preludeFailure = Some (base, ret) -> isPrefix base E164.
Proof.
  unfold preludeFailure. intros H.
  destruct (w LookupEnvGOPATH); [inversion H; subst; apply prefix_133_164|].
  destruct (inProw f) eqn:Hp; [|discriminate].
  destruct (w GcloudGetProject).
  { inversion H; subst. apply (prefix_inProw_164 _ Hp).
    eauto using isPrefix_trans, prefix_140_155, prefix_155_156. }
  destruct (w SetEnvProject).
  { inversion H; subst. apply (prefix_inProw_164 _ Hp).
    apply isPrefix_trans with E155; [|apply prefix_155_156].
    unfold E155. apply (isPrefix_app_mid E140 [callOf SetEnvProject] [Defer DRestoreProject]). }
  destruct (w LookupEnvUSER) eqn:Hu; [|discriminate].
  destruct (w SetenvUSER); [|discriminate].
  inversion H; subst. unfold E164. rewrite Hp, Hu. apply isPrefix_refl.
Qed.

Lemma returning_shape ret evs :
  returning ret evs ->
  (exists pre, isPrefix pre E164 /\ evs = pre ++ unwind (ranIn evs)
               /\ preludeFailure <> None)
  \/ (exists tail, evs = E312 ++ tail /\ forallb lateEvent tail = true
                   /\ preludeFailure = None).
Proof.
  unfold returning, returnPoint. intros (He & _ & _).
  destruct preludeFailure as [[base r]|] eqn:Hp.
  - left. exists base. repeat split; auto; [|discriminate].
    exact (preludeFailure_prefix _ _ Hp).
  - right. simpl in He. eexists. split.
    + rewrite <- !app_assoc in He. exact He.
    + rewrite !forallb_app, lateEvent_map_Recv, lateEvent_afterAggregate, lateEvent_unwind.
      auto.
Qed.

(** Where [handle] is: still setting the tasks up, returned before that, or
    past the set-up. *)
Lemma main_shape s :
  mainInv s ->
  (isPrefix (eventsOf Main (log s)) E239 /\ unwinding (pcMain s) = false)
  \/ (exists pre, isPrefix pre E164
                  /\ eventsOf Main (log s) = pre ++ unwind (ranIn (eventsOf Main (log s)))
                  /\ preludeFailure <> None /\ unwinding (pcMain s) = true)
  \/ (exists tail, eventsOf Main (log s) = E312 ++ tail
                   /\ forallb lateEvent tail = true /\ preludeFailure = None).
Proof.
  intros HM. unfold mainInv in HM. cbv zeta in HM.
  destruct (pcMain s) eqn:Hpc;
    repeat match goal with H : _ /\ _ |- _ => destruct H end.
  all: try (left; split; [|reflexivity];
            match goal with H : eventsOf Main _ = _ |- _ => rewrite H end;
            first [ exists E239; reflexivity | pfx ]).
  all: try (right; right;
            match goal with
            | H : eventsOf Main _ = E312 ++ ?t |- _ => exists t; split; [exact H|]
            end;
            rewrite ?forallb_app, ?lateEvent_map_Recv, ?lateEvent_installEvents; auto; fail).
  all: destruct (returning_shape _ _ HM) as [(pre & H1 & H2 & H3)|Hc];
    [right; left; exists pre; auto | right; right; exact Hc].
Qed.

(** *** Selections in the runs of the goroutines *)

Lemma pickE_none {A} (g : Event -> option A) l :
  (forall e, In e l -> g e = None) -> pickE g l = [].
Proof.
  induction l as [|e l IH]; [reflexivity|]. intros H. unfold pickE in *. simpl.
  rewrite (H e (or_introl eq_refl)), IH; [reflexivity|].
  intros e' He'. apply H. now right.
Qed.

Lemma pickE_late {A} (g : Event -> option A) l :
  (forall e, lateEvent e = true -> g e = None) ->
  forallb lateEvent l = true -> pickE g l = [].
Proof.
  intros Hg Hl. apply pickE_none. intros e He.
  apply Hg. rewrite forallb_forall in Hl. now apply Hl.
Qed.

Lemma pickE_prefix {A} (g : Event -> option A) a b :
  isPrefix a b -> isPrefix (pickE g a) (pickE g b).
Proof. intros [r ->]. rewrite pickE_app. apply isPrefix_app. Qed.

Lemma isPrefix_nil {A} (a : list A) : isPrefix a [] -> a = [].
Proof. intros [r H]. symmetry in H. now apply app_eq_nil in H. Qed.

Lemma started_prefix t a b : isPrefix a b -> started t b = false -> started t a = false.
Proof.
  intros [r ->]. rewrite started_app. intros H. now apply orb_false_iff in H.
Qed.

Lemma started_late t l : forallb lateEvent l = true -> started t l = false.
Proof.
  induction l as [|e l IH]; [reflexivity|]. simpl. intros H.
  apply andb_true_iff in H as [He Hl]. rewrite (IH Hl).
  destruct e, t; try discriminate; try reflexivity;
    match goal with x : Task |- _ => destruct x end; discriminate.
Qed.

Lemma build_pick {A} (g : Event -> option A) s :
  buildInv s ->
  pickE g (eventsOf (Bg ClusterBuild) (log s)) ++ pickE g (buildRest (pcBuild s))
  = pickE g buildRun.
Proof. unfold buildInv. intros <-. now rewrite pickE_app. Qed.

Lemma test_pick {A} (g : Event -> option A) s :
  testInv s ->
  pickE g (eventsOf (Bg TestBuild) (log s)) ++ pickE g (testRest (pcTest s))
  = pickE g testRun.
Proof. unfold testInv. intros <-. now rewrite pickE_app. Qed.

Lemma push_pick {A} (g : Event -> option A) s :
  pushInv s ->
  pickE g (eventsOf (Bg ImagePush) (log s)) ++ pickE g (pushRest (pcPush s))
  = pickE g pushRun.
Proof. unfold pushInv. intros <-. now rewrite pickE_app. Qed.

Lemma up_pick {A} (g : Event -> option A) s :
  upInv s ->
  eventsOf (Bg ClusterUp) (log s) = [] \/
  exists b, pickE g (eventsOf (Bg ClusterUp) (log s)) ++ pickE g (upRest (pcUp s))
            = pickE g (upRun b).
Proof.
  unfold upInv. destruct (pcUp s); auto; intros [b Hb]; right; exists b;
    now rewrite <- Hb, pickE_app.
Qed.

(** A goroutine that has not been started has done nothing. *)
Lemma idle_no_events s t :
  Inv s -> idle t s = true -> eventsOf (Bg t) (log s) = [].
Proof.
  intros [_ _ HB HT HP HU _ _ _] Hi. destruct t; simpl in Hi.
  - unfold buildInv in HB. destruct (pcBuild s); try discriminate.
    apply (app_inv_tail buildRun). exact HB.
  - unfold testInv in HT. destruct (pcTest s); try discriminate.
    apply (app_inv_tail testRun). exact HT.
  - unfold pushInv in HP. destruct (pcPush s); try discriminate.
    apply (app_inv_tail pushRun). exact HP.
  - unfold upInv in HU. destruct (pcUp s); try discriminate. exact HU.
Qed.

Ltac unfold_E :=
  unfold E312, E239, E223, E202, E177, E166, E164, E156, E155, E140, E135, E133, E124,
    callOf.

Ltac unfold_runs :=
  unfold buildRun, buildFrom185, testRun, testFrom210, pushRun, upRun, upFrom249,
    upFrom252, upFrom261, upFrom262, upFrom270, upFrom276, upFrom282, outcome.

(** *** The dependency gate *)

Lemma depSentIn_E312 : depSentIn E312 = if needClusterBuild then [] else [true].
Proof. unfold_E. break_goal; reflexivity. Qed.

Lemma depRecvdIn_E312 : depRecvdIn E312 = [].
Proof. unfold_E. break_goal; reflexivity. Qed.

Lemma started_build_E312 : started ClusterBuild E312 = needClusterBuild.
Proof. unfold_E. break_goal; reflexivity. Qed.

Lemma depSentIn_late l : forallb lateEvent l = true -> depSentIn l = [].
Proof. apply pickE_late. intros [] H; try reflexivity; discriminate. Qed.

Lemma depRecvdIn_late l : forallb lateEvent l = true -> depRecvdIn l = [].
Proof. apply pickE_late. intros [] H; try reflexivity; discriminate. Qed.

Lemma depSentIn_test : depSentIn testRun = [].
Proof. unfold_runs. break_goal; reflexivity. Qed.
Lemma depSentIn_push : depSentIn pushRun = [].
Proof. unfold_runs. break_goal; reflexivity. Qed.
Lemma depSentIn_up b : depSentIn (upRun b) = [].
Proof. unfold_runs. break_goal; reflexivity. Qed.
Lemma depRecvdIn_build : depRecvdIn buildRun = [].
Proof. unfold_runs. break_goal; reflexivity. Qed.
Lemma depRecvdIn_test : depRecvdIn testRun = [].
Proof. unfold_runs. break_goal; reflexivity. Qed.
Lemma depRecvdIn_push : depRecvdIn pushRun = [].
Proof. unfold_runs. break_goal; reflexivity. Qed.

(** The bring-up goroutine exists: [handle] is past the set-up. *)
Lemma main_after_go_up s :
  Inv s -> idle ClusterUp s = false ->
  exists tail, eventsOf Main (log s) = E312 ++ tail /\ forallb lateEvent tail = true
               /\ preludeFailure = None.
Proof.
  intros HI Hi. pose proof (inv_spawn _ HI ClusterUp) as Hs. rewrite Hi in Hs.
  apply (f_equal negb) in Hs. rewrite negb_involutive in Hs. simpl in Hs.
  destruct (main_shape _ (inv_main _ HI)) as [[Hp _]|[(pre & Hp & He & _)|Hc]];
    [exfalso | exfalso | exact Hc].
  - rewrite (started_prefix _ _ _ Hp started_E239) in Hs. discriminate.
  - rewrite He, started_app, (started_late _ _ (lateEvent_unwind _)), orb_false_r in Hs.
    rewrite (started_prefix _ _ _ (isPrefix_trans _ _ _ Hp prefix_164_239) started_E239)
      in Hs. discriminate.
Qed.

Lemma sameThread_eq t u : sameThread t u = true -> t = u.
Proof. destruct t as [|[]], u as [|[]]; try discriminate; reflexivity. Qed.

(** A selection over the whole log whose events all come from one
    goroutine. *)
Lemma pick_only {A} (g : Event -> option A) t0 l :
  (forall t, sameThread t t0 = false -> pickE g (eventsOf t l) = []) ->
  pick (fun te => g (snd te)) l = pickE g (eventsOf t0 l).
Proof.
  induction l as [|[t e] l IH]; [reflexivity|]. intros H.
  assert (Hl : forall u, sameThread u t0 = false -> pickE g (eventsOf u l) = []).
  { intros u Hu. specialize (H u Hu). rewrite eventsOf_cons, pickE_app in H.
    now apply app_eq_nil in H. }
  change (pick (fun te => g (snd te)) ((t, e) :: l))
    with ((match g e with Some a => [a] | None => [] end)
          ++ pick (fun te => g (snd te)) l).
  rewrite (IH Hl), eventsOf_cons, pickE_app. f_equal.
  destruct (sameThread t t0) eqn:Ht.
  - unfold pickE. simpl. destruct (g e); reflexivity.
  - specialize (H t Ht). rewrite eventsOf_cons, sameThread_refl, pickE_app in H.
    apply app_eq_nil in H as [H _]. unfold pickE in H. simpl in H.
    rewrite app_nil_r in H. rewrite H. reflexivity.
Qed.

Lemma build_pick_nil {A} (g : Event -> option A) s :
  buildInv s -> pickE g buildRun = [] -> pickE g (eventsOf (Bg ClusterBuild) (log s)) = [].
Proof. intros HB H. pose proof (build_pick g s HB) as E. rewrite H in E.
  now apply app_eq_nil in E. Qed.

Lemma test_pick_nil {A} (g : Event -> option A) s :
  testInv s -> pickE g testRun = [] -> pickE g (eventsOf (Bg TestBuild) (log s)) = [].
Proof. intros HB H. pose proof (test_pick g s HB) as E. rewrite H in E.
  now apply app_eq_nil in E. Qed.

Lemma push_pick_nil {A} (g : Event -> option A) s :
  pushInv s -> pickE g pushRun = [] -> pickE g (eventsOf (Bg ImagePush) (log s)) = [].
Proof. intros HB H. pose proof (push_pick g s HB) as E. rewrite H in E.
  now apply app_eq_nil in E. Qed.

Lemma up_pick_nil {A} (g : Event -> option A) s :
  upInv s -> (forall b, pickE g (upRun b) = []) ->
  pickE g (eventsOf (Bg ClusterUp) (log s)) = [].
Proof.
  intros HU H. destruct (up_pick g s HU) as [E|[b E]]; [now rewrite E|].
  rewrite H in E. now apply app_eq_nil in E.
Qed.

(** What [handle] has done, seen through a selection that ignores the late
    events, is the beginning of what the set-up does. *)
Lemma main_pick_prefix {A} (g : Event -> option A) s :
  (forall e, lateEvent e = true -> g e = None) -> mainInv s ->
  isPrefix (pickE g (eventsOf Main (log s))) (pickE g E312).
Proof.
  intros Hg HM.
  destruct (main_shape _ HM) as [[Hp _]|[(pre & Hp & He & _)|(tail & He & Hl & _)]].
  - apply pickE_prefix. exact (isPrefix_trans _ _ _ Hp prefix_239_312).
  - rewrite He, pickE_app, (pickE_late g _ Hg (lateEvent_unwind _)), app_nil_r.
    apply pickE_prefix.
    exact (isPrefix_trans _ _ _ Hp (isPrefix_trans _ _ _ prefix_164_239 prefix_239_312)).
  - rewrite He, pickE_app, (pickE_late g _ Hg Hl), app_nil_r. apply isPrefix_refl.
Qed.

Lemma main_pick_nil {A} (g : Event -> option A) s :
  (forall e, lateEvent e = true -> g e = None) -> pickE g E312 = [] -> mainInv s ->
  pickE g (eventsOf Main (log s)) = [].
Proof.
  intros Hg He HM. pose proof (main_pick_prefix g s Hg HM) as Hp.
  rewrite He in Hp. exact (isPrefix_nil _ Hp).
Qed.

Lemma late_no_dep e :
  lateEvent e = true ->
  match e with DepSend b => Some b | _ => None end = None /\
  match e with DepRecv b => Some b | _ => None end = None.
Proof. destruct e; try discriminate; auto. Qed.

(** Only the bring-up goroutine reads the gate. *)
Lemma depRecvd_up s :
  Inv s -> depRecvd (log s) = depRecvdIn (eventsOf (Bg ClusterUp) (log s)).
Proof.
  intros HI.
  apply (pick_only (fun e => match e with DepRecv b => Some b | _ => None end)
           (Bg ClusterUp)).
  intros [|[]] Ht; try discriminate.
  - apply main_pick_nil; [intros e He; apply (late_no_dep e He)
                         | apply depRecvdIn_E312 | apply HI].
  - apply build_pick_nil; [apply HI | apply depRecvdIn_build].
  - apply test_pick_nil; [apply HI | apply depRecvdIn_test].
  - apply push_pick_nil; [apply HI | apply depRecvdIn_push].
Qed.

(** No build is needed: the cluster-build goroutine is never started. *)
Lemma no_build_goroutine s :
  Inv s -> needClusterBuild = false ->
  idle ClusterBuild s = true /\ eventsOf (Bg ClusterBuild) (log s) = [].
Proof.
  intros HI Hn.
  assert (Hi : idle ClusterBuild s = true).
  { rewrite (inv_spawn _ HI ClusterBuild). apply negb_true_iff.
    pose proof (main_pick_prefix
                  (fun e => match e with Go ClusterBuild => Some tt | _ => None end) s) as Hp.
    destruct (started ClusterBuild (eventsOf Main (log s))) eqn:Hs; [exfalso|reflexivity].
    assert (Hnil : pickE (fun e => match e with Go ClusterBuild => Some tt | _ => None end)
                     E312 = []).
    { unfold_E. rewrite Hn. break_goal; reflexivity. }
    rewrite Hnil in Hp.
    assert (Hg : forall e, lateEvent e = true ->
                 match e with Go ClusterBuild => Some tt | _ => None end = None)
      by (intros []; try discriminate; reflexivity).
    pose proof (isPrefix_nil _ (Hp Hg (inv_main _ HI))) as Hx.
    unfold started in Hs. apply existsb_exists in Hs as (e & He & Hq).
    destruct e; try discriminate. destruct t; try discriminate.
    assert (Hin : In tt (pickE (fun e => match e with Go ClusterBuild => Some tt
                                               | _ => None end)
                           (eventsOf Main (log s)))).
    { unfold pickE. apply in_flat_map. exists (Go ClusterBuild). split; [exact He|now left]. }
    rewrite Hx in Hin. exact Hin. }
  split; [exact Hi | exact (idle_no_events _ _ HI Hi)].
Qed.

(** No build is needed: only [handle] writes the gate. *)
Lemma depSent_main s :
  Inv s -> needClusterBuild = false ->
  depSent (log s) = depSentIn (eventsOf Main (log s)).
Proof.
  intros HI Hn.
  apply (pick_only (fun e => match e with DepSend b => Some b | _ => None end) Main).
  intros [|[]] Ht; try discriminate.
  - destruct (no_build_goroutine _ HI Hn) as [_ E]. now rewrite E.
  - apply test_pick_nil; [apply HI | apply depSentIn_test].
  - apply push_pick_nil; [apply HI | apply depSentIn_push].
  - apply up_pick_nil; [apply HI | apply depSentIn_up].
Qed.

Lemma gate_at_241 s :
  reachable s -> needClusterBuild = false -> pcUp s = U241 ->
  k8sDependencyChan s = [true].
Proof.
  intros Hr Hn Hpc. pose proof (reachable_Inv _ Hr) as HI.
  assert (Hi : idle ClusterUp s = false) by (simpl; now rewrite Hpc).
  destruct (main_after_go_up _ HI Hi) as (tail & He & Hl & _).
  pose proof (inv_dep _ HI) as HD. unfold depInv in HD.
  rewrite (depSent_main _ HI Hn), (depRecvd_up _ HI), He in HD.
  unfold depSentIn in HD at 1. rewrite pickE_app in HD.
  fold depSentIn in HD. rewrite depSentIn_E312, Hn, (depSentIn_late _ Hl) in HD.
  pose proof (inv_up _ HI) as HU. unfold upInv in HU. rewrite Hpc in HU.
  rewrite HU in HD. simpl in HD. now symmetry.
Qed.

Lemma depSentIn_build :
  depSentIn buildRun
  = [match w DownloadK8sSource, w BuildK8s with
     | None, None => true
     | _, _ => false
     end].
Proof. unfold_runs. break_goal; reflexivity. Qed.

Lemma depSentIn_main_none s :
  mainInv s -> needClusterBuild = true -> depSentIn (eventsOf Main (log s)) = [].
Proof.
  intros HM Hn. apply main_pick_nil; [intros e He; apply (late_no_dep e He)| |exact HM].
  fold depSentIn. now rewrite depSentIn_E312, Hn.
Qed.

(** A build is needed: only the cluster-build goroutine writes the gate. *)
Lemma depSent_build s :
  Inv s -> needClusterBuild = true ->
  depSent (log s) = depSentIn (eventsOf (Bg ClusterBuild) (log s)).
Proof.
  intros HI Hn.
  apply (pick_only (fun e => match e with DepSend b => Some b | _ => None end)
           (Bg ClusterBuild)).
  intros [|[]] Ht; try discriminate.
  - exact (depSentIn_main_none _ (inv_main _ HI) Hn).
  - apply test_pick_nil; [apply HI | apply depSentIn_test].
  - apply push_pick_nil; [apply HI | apply depSentIn_push].
  - apply up_pick_nil; [apply HI | apply depSentIn_up].
Qed.

Lemma isPrefix_length {A} (a b : list A) : isPrefix a b -> List.length a <= List.length b.
Proof. intros [r ->]. rewrite length_app. lia. Qed.

(** What has been written to the gate is the beginning of the one value
    that is ever written to it. *)
Lemma depSent_prefix s :
  Inv s ->
  isPrefix (depSent (log s))
    [if needClusterBuild
     then match w DownloadK8sSource, w BuildK8s with
          | None, None => true
          | _, _ => false
          end
     else true].
Proof.
  intros HI. destruct needClusterBuild eqn:Hn.
  - rewrite (depSent_build _ HI Hn), <- depSentIn_build.
    pose proof (build_pick (fun e => match e with DepSend b => Some b | _ => None end)
                  s (inv_build _ HI)) as E.
    unfold depSentIn. rewrite <- E. apply isPrefix_app.
  - rewrite (depSent_main _ HI Hn).
    pose proof (main_pick_prefix
                  (fun e => match e with DepSend b => Some b | _ => None end) s
                  (fun e He => proj1 (late_no_dep e He)) (inv_main _ HI)) as Hp.
    fold depSentIn in Hp. now rewrite depSentIn_E312, Hn in Hp.
Qed.

Lemma depRecvdIn_upRest pc : depRecvdIn (upRest pc) = [].
Proof. destruct pc; simpl; unfold_runs; break_goal; reflexivity. Qed.

Lemma depRecvdIn_upRun b : depRecvdIn (upRun b) = [b].
Proof. unfold_runs. break_goal; reflexivity. Qed.

(** Past line 241, the bring-up goroutine has read one value, and its run is
    the one for that value. *)
Lemma up_has_read s :
  Inv s -> pcUp s <> UIdle -> pcUp s <> U241 ->
  exists b, depRecvd (log s) = [b] /\
            eventsOf (Bg ClusterUp) (log s) ++ upRest (pcUp s) = upRun b.
Proof.
  intros HI H1 H2. pose proof (inv_up _ HI) as HU. unfold upInv in HU.
  assert (Hb : exists b, eventsOf (Bg ClusterUp) (log s) ++ upRest (pcUp s) = upRun b)
    by (destruct (pcUp s); try congruence; exact HU).
  destruct Hb as [b Hb]. exists b. split; [|exact Hb].
  rewrite (depRecvd_up _ HI).
  assert (E : depRecvdIn (eventsOf (Bg ClusterUp) (log s) ++ upRest (pcUp s)) = [b])
    by (rewrite Hb; apply depRecvdIn_upRun).
  unfold depRecvdIn in E. rewrite pickE_app in E. fold depRecvdIn in E.
  now rewrite depRecvdIn_upRest, app_nil_r in E.
Qed.

(** The value the bring-up goroutine has read is the one that was written. *)
Lemma up_read_value s b :
  Inv s -> depRecvd (log s) = [b] ->
  b = (if needClusterBuild
       then match w DownloadK8sSource, w BuildK8s with
            | None, None => true
            | _, _ => false
            end
       else true)
  /\ depSent (log s) = [b].
Proof.
  intros HI Hb. pose proof (inv_dep _ HI) as HD. unfold depInv in HD.
  destruct (depSent_prefix _ HI) as [r Hr]. rewrite Hb in HD.
  rewrite HD in Hr. simpl in Hr. injection Hr as Hx Hy.
  split; [now symmetry|]. rewrite HD. symmetry in Hy.
  apply app_eq_nil in Hy as [Hy _]. rewrite Hy. reflexivity.
Qed.

Lemma upAfterWrite_app b l1 l2 :
  upAfterWrite b (l1 ++ l2)
  = upAfterWrite b l1
    && upAfterWrite (b || negb (match depSent l1 with [] => true | _ => false end)) l2.
Proof.
  revert b. induction l1 as [|[t e] l1 IH]; intros b; simpl.
  - now rewrite orb_false_r.
  - destruct e; rewrite ?IH; simpl; rewrite <- ?andb_assoc; try reflexivity.
    unfold depSent, pick. simpl. now rewrite orb_true_r.
Qed.

Lemma upAfterWrite_written evs t :
  upAfterWrite true (map (pair t) evs) = true.
Proof.
  induction evs as [|e evs IH]; [reflexivity|]. simpl. rewrite IH.
  destruct e; try reflexivity; destruct t as [|[]]; reflexivity.
Qed.

Lemma upAfterWrite_other evs t b :
  sameThread t (Bg ClusterUp) = false -> upAfterWrite b (map (pair t) evs) = true.
Proof.
  intros Ht. revert b. induction evs as [|e evs IH]; intros b; [reflexivity|]. simpl.
  rewrite !IH. destruct e; try reflexivity; destruct t as [|[]]; try reflexivity;
    discriminate.
Qed.

(** When the bring-up goroutine can take a step, the gate has been written. *)
Lemma up_step_written s s' :
  Inv s -> stepUp s = Some s' -> depSent (log s) <> [].
Proof.
  intros HI H. pose proof (inv_dep _ HI) as HD. unfold depInv in HD.
  destruct (pcUp s) eqn:Hpc; try (unfold stepUp in H; rewrite Hpc in H; discriminate).
  all: try (destruct (up_has_read s HI) as (b & Hb & _); try congruence;
            rewrite HD, Hb; discriminate).
  unfold stepUp in H. rewrite Hpc in H.
  destruct (k8sDependencyChan s); [discriminate|].
  rewrite HD. intros Hx. now apply app_eq_nil in Hx as [_ Hx].
Qed.

Lemma upAfterWrite_step s s' t :
  Inv s -> upAfterWrite false (log s) = true -> step t s = Some s' ->
  upAfterWrite false (log s') = true.
Proof.
  intros HI HA H. destruct (step_log _ _ _ H) as [evs He].
  rewrite He, upAfterWrite_app, HA. simpl.
  destruct (sameThread t (Bg ClusterUp)) eqn:Ht.
  - apply sameThread_eq in Ht. subst t. simpl in H.
    pose proof (up_step_written _ _ HI H) as Hw.
    destruct (depSent (log s)); [congruence|]. apply upAfterWrite_written.
  - now apply upAfterWrite_other.
Qed.

Lemma upAfterWrite_reachable s : reachable s -> upAfterWrite false (log s) = true.
Proof.
  induction 1 as [|s s' t Hr IH H]; [reflexivity|].
  exact (upAfterWrite_step _ _ _ (reachable_Inv _ Hr) IH H).
Qed.

(** *** Counting the outcomes *)

Lemma pick_length {A} (g : Event -> option A) l :
  List.length (pick (fun te => g (snd te)) l)
  = List.length (pickE g (eventsOf Main l))
    + List.length (pickE g (eventsOf (Bg ClusterBuild) l))
    + List.length (pickE g (eventsOf (Bg TestBuild) l))
    + List.length (pickE g (eventsOf (Bg ImagePush) l))
    + List.length (pickE g (eventsOf (Bg ClusterUp) l)).
Proof.
  induction l as [|[t e] l IH]; [reflexivity|].
  change (pick (fun te => g (snd te)) ((t, e) :: l))
    with ((match g e with Some a => [a] | None => [] end)
          ++ pick (fun te => g (snd te)) l).
  rewrite !eventsOf_cons, !pickE_app, !length_app, IH.
  destruct t as [|[]]; simpl; unfold pickE; simpl; destruct (g e); simpl; lia.
Qed.

Lemma sendsIn_build : sendsIn buildRun = [buildOutcome].
Proof. unfold buildOutcome. unfold_runs. break_goal; reflexivity. Qed.

Lemma sendsIn_test : sendsIn testRun = [testOutcome].
Proof. unfold testOutcome. unfold_runs. break_goal; reflexivity. Qed.

Lemma sendsIn_push : sendsIn pushRun = [w PushImage].
Proof. reflexivity. Qed.

Lemma sendsIn_up_false : sendsIn (upRun false) = [None].
Proof. reflexivity. Qed.

Lemma sendsIn_E312 :
  sendsIn E312
  = (if needClusterBuild then [] else [None]) ++ (if needTestBuild then [] else [None])
    ++ (if doDriverBuild f then [] else [None])
    ++ (if bringupCluster f then [] else [None]).
Proof. unfold_E. break_goal; reflexivity. Qed.

Lemma sendsIn_late l : forallb lateEvent l = true -> sendsIn l = [].
Proof. apply pickE_late. intros [] H; try reflexivity; discriminate. Qed.

Lemma started_E312 t :
  started t E312
  = match t with
    | ClusterBuild => needClusterBuild
    | TestBuild => needTestBuild
    | ImagePush => doDriverBuild f
    | ClusterUp => bringupCluster f
    end.
Proof. destruct t; unfold_E; break_goal; reflexivity. Qed.

(** Past the set-up, the goroutines that exist are those the flags ask
    for. *)
Lemma idle_after_setup s tail t :
  Inv s -> eventsOf Main (log s) = E312 ++ tail -> forallb lateEvent tail = true ->
  idle t s = negb match t with
                  | ClusterBuild => needClusterBuild
                  | TestBuild => needTestBuild
                  | ImagePush => doDriverBuild f
                  | ClusterUp => bringupCluster f
                  end.
Proof.
  intros HI He Hl. rewrite (inv_spawn _ HI t), He, started_app, started_E312,
    (started_late _ _ Hl), orb_false_r. reflexivity.
Qed.

Lemma singleton_prefix_length {A} (a : list A) x :
  isPrefix a [x] -> List.length a = 1 -> a = [x].
Proof.
  intros [r Hr] Hl. destruct a as [|y [|z a]]; try discriminate.
  simpl in Hr. now injection Hr as <- _.
Qed.

Lemma sendsIn_build_prefix s :
  buildInv s -> isPrefix (sendsIn (eventsOf (Bg ClusterBuild) (log s))) [buildOutcome].
Proof.
  intros HB. rewrite <- sendsIn_build. unfold sendsIn.
  rewrite <- (build_pick _ s HB). apply isPrefix_app.
Qed.

Lemma sendsIn_test_prefix s :
  testInv s -> isPrefix (sendsIn (eventsOf (Bg TestBuild) (log s))) [testOutcome].
Proof.
  intros HB. rewrite <- sendsIn_test. unfold sendsIn.
  rewrite <- (test_pick _ s HB). apply isPrefix_app.
Qed.

Lemma sendsIn_push_prefix s :
  pushInv s -> isPrefix (sendsIn (eventsOf (Bg ImagePush) (log s))) [w PushImage].
Proof.
  intros HB. rewrite <- sendsIn_push. unfold sendsIn.
  rewrite <- (push_pick _ s HB). apply isPrefix_app.
Qed.

Lemma pick_of_thread {A} (g : Event -> option A) t l x :
  In x (pickE g (eventsOf t l)) -> In x (pick (fun te => g (snd te)) l).
Proof.
  induction l as [|[u e] l IH]; [intros []|].
  change (pick (fun te => g (snd te)) ((u, e) :: l))
    with ((match g e with Some a => [a] | None => [] end)
          ++ pick (fun te => g (snd te)) l).
  rewrite eventsOf_cons, pickE_app. intros H. apply in_app_or in H as [H|H];
    apply in_or_app; [left | right; exact (IH H)].
  destruct (sameThread u t); [|destruct H].
  unfold pickE in H. simpl in H. now rewrite app_nil_r in H.
Qed.

(** *** A failed cluster build (lines 179-190 and 241-244) *)

Lemma build_failed_gate :
  buildOutcome <> None ->
  match w DownloadK8sSource, w BuildK8s with
  | None, None => true
  | _, _ => false
  end = false.
Proof.
  unfold buildOutcome, outcome. destruct (w DownloadK8sSource), (w BuildK8s);
    try reflexivity. congruence.
Qed.

(** The build failed: the bring-up goroutine does nothing but read the gate
    and report success. *)
Lemma up_skips s :
  Inv s -> needClusterBuild = true -> buildOutcome <> None ->
  isPrefix (eventsOf (Bg ClusterUp) (log s)) (upRun false).
Proof.
  intros HI Hn Hf.
  destruct (pcUp s) eqn:Hpc.
  1-2: pose proof (inv_up _ HI) as HU; unfold upInv in HU; rewrite Hpc in HU;
       rewrite HU; now exists (upRun false).
  all: destruct (up_has_read s HI) as (b & Hb & He); try congruence;
       destruct (up_read_value s b HI Hb) as [Hv _];
       rewrite Hn, (build_failed_gate Hf) in Hv; subst b;
       rewrite <- He; apply isPrefix_app.
Qed.

Lemma slot_test s tail :
  Inv s -> eventsOf Main (log s) = E312 ++ tail -> forallb lateEvent tail = true ->
  List.length (if needTestBuild then [] else [@None string])
  + List.length (sendsIn (eventsOf (Bg TestBuild) (log s))) <= 1.
Proof.
  intros HI He Hl. pose proof (idle_after_setup s tail TestBuild HI He Hl) as Hi.
  destruct needTestBuild.
  - pose proof (isPrefix_length _ _ (sendsIn_test_prefix s (inv_test _ HI))). simpl in *. lia.
  - rewrite (idle_no_events _ _ HI Hi). simpl. lia.
Qed.

Lemma slot_push s tail :
  Inv s -> eventsOf Main (log s) = E312 ++ tail -> forallb lateEvent tail = true ->
  List.length (if doDriverBuild f then [] else [@None string])
  + List.length (sendsIn (eventsOf (Bg ImagePush) (log s))) <= 1.
Proof.
  intros HI He Hl. pose proof (idle_after_setup s tail ImagePush HI He Hl) as Hi.
  destruct (doDriverBuild f).
  - pose proof (isPrefix_length _ _ (sendsIn_push_prefix s (inv_push _ HI))). simpl in *. lia.
  - rewrite (idle_no_events _ _ HI Hi). simpl. lia.
Qed.

Lemma slot_up_skipped s tail :
  Inv s -> needClusterBuild = true -> buildOutcome <> None ->
  eventsOf Main (log s) = E312 ++ tail -> forallb lateEvent tail = true ->
  List.length (if bringupCluster f then [] else [@None string])
  + List.length (sendsIn (eventsOf (Bg ClusterUp) (log s))) <= 1.
Proof.
  intros HI Hn Hf He Hl. pose proof (idle_after_setup s tail ClusterUp HI He Hl) as Hi.
  destruct (bringupCluster f).
  - pose proof (isPrefix_length _ _
                  (pickE_prefix (fun e => match e with Send _ x => Some x | _ => None end)
                     _ _ (up_skips s HI Hn Hf))) as Hp.
    fold sendsIn in Hp. rewrite sendsIn_up_false in Hp. simpl in *. lia.
  - rewrite (idle_no_events _ _ HI Hi). simpl. lia.
Qed.

Lemma arrivals_length s :
  List.length (arrivals s)
  = List.length (sendsIn (eventsOf Main (log s)))
    + List.length (sendsIn (eventsOf (Bg ClusterBuild) (log s)))
    + List.length (sendsIn (eventsOf (Bg TestBuild) (log s)))
    + List.length (sendsIn (eventsOf (Bg ImagePush) (log s)))
    + List.length (sendsIn (eventsOf (Bg ClusterUp) (log s))).
Proof.
  exact (pick_length (fun e => match e with Send _ x => Some x | _ => None end) (log s)).
Qed.

Lemma sendsIn_main_after s tail :
  eventsOf Main (log s) = E312 ++ tail -> forallb lateEvent tail = true ->
  sendsIn (eventsOf Main (log s)) = sendsIn E312.
Proof.
  intros He Hl. rewrite He. unfold sendsIn at 1. rewrite pickE_app. fold sendsIn.
  now rewrite (sendsIn_late _ Hl), app_nil_r.
Qed.

Lemma sendsIn_E312_none x : In x (sendsIn E312) -> x = None.
Proof.
  rewrite sendsIn_E312. break_goal; simpl; intuition.
Qed.

(** The build failed: when [handle] has its 4 outcomes, nothing is left in
    the channel, the failure of the build is among them, and the others come
    from the test build, the image push, or are successes. *)
Lemma arrivals_after_failed_build s firstErr :
  Inv s -> needClusterBuild = true -> buildOutcome <> None ->
  pcMain s = M319 firstErr ->
  received s = arrivals s /\ In buildOutcome (arrivals s) /\
  forall x, In x (arrivals s) ->
            x = None \/ x = buildOutcome
            \/ (needTestBuild = true /\ x = testOutcome)
            \/ (doDriverBuild f = true /\ x = w PushImage).
Proof.
  intros HI Hn Hf Hpc. pose proof (inv_main _ HI) as HM. unfold mainInv in HM.
  rewrite Hpc in HM. destruct HM as (He & _ & Hl & _).
  assert (Hlate : forallb lateEvent (map Recv (recvsIn (eventsOf Main (log s)))) = true)
    by apply lateEvent_map_Recv.
  pose proof (inv_chan _ HI) as HC. unfold chanInv in HC.
  pose proof (arrivals_length s) as HA.
  rewrite (sendsIn_main_after s _ He Hlate), sendsIn_E312, !length_app, Hn in HA.
  pose proof (slot_test s _ HI He Hlate) as H1.
  pose proof (slot_push s _ HI He Hlate) as H2.
  pose proof (slot_up_skipped s _ HI Hn Hf He Hlate) as H3.
  pose proof (isPrefix_length _ _ (sendsIn_build_prefix s (inv_build _ HI))) as H4.
  assert (H5 : List.length (arrivals s) = 4 + List.length (errChan s))
    by (rewrite HC, length_app; unfold received; lia).
  simpl in HA, H4.
  assert (Hb : List.length (sendsIn (eventsOf (Bg ClusterBuild) (log s))) = 1) by lia.
  assert (Hc : errChan s = []) by (destruct (errChan s); [reflexivity | simpl in H5; lia]).
  rewrite Hc, app_nil_r in HC.
  pose proof (singleton_prefix_length _ _ (sendsIn_build_prefix s (inv_build _ HI)) Hb) as Hs.
  repeat split; [now symmetry| |].
  - apply (pick_of_thread (fun e => match e with Send _ x => Some x | _ => None end)
             (Bg ClusterBuild)).
    fold sendsIn. rewrite Hs. now left.
  - intros x Hx.
    apply (pick_in_thread (fun e => match e with Send _ x => Some x | _ => None end)) in Hx.
    destruct Hx as [[|[]] Hx]; fold sendsIn in Hx.
    + left. rewrite (sendsIn_main_after s _ He Hlate) in Hx. exact (sendsIn_E312_none _ Hx).
    + right; left. rewrite Hs in Hx. destruct Hx as [<-|[]]. reflexivity.
    + right; right; left.
      destruct needTestBuild eqn:Ht.
      * split; [reflexivity|].
        destruct (sendsIn_test_prefix s (inv_test _ HI)) as [r Hr].
        destruct (sendsIn (eventsOf (Bg TestBuild) (log s))) as [|y l]; [destruct Hx|].
        injection Hr as -> Hr. symmetry in Hr. apply app_eq_nil in Hr as [-> _].
        destruct Hx as [<-|[]]. reflexivity.
      * pose proof (idle_after_setup s _ TestBuild HI He Hlate) as Hi. rewrite Ht in Hi.
        rewrite (idle_no_events _ _ HI Hi) in Hx. destruct Hx.
    + right; right; right.
      destruct (doDriverBuild f) eqn:Ht.
      * split; [reflexivity|].
        destruct (sendsIn_push_prefix s (inv_push _ HI)) as [r Hr].
        destruct (sendsIn (eventsOf (Bg ImagePush) (log s))) as [|y l]; [destruct Hx|].
        injection Hr as -> Hr. symmetry in Hr. apply app_eq_nil in Hr as [-> _].
        destruct Hx as [<-|[]]. reflexivity.
      * pose proof (idle_after_setup s _ ImagePush HI He Hlate) as Hi. rewrite Ht in Hi.
        rewrite (idle_no_events _ _ HI Hi) in Hx. destruct Hx.
    + left.
      pose proof (pickE_prefix (fun e => match e with Send _ x => Some x | _ => None end)
                    _ _ (up_skips s HI Hn Hf)) as [r Hr].
      fold sendsIn in Hr. rewrite sendsIn_up_false in Hr.
      destruct (sendsIn (eventsOf (Bg ClusterUp) (log s))) as [|y l]; [destruct Hx|].
      injection Hr as -> Hr. symmetry in Hr. apply app_eq_nil in Hr as [-> _].
      destruct Hx as [<-|[]]. reflexivity.
Qed.

Lemma firstFailure_none l : firstFailure l = None -> forall x, In x l -> x = None.
Proof.
  induction l as [|[e|] l IH]; simpl; [intros _ x [] | discriminate |].
  intros H x [<-|Hx]; [reflexivity | exact (IH H x Hx)].
Qed.

Lemma firstFailure_only l (e : error) :
  In e l -> e <> None -> (forall x, In x l -> x = None \/ x = e) -> firstFailure l = e.
Proof.
  induction l as [|[y|] l IH]; simpl; [intros [] | |].
  - intros _ Hn H. destruct (H (Some y) (or_introl eq_refl)) as [Hx|Hx];
      [discriminate | exact Hx].
  - intros [Hi|Hi] Hn H; [congruence|]. apply IH; auto.
Qed.

Lemma up_done_skipped s :
  Inv s -> needClusterBuild = true -> buildOutcome <> None -> pcUp s = UDone ->
  eventsOf (Bg ClusterUp) (log s) = upRun false.
Proof.
  intros HI Hn Hf Hpc.
  destruct (up_has_read s HI) as (b & Hb & He); try congruence.
  destruct (up_read_value s b HI Hb) as [Hv _].
  rewrite Hn, (build_failed_gate Hf) in Hv. subst b.
  rewrite Hpc in He. simpl in He. now rewrite app_nil_r in He.
Qed.

Lemma aggregate_after_failed_build s firstErr :
  reachable s -> needClusterBuild = true -> buildOutcome <> None ->
  pcMain s = M319 firstErr ->
  firstErr <> None /\
  ((needTestBuild = true -> testOutcome = None) ->
   (doDriverBuild f = true -> w PushImage = None) -> firstErr = buildOutcome).
Proof.
  intros Hr Hn Hf Hpc. pose proof (reachable_Inv _ Hr) as HI.
  destruct (arrivals_after_failed_build s firstErr HI Hn Hf Hpc) as (E & Hin & Hall).
  destruct (aggregate_at_319 s firstErr Hr Hpc) as (_ & _ & Hfe).
  rewrite E in Hfe. split.
  - intros Hx. rewrite Hx in Hfe. symmetry in Hfe.
    exact (Hf (firstFailure_none _ Hfe _ Hin)).
  - intros Ht Hp. rewrite Hfe. apply firstFailure_only; auto.
    intros x Hx. destruct (Hall x Hx) as [H|[H|[[H1 H]|[H1 H]]]]; auto.
    + left. now rewrite H, (Ht H1).
    + left. now rewrite H, (Hp H1).
Qed.

(** *** The gate is written once *)

Lemma build_exists_needed s :
  Inv s -> idle ClusterBuild s = false -> needClusterBuild = true.
Proof.
  intros HI Hi. destruct needClusterBuild eqn:Hn; [reflexivity|].
  destruct (no_build_goroutine s HI Hn) as [Hx _]. congruence.
Qed.

Lemma build_done s :
  Inv s -> pcBuild s = BDone ->
  eventsOf (Bg ClusterBuild) (log s) = buildRun /\ List.length (depSent (log s)) = 1.
Proof.
  intros HI Hpc. pose proof (inv_build _ HI) as HB. unfold buildInv in HB.
  rewrite Hpc in HB. simpl in HB. rewrite app_nil_r in HB. split; [exact HB|].
  assert (Hn : needClusterBuild = true)
    by (apply (build_exists_needed s HI); simpl; now rewrite Hpc).
  now rewrite (depSent_build s HI Hn), HB, depSentIn_build.
Qed.

Lemma depSent_once s : Inv s -> List.length (depSent (log s)) <= 1.
Proof. intros HI. exact (isPrefix_length _ _ (depSent_prefix s HI)). Qed.

Lemma in_eventsOf t e l : In (t, e) l -> In e (eventsOf t l).
Proof.
  induction l as [|[u x] l IH]; [intros []|]. rewrite eventsOf_cons.
  intros [H|H]; apply in_or_app.
  - injection H as -> ->. rewrite sameThread_refl. left. now left.
  - right. exact (IH H).
Qed.

Lemma up_events_after_write s l1 e l2 :
  reachable s -> log s = l1 ++ (Bg ClusterUp, e) :: l2 -> depSent l1 <> [].
Proof.
  intros Hr Hl. pose proof (reachable_Inv _ Hr) as HI.
  pose proof (upAfterWrite_reachable s Hr) as HA.
  rewrite Hl, upAfterWrite_app in HA. apply andb_true_iff in HA as [_ HA].
  assert (Hne : forall b, e <> DepSend b).
  { intros b ->.
    pose proof (up_pick_nil (fun e => match e with DepSend b => Some b | _ => None end)
                  s (inv_up _ HI) depSentIn_up) as Hnil.
    assert (Hin : In b (pickE (fun e => match e with DepSend b => Some b | _ => None end)
                          (eventsOf (Bg ClusterUp) (log s)))).
    { unfold pickE. apply in_flat_map. exists (DepSend b). split; [|now left].
      apply in_eventsOf. rewrite Hl. apply in_or_app. right. now left. }
    rewrite Hnil in Hin. exact Hin. }
  simpl in HA. destruct (depSent l1); [|discriminate].
  destruct e; simpl in HA; try discriminate. exfalso. now apply (Hne b).
Qed.

(** *** One outcome for each slot (lines 171-288) *)

Lemma Task_eq_dec (a b : Task) : {a = b} + {a <> b}.
Proof. decide equality. Defined.

Lemma idle_not_needed s t : Inv s -> needed t = false -> idle t s = true.
Proof.
  intros HI Hn. rewrite (inv_spawn _ HI t). apply negb_true_iff.
  assert (H312 : started t E312 = false) by (rewrite started_E312; exact Hn).
  destruct (main_shape _ (inv_main _ HI)) as [[Hp _]|[(pre & Hp & He & _)|(tail & He & Hl & _)]].
  - exact (started_prefix _ _ _ (isPrefix_trans _ _ _ Hp prefix_239_312) H312).
  - rewrite He, started_app, (started_late _ _ (lateEvent_unwind _)), orb_false_r.
    exact (started_prefix _ _ _
             (isPrefix_trans _ _ _ Hp (isPrefix_trans _ _ _ prefix_164_239 prefix_239_312))
             H312).
  - now rewrite He, started_app, H312, (started_late _ _ Hl).
Qed.

Lemma not_needed_no_events s t :
  Inv s -> needed t = false -> eventsOf (Bg t) (log s) = [].
Proof. intros HI Hn. exact (idle_no_events _ _ HI (idle_not_needed s t HI Hn)). Qed.

Lemma slotOutcome_late t e : lateEvent e = true -> slotOutcome t e = None.
Proof. destruct e; try discriminate; reflexivity. Qed.

Lemma sentForIn_E312 t : sentForIn t E312 = if needed t then [] else [None].
Proof. destruct t; unfold_E; simpl needed; break_goal; reflexivity. Qed.

Lemma sentForIn_build t :
  sentForIn t buildRun = match t with ClusterBuild => [buildOutcome] | _ => [] end.
Proof. destruct t; unfold buildOutcome; unfold_runs; break_goal; reflexivity. Qed.

Lemma sentForIn_test t :
  sentForIn t testRun = match t with TestBuild => [testOutcome] | _ => [] end.
Proof. destruct t; unfold testOutcome; unfold_runs; break_goal; reflexivity. Qed.

Lemma sentForIn_push t :
  sentForIn t pushRun = match t with ImagePush => [w PushImage] | _ => [] end.
Proof. destruct t; unfold_runs; break_goal; reflexivity. Qed.

Lemma sentForIn_up_other t b : t <> ClusterUp -> sentForIn t (upRun b) = [].
Proof. destruct t; try congruence; intros _; unfold_runs; break_goal; reflexivity. Qed.

Lemma sentForIn_up_known b :
  deploymentStrat f = "gce" \/ deploymentStrat f = "gke" ->
  List.length (sentForIn ClusterUp (upRun b)) = 1.
Proof.
  intros [H|H]; unfold upRun; rewrite H; simpl; unfold_runs; break_goal; reflexivity.
Qed.

(** The outcomes of a slot come from [handle] when the step is not needed,
    and from the goroutine of the slot when it is. *)
Lemma sentFor_split s t :
  Inv s ->
  sentFor t (log s)
  = if needed t then sentForIn t (eventsOf (Bg t) (log s))
    else sentForIn t (eventsOf Main (log s)).
Proof.
  intros HI.
  assert (Hb : forall u, u <> t -> sentForIn t (eventsOf (Bg u) (log s)) = []).
  { intros u Hu. destruct u.
    - apply (build_pick_nil _ s (inv_build _ HI)). change (sentForIn t buildRun = []).
      rewrite sentForIn_build. destruct t; congruence.
    - apply (test_pick_nil _ s (inv_test _ HI)). change (sentForIn t testRun = []).
      rewrite sentForIn_test. destruct t; congruence.
    - apply (push_pick_nil _ s (inv_push _ HI)). change (sentForIn t pushRun = []).
      rewrite sentForIn_push. destruct t; congruence.
    - apply (up_pick_nil _ s (inv_up _ HI)). intros b.
      apply (sentForIn_up_other t b). congruence. }
  destruct (needed t) eqn:Hn.
  - apply (pick_only (slotOutcome t) (Bg t)). intros [|u] Hs.
    + apply main_pick_nil; [apply slotOutcome_late | | exact (inv_main _ HI)].
      change (sentForIn t E312 = []). now rewrite sentForIn_E312, Hn.
    + apply Hb. intros ->. now rewrite sameThread_refl in Hs.
  - apply (pick_only (slotOutcome t) Main). intros [|u] Hs; [discriminate|].
    destruct (Task_eq_dec u t) as [->|Hu]; [|exact (Hb u Hu)].
    change (sentForIn t (eventsOf (Bg t) (log s)) = []).
    now rewrite (not_needed_no_events s t HI Hn).
Qed.

Lemma sentFor_not_needed s t :
  Inv s -> needed t = false -> isPrefix (sentFor t (log s)) [None].
Proof.
  intros HI Hn. rewrite (sentFor_split s t HI), Hn.
  pose proof (main_pick_prefix (slotOutcome t) s (slotOutcome_late t) (inv_main _ HI)) as Hp.
  change (isPrefix (sentForIn t (eventsOf Main (log s))) (sentForIn t E312)) in Hp.
  now rewrite sentForIn_E312, Hn in Hp.
Qed.

Lemma app_length_le {A} (a r b : list A) : a ++ r = b -> List.length a <= List.length b.
Proof. intros <-. rewrite length_app. lia. Qed.

Lemma sentFor_le_one s t :
  Inv s ->
  bringupCluster f = false \/ deploymentStrat f = "gce" \/ deploymentStrat f = "gke" ->
  List.length (sentFor t (log s)) <= 1.
Proof.
  intros HI Hk. destruct (needed t) eqn:Hn.
  2: exact (isPrefix_length _ _ (sentFor_not_needed s t HI Hn)).
  rewrite (sentFor_split s t HI), Hn. destruct t.
  - pose proof (app_length_le _ _ _ (build_pick (slotOutcome ClusterBuild) s (inv_build _ HI))) as H.
    change (pickE (slotOutcome ClusterBuild) buildRun) with (sentForIn ClusterBuild buildRun) in H.
    now rewrite sentForIn_build in H.
  - pose proof (app_length_le _ _ _ (test_pick (slotOutcome TestBuild) s (inv_test _ HI))) as H.
    change (pickE (slotOutcome TestBuild) testRun) with (sentForIn TestBuild testRun) in H.
    now rewrite sentForIn_test in H.
  - pose proof (app_length_le _ _ _ (push_pick (slotOutcome ImagePush) s (inv_push _ HI))) as H.
    change (pickE (slotOutcome ImagePush) pushRun) with (sentForIn ImagePush pushRun) in H.
    now rewrite sentForIn_push in H.
  - simpl in Hn. destruct Hk as [Hk|Hk]; [congruence|].
    destruct (up_pick (slotOutcome ClusterUp) s (inv_up _ HI)) as [E|[b E]].
    + rewrite E. simpl. lia.
    + apply app_length_le in E.
      change (pickE (slotOutcome ClusterUp) (upRun b)) with (sentForIn ClusterUp (upRun b)) in E.
      now rewrite (sentForIn_up_known b Hk) in E.
Qed.

Lemma sentOn_by_slot l :
  List.length (sentOn l)
  = List.length (sentFor ClusterBuild l) + List.length (sentFor TestBuild l)
    + List.length (sentFor ImagePush l) + List.length (sentFor ClusterUp l).
Proof.
  induction l as [|[t e] l IH]; [reflexivity|].
  unfold sentOn, sentFor, pick in *. simpl.
  destruct e as [| | | | |slot x| | |]; simpl; try exact IH. destruct slot; simpl; lia.
Qed.

(** With a known deployment strategy, [handle] has one outcome of each slot
    when it has received 4, and nothing is left in the channel. *)
Lemma four_slots_at_319 s firstErr :
  reachable s ->
  bringupCluster f = false \/ deploymentStrat f = "gce" \/ deploymentStrat f = "gke" ->
  pcMain s = M319 firstErr ->
  List.length (received s) = 4 /\ received s = arrivals s /\
  forall t, List.length (sentFor t (log s)) = 1.
Proof.
  intros Hr Hk Hpc. pose proof (reachable_Inv _ Hr) as HI.
  destruct (aggregate_at_319 s firstErr Hr Hpc) as (_ & H4 & _).
  pose proof (inv_chan _ HI) as HC. unfold chanInv in HC.
  pose proof (f_equal (@List.length _) HC) as HL. rewrite length_app, H4 in HL.
  unfold arrivals in HL. rewrite sentOn_by_slot in HL.
  pose proof (sentFor_le_one s ClusterBuild HI Hk).
  pose proof (sentFor_le_one s TestBuild HI Hk).
  pose proof (sentFor_le_one s ImagePush HI Hk).
  pose proof (sentFor_le_one s ClusterUp HI Hk).
  split; [exact H4|]. split.
  - assert (Hc : errChan s = []) by (destruct (errChan s); [reflexivity | simpl in HL; lia]).
    now rewrite HC, Hc, app_nil_r.
  - intros []; lia.
Qed.

(** *** The events of [handle] (lines 118-351) *)

(** What [handle] has done: a part of the set-up, or the set-up, the
    outcomes received and a part of the sequential phase; then the deferred
    closures it has run. *)
Lemma main_events s :
  Inv s ->
  exists pre,
    eventsOf Main (log s) = pre ++ unwind (ranIn (eventsOf Main (log s))) /\
    (isPrefix pre E312 \/
     (preludeFailure = None /\
      exists mid,
        pre = E312 ++ map Recv (received s) ++ mid /\
        (mid = [] \/
         (firstFailure (received s) = None /\ List.length (received s) = 4 /\
          (mid = installEvents \/
           exists o, selectedTests = Some o /\ w InstallDriver = None
                     /\ mid = installEvents ++ [callOf o]))))).
Proof.
  intros HI. pose proof (inv_main _ HI) as HM. pose proof (inv_defer _ HI) as (_ & HD & _).
  unfold received. unfold mainInv in HM. cbv zeta in HM.
  destruct (pcMain s) eqn:Hpc;
    repeat match goal with H : _ /\ _ |- _ => destruct H end.
  all: try (specialize (HD eq_refl); rewrite HD; simpl unwind;
            exists (eventsOf Main (log s)); split; [now rewrite app_nil_r|]).
  all: try (left; apply (isPrefix_trans _ E239); [|apply prefix_239_312];
            match goal with H : eventsOf Main _ = _ |- _ => rewrite H end;
            first [ exists E239; reflexivity | pfx ]; fail).
  all: try (right; split; [assumption|]; exists [];
            split; [rewrite app_nil_r; assumption | left; reflexivity]; fail).
  all: try (right; split; [assumption|]; exists installEvents;
            split; [assumption | right; repeat split; auto]; fail).
  all: destruct HM as (He & Hret & Hlen); unfold returnPoint in He;
    destruct preludeFailure as [[base r]|] eqn:Hp; simpl in He.
  all: try (exists base; split; [exact He|]; left;
            exact (isPrefix_trans _ _ _ (preludeFailure_prefix _ _ Hp)
                     (isPrefix_trans _ _ _ prefix_164_239 prefix_239_312))).
  all: eexists; split; [exact He|]; right; split; [reflexivity|];
    eexists; split; [reflexivity|]; specialize (Hlen eq_refl);
    unfold afterAggregate;
    destruct (firstFailure (recvsIn (eventsOf Main (log s)))) eqn:Hf; [now left|];
    right; split; [reflexivity|]; split; [exact Hlen|];
    destruct (w InstallDriver) eqn:Hi; [now left|];
    destruct selectedTests as [o|] eqn:Hs; [|now left];
    right; exists o; auto.
Qed.

Lemma in_unwind e ds :
  In e (unwind ds) -> exists d, In d ds /\ (e = RunDeferred d \/ In e (runDeferred d)).
Proof.
  unfold unwind. intros H. apply in_flat_map in H as (d & Hd & H).
  exists d. split; [exact Hd|]. destruct H as [H|H]; [left; now symmetry | now right].
Qed.

Lemma unwind_in d ds e :
  In d ds -> e = RunDeferred d \/ In e (runDeferred d) -> In e (unwind ds).
Proof.
  intros Hd H. unfold unwind. apply in_flat_map. exists d. split; [exact Hd|].
  destruct H as [->|H]; [now left | now right].
Qed.

Lemma isPrefix_in {A} (a b : list A) x : isPrefix a b -> In x a -> In x b.
Proof. intros [r ->] H. apply in_or_app. now left. Qed.

Lemma in_ranIn d evs : In d (ranIn evs) <-> In (RunDeferred d) evs.
Proof.
  unfold ranIn, pickE. rewrite in_flat_map. split.
  - intros (e & He & H). destruct e; simpl in H; try contradiction.
    destruct H as [->|[]]. exact He.
  - intros H. exists (RunDeferred d). split; [exact H | now left].
Qed.

Lemma in_registeredIn d evs : In d (registeredIn evs) <-> In (Defer d) evs.
Proof.
  unfold registeredIn, pickE. rewrite in_flat_map. split.
  - intros (e & He & H). destruct e; simpl in H; try contradiction.
    destruct H as [->|[]]. exact He.
  - intros H. exists (Defer d). split; [exact H | now left].
Qed.

Lemma not_in_runDeferred_Defer d d' : ~ In (Defer d') (runDeferred d).
Proof.
  unfold runDeferred, klogIfErr. destruct d; break_goal; simpl; intuition discriminate.
Qed.

Lemma not_in_unwind_Defer d ds : ~ In (Defer d) (unwind ds).
Proof.
  intros H. apply in_unwind in H as (d' & _ & [H|H]); [discriminate|].
  exact (not_in_runDeferred_Defer _ _ H).
Qed.

Lemma not_in_E312_Recv r : ~ In (Recv r) E312.
Proof. unfold_E. break_goal; simpl; intuition discriminate. Qed.

(** *** The installation of the driver (lines 324-335) *)

Lemma not_in_E312_install e :
  (exists r, e = Call InstallDriver r) \/ e = Defer DDeleteDriver
  \/ (exists r, e = Call DeleteDriver r) ->
  ~ In e E312.
Proof.
  intros [[r ->]|[->|[r ->]]]; unfold_E; break_goal; simpl; intuition discriminate.
Qed.

Lemma not_in_Recv_install l e :
  (exists r, e = Call InstallDriver r) \/ e = Defer DDeleteDriver
  \/ (exists r, e = Call DeleteDriver r) ->
  ~ In e (map Recv l).
Proof.
  intros H Hin. apply in_map_iff in Hin as (x & <- & _).
  destruct H as [[r H]|[H|[r H]]]; discriminate.
Qed.

Lemma not_in_unwind_install r ds : ~ In (Call InstallDriver r) (unwind ds).
Proof.
  intros H. apply in_unwind in H as (d & _ & [H|H]); [discriminate|].
  revert H. unfold runDeferred, klogIfErr. destruct d; break_goal; simpl; intuition discriminate.
Qed.

Lemma in_unwind_deleteDriver r ds :
  In (Call DeleteDriver r) (unwind ds) <-> In DDeleteDriver ds /\ r = w DeleteDriver.
Proof.
  split.
  - intros H. apply in_unwind in H as (d & Hd & [H|H]); [discriminate|].
    revert H. unfold runDeferred, klogIfErr.
    destruct d; break_goal; simpl; intuition (try discriminate).
    all: match goal with H : Call _ _ = Call _ _ |- _ => injection H as <- end; reflexivity.
  - intros [Hd ->]. apply (unwind_in DDeleteDriver); [exact Hd|]. right. now left.
Qed.

(** The deletion of the driver is deferred exactly when [installDriver] has
    been called and the flag is set. *)
Lemma deleteDriver_deferred s :
  Inv s ->
  (In (Defer DDeleteDriver) (eventsOf Main (log s))
   <-> In (callOf InstallDriver) (eventsOf Main (log s)) /\ teardownDriver f = true).
Proof.
  intros HI. destruct (main_events s HI) as (pre & He & Hpre).
  rewrite He. rewrite !in_app_iff.
  assert (Hu1 : ~ In (Defer DDeleteDriver) (unwind (ranIn (eventsOf Main (log s)))))
    by apply not_in_unwind_Defer.
  assert (Hu2 : ~ In (callOf InstallDriver) (unwind (ranIn (eventsOf Main (log s)))))
    by apply not_in_unwind_install.
  assert (H1 : ~ In (Defer DDeleteDriver) E312) by (apply not_in_E312_install; auto).
  assert (H2 : ~ In (callOf InstallDriver) E312)
    by (apply not_in_E312_install; left; eexists; reflexivity).
  assert (H3 : ~ In (Defer DDeleteDriver) (map Recv (received s)))
    by (apply not_in_Recv_install; auto).
  assert (H4 : ~ In (callOf InstallDriver) (map Recv (received s)))
    by (apply not_in_Recv_install; left; eexists; reflexivity).
  destruct Hpre as [Hp|(_ & mid & -> & Hmid)].
  - pose proof (isPrefix_in _ _ (Defer DDeleteDriver) Hp).
    pose proof (isPrefix_in _ _ (callOf InstallDriver) Hp). tauto.
  - rewrite !in_app_iff.
    assert (Hm : In (Defer DDeleteDriver) mid
                 <-> In (callOf InstallDriver) mid /\ teardownDriver f = true).
    { destruct Hmid as [->|(_ & _ & [->|(o & Hs & _ & ->)])].
      - simpl. tauto.
      - unfold installEvents, callOf. destruct (teardownDriver f); simpl;
          intuition (try discriminate; auto).
      - unfold installEvents, callOf. destruct (teardownDriver f); simpl;
          intuition (try discriminate; auto). }
    tauto.
Qed.

Lemma not_in_pre_deleteDriver s pre r :
  isPrefix pre E312 \/
  (preludeFailure = None /\
   exists mid,
     pre = E312 ++ map Recv (received s) ++ mid /\
     (mid = [] \/
      (firstFailure (received s) = None /\ List.length (received s) = 4 /\
       (mid = installEvents \/
        exists o, selectedTests = Some o /\ w InstallDriver = None
                  /\ mid = installEvents ++ [callOf o])))) ->
  ~ In (Call DeleteDriver r) pre.
Proof.
  assert (H1 : ~ In (Call DeleteDriver r) E312)
    by (apply not_in_E312_install; right; right; eexists; reflexivity).
  assert (H2 : ~ In (Call DeleteDriver r) (map Recv (received s)))
    by (apply not_in_Recv_install; right; right; eexists; reflexivity).
  intros [Hp|(_ & mid & -> & Hmid)] Hin.
  - exact (H1 (isPrefix_in _ _ _ Hp Hin)).
  - rewrite !in_app_iff in Hin. destruct Hin as [Hin|[Hin|Hin]]; [tauto | tauto |].
    unfold installEvents, callOf, selectedTests in Hmid.
    destruct Hmid as [->|(_ & _ & [->|(o & Hs & _ & ->)])].
    + destruct Hin.
    + destruct (teardownDriver f); simpl in Hin; intuition discriminate.
    + revert Hs. break_goal; intros Hs; try discriminate; inversion Hs; subst o;
        destruct (teardownDriver f); simpl in Hin; intuition discriminate.
Qed.

(** Once [handle] has returned, [deleteDriver] has been called exactly when
    its closure was deferred. *)
Lemma deleteDriver_called s ret :
  Inv s -> pcMain s = MReturned ret ->
  (In (Call DeleteDriver (w DeleteDriver)) (eventsOf Main (log s))
   <-> In (Defer DDeleteDriver) (eventsOf Main (log s))).
Proof.
  intros HI Hpc. destruct (main_events s HI) as (pre & He & Hpre).
  destruct (inv_defer _ HI) as (Hd & _ & Hnil). rewrite (Hnil ret Hpc), app_nil_r in Hd.
  rewrite <- in_registeredIn, (in_rev (registeredIn (eventsOf Main (log s)))), <- Hd.
  pose proof (not_in_pre_deleteDriver s pre (w DeleteDriver) Hpre) as Hn.
  rewrite He at 1. rewrite in_app_iff, in_unwind_deleteDriver. tauto.
Qed.

(** When [installDriver] has been called, [handle] returns its failure, if
    it failed. *)
Lemma install_failure_returned s ret err :
  Inv s -> pcMain s = MReturned ret ->
  In (callOf InstallDriver) (eventsOf Main (log s)) ->
  w InstallDriver = Some err ->
  ret = Errorf "failed to install CSI Driver: " err.
Proof.
  intros HI Hpc Hin Herr. destruct (main_events s HI) as (pre & He & Hpre).
  pose proof (inv_main _ HI) as HM. unfold mainInv in HM. rewrite Hpc in HM.
  destruct HM as (_ & Hret & _). fold (received s) in Hret.
  rewrite He in Hin. apply in_app_or in Hin as [Hin|Hin];
    [|exfalso; exact (not_in_unwind_install _ _ Hin)].
  assert (H1 : ~ In (callOf InstallDriver) E312)
    by (apply not_in_E312_install; left; eexists; reflexivity).
  assert (H2 : ~ In (callOf InstallDriver) (map Recv (received s)))
    by (apply not_in_Recv_install; left; eexists; reflexivity).
  destruct Hpre as [Hp|(Hnp & mid & -> & Hmid)].
  - exfalso. exact (H1 (isPrefix_in _ _ _ Hp Hin)).
  - rewrite !in_app_iff in Hin. destruct Hin as [Hin|[Hin|Hin]]; [tauto | tauto |].
    destruct Hmid as [->|(Hf & _ & _)]; [destruct Hin|].
    rewrite Hret. unfold returnPoint. rewrite Hnp. simpl.
    unfold afterAggregate. now rewrite Hf, Herr.
Qed.

(** *** The deferred closures (lines 123, 150, 168-169, 227-234, 291-308) *)

Lemma registeredIn_unwind ds : registeredIn (unwind ds) = [].
Proof.
  induction ds as [|d ds IH]; [reflexivity|].
  change (unwind (d :: ds)) with ((RunDeferred d :: runDeferred d) ++ unwind ds).
  rewrite registeredIn_app, IH, app_nil_r.
  change (registeredIn (RunDeferred d :: runDeferred d)) with (registeredIn (runDeferred d)).
  apply registeredIn_runDeferred.
Qed.

Lemma recvsIn_unwind ds : recvsIn (unwind ds) = [].
Proof.
  induction ds as [|d ds IH]; [reflexivity|].
  change (unwind (d :: ds)) with ((RunDeferred d :: runDeferred d) ++ unwind ds).
  rewrite recvsIn_app, IH, app_nil_r.
  change (recvsIn (RunDeferred d :: runDeferred d)) with (recvsIn (runDeferred d)).
  apply recvsIn_runDeferred.
Qed.

(** Once [handle] has returned, it has run all the closures it deferred,
    last deferred first: its events are those up to the [return], then the
    closures deferred up to there, in reverse. *)
Lemma returned_events s ret :
  Inv s -> pcMain s = MReturned ret ->
  eventsOf Main (log s)
  = fst (returnPoint (received s))
    ++ unwind (rev (registeredIn (fst (returnPoint (received s))))) /\
  ret = snd (returnPoint (received s)) /\
  ranIn (eventsOf Main (log s)) = rev (registeredIn (eventsOf Main (log s))) /\
  (preludeFailure = None -> List.length (received s) = 4).
Proof.
  intros HI Hpc. pose proof (inv_main _ HI) as HM. unfold mainInv in HM. rewrite Hpc in HM.
  destruct HM as (He & Hret & Hlen). fold (received s) in He, Hret, Hlen.
  destruct (inv_defer _ HI) as (Hd & _ & Hnil). rewrite (Hnil ret Hpc), app_nil_r in Hd.
  assert (Hreg : registeredIn (eventsOf Main (log s))
                 = registeredIn (fst (returnPoint (received s)))).
  { rewrite He at 1. now rewrite registeredIn_app, registeredIn_unwind, app_nil_r. }
  repeat split; auto. rewrite <- Hreg, <- Hd. exact He.
Qed.

Lemma calledIn_app p l1 l2 : calledIn p (l1 ++ l2) = calledIn p l1 ++ calledIn p l2.
Proof. apply pickE_app. Qed.

Lemma calledIn_map_Recv p l : calledIn p (map Recv l) = [].
Proof. induction l as [|x l IH]; [reflexivity | exact IH]. Qed.

Lemma calledIn_unwind p ds :
  calledIn p (unwind ds) = flat_map (fun d => calledIn p (runDeferred d)) ds.
Proof.
  induction ds as [|d ds IH]; [reflexivity|].
  change (unwind (d :: ds)) with ((RunDeferred d :: runDeferred d) ++ unwind ds).
  rewrite calledIn_app, IH. reflexivity.
Qed.

Lemma calledIn_E312 p :
  (forall o, isTeardownOp o = false -> isInstallOrTest o = false -> p o = false) ->
  calledIn p E312 = [].
Proof.
  intros Hp. unfold_E. unfold calledIn, pickE.
  repeat (break_goal; simpl; rewrite ?flat_map_app; simpl; rewrite ?Hp by reflexivity; simpl).
  all: reflexivity.
Qed.

Lemma registeredIn_E312 :
  registeredIn E312
  = DUmask :: (if inProw f then [DRestoreProject] else [])
    ++ [DRemoveK8sTemp; DRemoveTestTemp]
    ++ (if doDriverBuild f then [DDeleteImage] else [])
    ++ (if teardownCluster f then [DClusterDown] else []).
Proof. unfold_E. break_goal; reflexivity. Qed.

Lemma registeredIn_map_Recv l : registeredIn (map Recv l) = [].
Proof. induction l as [|x l IH]; [reflexivity | exact IH]. Qed.

Lemma registeredIn_afterAggregate firstErr :
  registeredIn (fst (afterAggregate firstErr)) = []
  \/ registeredIn (fst (afterAggregate firstErr)) = [DDeleteDriver].
Proof.
  unfold afterAggregate, installEvents, callOf. break_goal; simpl; auto.
Qed.

Lemma calledIn_afterAggregate p firstErr :
  (forall o, isInstallOrTest o = true -> p o = false) ->
  calledIn p (fst (afterAggregate firstErr)) = [].
Proof.
  intros Hp. unfold afterAggregate, installEvents, callOf, selectedTests, calledIn, pickE.
  break_goal; simpl; rewrite ?Hp by reflexivity; simpl; try reflexivity.
  all: match goal with H : Some _ = Some _ |- _ => injection H as <- end;
    rewrite ?Hp by reflexivity; reflexivity.
Qed.

(** No goroutine but [handle] runs a teardown. *)
Lemma called_main p s :
  Inv s ->
  (forall o, isTeardownOp o = false -> isInstallOrTest o = false -> p o = false) ->
  called p (log s) = calledIn p (eventsOf Main (log s)).
Proof.
  intros HI Hp.
  apply (pick_only_main (fun e => match e with
                                  | Call o _ => if p o then Some o else None
                                  | _ => None
                                  end)).
  intros [].
  - apply (build_pick_nil _ s (inv_build _ HI)). unfold_runs.
    break_goal; simpl; rewrite ?Hp by reflexivity; reflexivity.
  - apply (test_pick_nil _ s (inv_test _ HI)). unfold_runs.
    break_goal; simpl; rewrite ?Hp by reflexivity; reflexivity.
  - apply (push_pick_nil _ s (inv_push _ HI)). unfold_runs.
    simpl; rewrite ?Hp by reflexivity; reflexivity.
  - apply (up_pick_nil _ s (inv_up _ HI)). intros b. unfold_runs.
    break_goal; simpl; rewrite ?Hp by reflexivity; reflexivity.
Qed.

Lemma registered_at_return s ret :
  Inv s -> pcMain s = MReturned ret -> preludeFailure = None ->
  exists last,
    (last = [] \/ last = [DDeleteDriver]) /\
    registeredIn (eventsOf Main (log s)) = registeredIn E312 ++ last /\
    calledIn isAcquisitionTeardown (eventsOf Main (log s))
    = flat_map (fun d => calledIn isAcquisitionTeardown (runDeferred d))
        (rev (registeredIn E312)).
Proof.
  intros HI Hpc Hp. destruct (returned_events s ret HI Hpc) as (He & _ & _ & _).
  unfold returnPoint in He. rewrite Hp in He. simpl in He.
  remember (fst (afterAggregate (firstFailure (received s)))) as aft eqn:Haft.
  assert (Hreg : registeredIn (E312 ++ map Recv (received s) ++ aft)
                 = registeredIn E312 ++ registeredIn aft)
    by now rewrite !registeredIn_app, registeredIn_map_Recv.
  rewrite Hreg in He.
  assert (Hlast : registeredIn aft = [] \/ registeredIn aft = [DDeleteDriver])
    by (subst aft; apply registeredIn_afterAggregate).
  exists (registeredIn aft). split; [exact Hlast|]. split.
  - rewrite He at 1. now rewrite !registeredIn_app, registeredIn_map_Recv,
      registeredIn_unwind, app_nil_r.
  - rewrite He. rewrite !calledIn_app, calledIn_map_Recv, calledIn_unwind,
      rev_app_distr, flat_map_app.
    rewrite (calledIn_E312 isAcquisitionTeardown) by (intros []; simpl; congruence).
    assert (Ha : calledIn isAcquisitionTeardown aft = []).
    { subst aft. apply calledIn_afterAggregate. intros []; simpl; congruence. }
    rewrite Ha. simpl.
    assert (Hl : flat_map (fun d => calledIn isAcquisitionTeardown (runDeferred d))
                   (rev (registeredIn aft)) = []).
    { destruct Hlast as [->| ->]; [reflexivity|]. simpl. unfold klogIfErr.
      destruct (w DeleteDriver); reflexivity. }
    now rewrite Hl.
Qed.

(** The teardowns of the image and of the cluster that a run executes are
    decided by the flags alone. *)
Lemma teardown_calls s ret :
  Inv s -> pcMain s = MReturned ret -> preludeFailure = None ->
  called isAcquisitionTeardown (log s)
  = (if teardownCluster f
     then if deploymentStrat f =? "gce" then [ClusterDownGCE]
          else if deploymentStrat f =? "gke" then [ClusterDownGKE] else []
     else [])
    ++ (if doDriverBuild f && teardownCluster f then [DeleteImage] else []).
Proof.
  intros HI Hpc Hp. rewrite (called_main _ s HI) by (intros []; simpl; congruence).
  destruct (registered_at_return s ret HI Hpc Hp) as (last & _ & _ & ->).
  rewrite registeredIn_E312.
  destruct (inProw f), (doDriverBuild f), (teardownCluster f) eqn:Ht; simpl;
    rewrite ?Ht; unfold klogIfErr; break_goal; reflexivity.
Qed.

Lemma teardown_registered s ret :
  Inv s -> pcMain s = MReturned ret -> preludeFailure = None ->
  (In DDeleteImage (registeredIn (eventsOf Main (log s))) <-> doDriverBuild f = true) /\
  (In DClusterDown (registeredIn (eventsOf Main (log s))) <-> teardownCluster f = true).
Proof.
  intros HI Hpc Hp.
  destruct (registered_at_return s ret HI Hpc Hp) as (last & Hlast & -> & _).
  rewrite registeredIn_E312.
  destruct Hlast as [-> | ->]; destruct (inProw f), (doDriverBuild f), (teardownCluster f);
    simpl; intuition (try discriminate; auto).
Qed.

(** [handle] returns from its set-up: nothing was acquired, and neither the
    image nor the cluster is torn down. *)
Lemma no_teardown_after_prelude s ret :
  Inv s -> pcMain s = MReturned ret -> preludeFailure <> None ->
  called isAcquisitionTeardown (log s) = [].
Proof.
  intros HI Hpc Hp. rewrite (called_main _ s HI) by (intros []; simpl; congruence).
  destruct (returned_events s ret HI Hpc) as (He & _ & _ & _).
  rewrite He. unfold returnPoint. clear He.
  destruct preludeFailure as [[base r]|] eqn:Hq; [clear Hp | congruence].
  revert Hq. unfold preludeFailure.
  break_goal; intros Hq; try discriminate; injection Hq as <- <-;
    unfold_E; simpl; unfold klogIfErr; break_goal; reflexivity.
Qed.

(** *** The return of a failure (lines 319-321) *)

Lemma calledIn_runDeferred_install d : calledIn isInstallOrTest (runDeferred d) = [].
Proof. deferred_cases d. Qed.

Lemma calledIn_unwind_install ds : calledIn isInstallOrTest (unwind ds) = [].
Proof.
  rewrite calledIn_unwind. induction ds as [|d ds IH]; [reflexivity|].
  simpl. now rewrite calledIn_runDeferred_install, IH.
Qed.

Lemma received_after_prelude s ret base r :
  Inv s -> pcMain s = MReturned ret -> preludeFailure = Some (base, r) -> received s = [].
Proof.
  intros HI Hpc Hp. pose proof (inv_main _ HI) as HM. unfold mainInv in HM.
  rewrite Hpc in HM. destruct HM as (He & _ & _). unfold returnPoint in He.
  rewrite Hp in He. simpl in He. unfold received. rewrite He.
  rewrite recvsIn_app, recvsIn_unwind, app_nil_r.
  pose proof (pickE_prefix (fun e => match e with Recv r => Some r | _ => None end) _ _
                (isPrefix_trans _ _ _ (preludeFailure_prefix _ _ Hp)
                   (isPrefix_trans _ _ _ prefix_164_239 prefix_239_312))) as Hx.
  fold recvsIn in Hx. rewrite recvsIn_E312 in Hx. exact (isPrefix_nil _ Hx).
Qed.

(** The aggregate is a failure: [handle] returns it, and neither installs
    the driver nor runs the tests. *)
Lemma failure_returned s ret e :
  Inv s -> pcMain s = MReturned ret -> firstFailure (received s) = Some e ->
  List.length (received s) = 4 /\ ret = Some e /\ called isInstallOrTest (log s) = [].
Proof.
  intros HI Hpc Hf.
  destruct (returned_events s ret HI Hpc) as (He & Hret & _ & Hlen).
  destruct preludeFailure as [[base r]|] eqn:Hp.
  { rewrite (received_after_prelude s ret base r HI Hpc Hp) in Hf. discriminate. }
  split; [exact (Hlen eq_refl)|].
  unfold returnPoint in He, Hret. rewrite Hp in He, Hret.
  unfold afterAggregate in He, Hret. rewrite Hf in He, Hret. simpl in He, Hret.
  split; [exact Hret|].
  rewrite (called_main _ s HI) by (intros []; simpl; congruence).
  rewrite He, !calledIn_app, calledIn_map_Recv, calledIn_unwind_install.
  rewrite (calledIn_E312 isInstallOrTest) by (intros []; simpl; congruence).
  reflexivity.
Qed.

(** Every closure that was deferred has run, with all it does. *)
Lemma deferred_all_run s ret d e :
  Inv s -> pcMain s = MReturned ret ->
  In (Defer d) (eventsOf Main (log s)) ->
  e = RunDeferred d \/ In e (runDeferred d) ->
  In e (eventsOf Main (log s)).
Proof.
  intros HI Hpc Hd Hin.
  destruct (returned_events s ret HI Hpc) as (_ & _ & Hran & _).
  pose proof (inv_main _ HI) as HM. unfold mainInv in HM. rewrite Hpc in HM.
  destruct HM as (He & _ & _). rewrite He. apply in_or_app. right.
  apply (unwind_in d); [|exact Hin].
  rewrite Hran, <- in_rev. now apply in_registeredIn.
Qed.

(** A run that fails nowhere but in its teardowns returns [nil]. *)
Lemma success_returned s ret o :
  Inv s -> pcMain s = MReturned ret ->
  preludeFailure = None -> firstFailure (received s) = None ->
  w InstallDriver = None -> selectedTests = Some o -> w o = None ->
  ret = None.
Proof.
  intros HI Hpc Hp Hf Hi Hs Ho.
  destruct (returned_events s ret HI Hpc) as (_ & Hret & _ & _).
  unfold returnPoint in Hret. rewrite Hp in Hret. simpl in Hret.
  unfold afterAggregate in Hret. rewrite Hf, Hi, Hs in Hret. simpl in Hret.
  now rewrite Ho in Hret.
Qed.

(** *** Every run ends *)

Lemma step_decreases t s s' : step t s = Some s' -> stepsLeft s' < stepsLeft s.
Proof.
  intros H. unfold stepsLeft.
  destruct t as [|[]]; step_inv H; simpl;
    unfold mainAt177, mainAt202, mainAt223, mainAt239, mainAfterRecv, upAfterKubectl,
      deferClusterDown, pushDeferred;
    repeat match goal with
           | |- context [if ?b then _ else _] => destruct b eqn:?
           | |- context [match ?x with _ => _ end] =>
               lazymatch x with
               | context [match _ with _ => _ end] => fail
               | _ => destruct x eqn:?
               end
           end; simpl;
    repeat match goal with
           | H : pcMain _ = _ |- _ => rewrite H in *; clear H
           | H : pcBuild _ = _ |- _ => rewrite H in *; clear H
           | H : pcTest _ = _ |- _ => rewrite H in *; clear H
           | H : pcPush _ = _ |- _ => rewrite H in *; clear H
           | H : pcUp _ = _ |- _ => rewrite H in *; clear H
           | H : deferred _ = _ |- _ => rewrite H in *; clear H
           | H : (_ <? _)%nat = true |- _ => apply Nat.ltb_lt in H
           | H : (_ <? _)%nat = false |- _ => apply Nat.ltb_ge in H
           end; simpl in *; try lia.
Qed.

Lemma run_decreases sched s s' :
  run sched s = Some s' -> List.length sched + stepsLeft s' <= stepsLeft s.
Proof.
  revert s. induction sched as [|t sched IH]; intros s H; simpl in H.
  - injection H as <-. simpl. lia.
  - destruct (step t s) as [s1|] eqn:E; [|discriminate].
    pose proof (step_decreases _ _ _ E). pose proof (IH _ H). simpl. lia.
Qed.

(** *** No run is stuck before its end *)

Lemma sentFor_le_one_bg s t :
  Inv s -> t <> ClusterUp -> List.length (sentFor t (log s)) <= 1.
Proof.
  intros HI Ht. destruct (needed t) eqn:Hn.
  2: exact (isPrefix_length _ _ (sentFor_not_needed s t HI Hn)).
  rewrite (sentFor_split s t HI), Hn. destruct t; [| | |congruence].
  - pose proof (app_length_le _ _ _ (build_pick (slotOutcome ClusterBuild) s (inv_build _ HI))) as H.
    change (pickE (slotOutcome ClusterBuild) buildRun) with (sentForIn ClusterBuild buildRun) in H.
    now rewrite sentForIn_build in H.
  - pose proof (app_length_le _ _ _ (test_pick (slotOutcome TestBuild) s (inv_test _ HI))) as H.
    change (pickE (slotOutcome TestBuild) testRun) with (sentForIn TestBuild testRun) in H.
    now rewrite sentForIn_test in H.
  - pose proof (app_length_le _ _ _ (push_pick (slotOutcome ImagePush) s (inv_push _ HI))) as H.
    change (pickE (slotOutcome ImagePush) pushRun) with (sentForIn ImagePush pushRun) in H.
    now rewrite sentForIn_push in H.
Qed.

Lemma sentForIn_up_bounds b :
  1 <= List.length (sentForIn ClusterUp (upRun b)) <= 2.
Proof. unfold_runs. break_goal; simpl; lia. Qed.

Lemma sentFor_up_le_two s : Inv s -> List.length (sentFor ClusterUp (log s)) <= 2.
Proof.
  intros HI. destruct (needed ClusterUp) eqn:Hn.
  2: pose proof (isPrefix_length _ _ (sentFor_not_needed s ClusterUp HI Hn)); simpl in *; lia.
  rewrite (sentFor_split s ClusterUp HI), Hn.
  destruct (up_pick (slotOutcome ClusterUp) s (inv_up _ HI)) as [E|[b E]].
  - rewrite E. simpl. lia.
  - apply app_length_le in E.
    change (pickE (slotOutcome ClusterUp) (upRun b)) with (sentForIn ClusterUp (upRun b)) in E.
    pose proof (sentForIn_up_bounds b). unfold sentForIn in *. lia.
Qed.

Lemma arrivals_le_five s : Inv s -> List.length (arrivals s) <= 5.
Proof.
  intros HI. unfold arrivals. rewrite sentOn_by_slot.
  pose proof (sentFor_le_one_bg s ClusterBuild HI ltac:(discriminate)).
  pose proof (sentFor_le_one_bg s TestBuild HI ltac:(discriminate)).
  pose proof (sentFor_le_one_bg s ImagePush HI ltac:(discriminate)).
  pose proof (sentFor_up_le_two s HI). lia.
Qed.

Lemma sentForIn_up_E239 : sentForIn ClusterUp E239 = [].
Proof.
  unfold E239, E223, E202, E177, E166, E164, E156, E155, E140, E135, E133, E124, callOf.
  break_goal; reflexivity.
Qed.

Lemma sentForIn_unwind t ds : sentForIn t (unwind ds) = [].
Proof. apply pickE_late; [apply slotOutcome_late | apply lateEvent_unwind]. Qed.

(** Where [handle] is: before it starts the bring-up, in the loop of line
    312, or past it with 4 outcomes. *)
Lemma main_cases s :
  Inv s ->
  (started ClusterUp (eventsOf Main (log s)) = false
   /\ sentForIn ClusterUp (eventsOf Main (log s)) = []
   /\ forall i fe, pcMain s <> M313 i fe)
  \/ (exists i fe, pcMain s = M313 i fe)
  \/ List.length (received s) = 4.
Proof.
  intros HI. pose proof (inv_main _ HI) as HM.
  assert (Hpre : forall pre ds,
             isPrefix pre E239 -> eventsOf Main (log s) = pre ++ unwind ds ->
             started ClusterUp (eventsOf Main (log s)) = false
             /\ sentForIn ClusterUp (eventsOf Main (log s)) = []).
  { intros pre ds Hp ->. split.
    - rewrite started_app, (started_late _ _ (lateEvent_unwind _)), orb_false_r.
      exact (started_prefix _ _ _ Hp started_E239).
    - unfold sentForIn. rewrite pickE_app. fold (sentForIn ClusterUp (unwind ds)).
      rewrite sentForIn_unwind, app_nil_r.
      pose proof (pickE_prefix (slotOutcome ClusterUp) _ _ Hp) as Hx.
      fold (sentForIn ClusterUp E239) in Hx. rewrite sentForIn_up_E239 in Hx.
      exact (isPrefix_nil _ Hx). }
  unfold received. unfold mainInv in HM. cbv zeta in HM.
  destruct (pcMain s) eqn:Hpc;
    repeat match goal with H : _ /\ _ |- _ => destruct H end.
  all: try (left;
            assert (Hx : isPrefix (eventsOf Main (log s)) E239)
              by (match goal with H : eventsOf Main _ = _ |- _ => rewrite H end;
                  first [ exists E239; reflexivity | pfx ]);
            destruct (Hpre (eventsOf Main (log s)) [] Hx
                        ltac:(simpl; now rewrite app_nil_r)) as [Hq1 Hq2];
            repeat split; [exact Hq1 | exact Hq2 | discriminate]).
  all: try (right; left; eauto; fail).
  all: try (right; right; assumption).
  all: destruct HM as (He & _ & Hlen); unfold returnPoint in He;
    destruct preludeFailure as [[base r]|] eqn:Hp; simpl in He;
    [ left;
      destruct (Hpre base _ (isPrefix_trans _ _ _ (preludeFailure_prefix _ _ Hp)
                               prefix_164_239) He) as [Hq1 Hq2];
      repeat split; [exact Hq1 | exact Hq2 | discriminate]
    | right; right; exact (Hlen eq_refl) ].
Qed.

Lemma up_slot_empty s :
  Inv s ->
  started ClusterUp (eventsOf Main (log s)) = false ->
  sentForIn ClusterUp (eventsOf Main (log s)) = [] ->
  sentFor ClusterUp (log s) = [].
Proof.
  intros HI Hs Hm. rewrite (sentFor_split s ClusterUp HI).
  destruct (needed ClusterUp); [|exact Hm].
  assert (Hi : idle ClusterUp s = true) by now rewrite (inv_spawn _ HI ClusterUp), Hs.
  now rewrite (idle_no_events _ _ HI Hi).
Qed.

(** A full channel: [handle] is in the loop that empties it. *)
Lemma chan_full_main s :
  Inv s -> 4 <= List.length (errChan s) -> exists i fe, pcMain s = M313 i fe.
Proof.
  intros HI Hfull. pose proof (inv_chan _ HI) as HC. unfold chanInv in HC.
  pose proof (f_equal (@List.length _) HC) as HL. rewrite length_app in HL.
  destruct (main_cases s HI) as [(Hs & Hm & _)|[H|H]]; [exfalso | exact H | exfalso].
  - unfold arrivals in HL. rewrite sentOn_by_slot, (up_slot_empty s HI Hs Hm) in HL.
    pose proof (sentFor_le_one_bg s ClusterBuild HI ltac:(discriminate)).
    pose proof (sentFor_le_one_bg s TestBuild HI ltac:(discriminate)).
    pose proof (sentFor_le_one_bg s ImagePush HI ltac:(discriminate)).
    simpl in HL. lia.
  - pose proof (arrivals_le_five s HI). lia.
Qed.

Lemma depSentIn_E177 : depSentIn E177 = [].
Proof.
  unfold E177, E166, E164, E156, E155, E140, E135, E133, E124, callOf.
  break_goal; reflexivity.
Qed.

Lemma gate_empty_at_197 s : Inv s -> pcMain s = M197 -> k8sDependencyChan s = [].
Proof.
  intros HI Hpc. pose proof (inv_main _ HI) as HM. unfold mainInv in HM.
  rewrite Hpc in HM. destruct HM as (He & _ & Hn).
  pose proof (inv_dep _ HI) as HD. unfold depInv in HD.
  rewrite (depSent_main s HI Hn), He in HD. unfold depSentIn in HD.
  rewrite pickE_app in HD. fold (depSentIn E177) in HD. rewrite depSentIn_E177 in HD.
  simpl in HD. symmetry in HD. now apply app_eq_nil in HD.
Qed.

(** The cluster-build goroutine is about to write the gate: the gate is
    empty. *)
Lemma gate_empty_before_write s :
  Inv s -> pcBuild s = B182 \/ pcBuild s = B188 \/ pcBuild s = B191 ->
  k8sDependencyChan s = [].
Proof.
  intros HI Hpc.
  assert (Hn : needClusterBuild = true).
  { apply (build_exists_needed s HI). simpl. destruct Hpc as [->|[->| ->]]; reflexivity. }
  pose proof (inv_dep _ HI) as HD. unfold depInv in HD.
  rewrite (depSent_build s HI Hn) in HD.
  pose proof (build_pick (fun e => match e with DepSend b => Some b | _ => None end)
                s (inv_build _ HI)) as HB.
  fold depSentIn in HB. rewrite depSentIn_build in HB.
  assert (Hr : exists x, depSentIn (buildRest (pcBuild s)) = [x]).
  { destruct Hpc as [->|[->| ->]]; simpl; eexists; reflexivity. }
  destruct Hr as [x Hr]. rewrite Hr in HB.
  destruct (depSentIn (eventsOf (Bg ClusterBuild) (log s))) as [|y l].
  - symmetry in HD. now apply app_eq_nil in HD.
  - exfalso. apply (f_equal (@List.length _)) in HB. rewrite length_app in HB.
    simpl in HB. lia.
Qed.

Lemma stepMain_blocked s :
  stepMain s = None ->
  4 <= List.length (errChan s) /\ inSetup (pcMain s) = true
  \/ pcMain s = M197 /\ k8sDependencyChan s <> []
  \/ (exists i fe, pcMain s = M313 i fe) /\ errChan s = []
  \/ exists ret, pcMain s = MReturned ret.
Proof.
  unfold stepMain, sendErr, sendDep, option_map, numTasks.
  destruct (pcMain s) eqn:Hpc; try discriminate;
    repeat match goal with
           | |- context [if ?b then _ else _] => destruct b eqn:?
           | |- context [match ?x with _ => _ end] => destruct x eqn:?
           end; try discriminate; intros _.
  all: repeat match goal with
              | H : (_ <? _)%nat = false |- _ => apply Nat.ltb_ge in H
              end.
  all: try (left; split; [assumption | reflexivity]).
  all: try (right; left; split; [reflexivity|];
            destruct (k8sDependencyChan s); [simpl in *; lia | discriminate]).
  all: try (right; right; left; split; [eauto | first [assumption | reflexivity]]).
  all: right; right; right; eauto.
Qed.

Lemma stepTest_enabled s :
  List.length (errChan s) < 4 ->
  pcTest s <> TIdle -> pcTest s <> TDone -> exists s', stepTest s = Some s'.
Proof.
  intros Hc H1 H2. apply Nat.ltb_lt in Hc.
  unfold stepTest, sendErr, option_map, numTasks. rewrite Hc.
  destruct (pcTest s); try congruence; eauto.
Qed.

Lemma stepPush_enabled s :
  List.length (errChan s) < 4 ->
  pcPush s <> PIdle -> pcPush s <> PDone -> exists s', stepPush s = Some s'.
Proof.
  intros Hc H1 H2. apply Nat.ltb_lt in Hc.
  unfold stepPush, sendErr, option_map, numTasks. rewrite Hc.
  destruct (pcPush s); try congruence; eauto.
Qed.

Lemma stepBuild_enabled s :
  List.length (errChan s) < 4 ->
  (pcBuild s = B182 \/ pcBuild s = B188 \/ pcBuild s = B191 -> k8sDependencyChan s = []) ->
  pcBuild s <> BIdle -> pcBuild s <> BDone -> exists s', stepBuild s = Some s'.
Proof.
  intros Hc Hg H1 H2. apply Nat.ltb_lt in Hc.
  unfold stepBuild, sendErr, sendDep, option_map, numTasks. rewrite Hc.
  destruct (pcBuild s); try congruence; eauto; rewrite Hg by auto; simpl; eauto.
Qed.

Lemma stepUp_enabled s :
  List.length (errChan s) < 4 -> (pcUp s = U241 -> k8sDependencyChan s <> []) ->
  pcUp s <> UIdle -> pcUp s <> UDone -> exists s', stepUp s = Some s'.
Proof.
  intros Hc Hg H1 H2. apply Nat.ltb_lt in Hc.
  unfold stepUp, sendErr, option_map, numTasks. rewrite Hc.
  destruct (pcUp s); try congruence; eauto.
  - destruct (k8sDependencyChan s); [now specialize (Hg eq_refl) | eauto].
  - destruct (w StatKubectl); eauto.
Qed.

(** The bring-up goroutine waits for the gate: the cluster-build goroutine
    is on its way to write it. *)
Lemma writer_pending s :
  Inv s -> pcUp s = U241 -> k8sDependencyChan s = [] ->
  List.length (errChan s) < 4 -> exists s', stepBuild s = Some s'.
Proof.
  intros HI Hpc Hg Hc.
  assert (Hi : idle ClusterUp s = false) by (simpl; now rewrite Hpc).
  destruct (main_after_go_up s HI Hi) as (tail & He & Hl & _).
  pose proof (inv_up _ HI) as HU. unfold upInv in HU. rewrite Hpc in HU.
  pose proof (inv_dep _ HI) as HD. unfold depInv in HD.
  rewrite (depRecvd_up s HI), HU, Hg in HD. simpl in HD.
  destruct needClusterBuild eqn:Hn.
  - pose proof (idle_after_setup s tail ClusterBuild HI He Hl) as Hb. rewrite Hn in Hb.
    simpl in Hb. rewrite (depSent_build s HI Hn) in HD.
    apply stepBuild_enabled; [exact Hc | intros _; exact Hg | |].
    + intros E. now rewrite E in Hb.
    + intros E. pose proof (inv_build _ HI) as HB. unfold buildInv in HB.
      rewrite E in HB. simpl in HB. rewrite app_nil_r in HB.
      rewrite HB, depSentIn_build in HD. discriminate.
  - exfalso. rewrite (depSent_main s HI Hn), He in HD. unfold depSentIn in HD.
    rewrite pickE_app in HD. fold (depSentIn E312) in HD.
    rewrite depSentIn_E312, Hn in HD. discriminate.
Qed.

(** After the set-up, a slot whose goroutine has ended or was never started
    has its outcome. *)
Lemma slot_ended s t tail :
  Inv s -> eventsOf Main (log s) = E312 ++ tail -> forallb lateEvent tail = true ->
  ended t s = true -> 1 <= List.length (sentFor t (log s)).
Proof.
  intros HI He Hl Hend. rewrite (sentFor_split s t HI).
  pose proof (idle_after_setup s tail t HI He Hl) as Hi. fold (needed t) in Hi.
  destruct (needed t) eqn:Hn.
  - simpl in Hi. destruct t; simpl in Hend, Hi.
    + pose proof (inv_build _ HI) as HB. unfold buildInv in HB.
      destruct (pcBuild s); try discriminate. simpl in HB. rewrite app_nil_r in HB.
      rewrite HB, sentForIn_build. simpl. lia.
    + pose proof (inv_test _ HI) as HB. unfold testInv in HB.
      destruct (pcTest s); try discriminate. simpl in HB. rewrite app_nil_r in HB.
      rewrite HB, sentForIn_test. simpl. lia.
    + pose proof (inv_push _ HI) as HB. unfold pushInv in HB.
      destruct (pcPush s); try discriminate. simpl in HB. rewrite app_nil_r in HB.
      rewrite HB, sentForIn_push. simpl. lia.
    + pose proof (inv_up _ HI) as HB. unfold upInv in HB.
      destruct (pcUp s); try discriminate. destruct HB as [b HB]. simpl in HB.
      rewrite app_nil_r in HB. rewrite HB. exact (proj1 (sentForIn_up_bounds b)).
  - rewrite He. unfold sentForIn. rewrite pickE_app.
    rewrite (pickE_late _ tail (slotOutcome_late t) Hl), app_nil_r.
    fold (sentForIn t E312). rewrite sentForIn_E312, Hn. simpl. lia.
Qed.

(** [handle] waits for an outcome: a goroutine is still running. *)
Lemma loop_waits_for_someone s i fe :
  Inv s -> pcMain s = M313 i fe -> errChan s = [] ->
  ended ClusterBuild s && ended TestBuild s && ended ImagePush s && ended ClusterUp s
  = false.
Proof.
  intros HI Hpc Hc.
  destruct (ended ClusterBuild s && ended TestBuild s && ended ImagePush s
            && ended ClusterUp s) eqn:Hall; [exfalso|reflexivity].
  apply andb_true_iff in Hall as [Hall H4]. apply andb_true_iff in Hall as [Hall H3].
  apply andb_true_iff in Hall as [H1 H2].
  pose proof (inv_main _ HI) as HM. unfold mainInv in HM. rewrite Hpc in HM.
  destruct HM as (He & _ & Hlen & Hi & _).
  assert (Hlate : forallb lateEvent (map Recv (recvsIn (eventsOf Main (log s)))) = true)
    by apply lateEvent_map_Recv.
  pose proof (inv_chan _ HI) as HC. unfold chanInv in HC. rewrite Hc, app_nil_r in HC.
  pose proof (f_equal (@List.length _) HC) as HL. unfold received in HL.
  unfold arrivals in HL. rewrite sentOn_by_slot in HL.
  pose proof (slot_ended s ClusterBuild _ HI He Hlate H1).
  pose proof (slot_ended s TestBuild _ HI He Hlate H2).
  pose proof (slot_ended s ImagePush _ HI He Hlate H3).
  pose proof (slot_ended s ClusterUp _ HI He Hlate H4).
  lia.
Qed.

(** In every state of a run, either [handle] has returned and all goroutines
    have ended, or some goroutine can take a step. *)
Lemma progress s :
  Inv s -> finished s = true \/ exists t s', step t s = Some s'.
Proof.
  intros HI. destruct (stepMain s) as [s'|] eqn:EM; [right; exists Main, s'; exact EM|].
  assert (Hc : List.length (errChan s) < 4).
  { destruct (le_lt_dec 4 (List.length (errChan s))) as [Hf|Hf]; [exfalso | exact Hf].
    destruct (chan_full_main s HI Hf) as (i & fe & Hpc).
    unfold stepMain in EM. rewrite Hpc in EM.
    destruct (errChan s); [simpl in Hf; lia | discriminate]. }
  destruct (ended TestBuild s) eqn:E2.
  2: { right. exists (Bg TestBuild). apply stepTest_enabled; [exact Hc | |];
       intros E; simpl in E2; rewrite E in E2; discriminate. }
  destruct (ended ImagePush s) eqn:E3.
  2: { right. exists (Bg ImagePush). apply stepPush_enabled; [exact Hc | |];
       intros E; simpl in E3; rewrite E in E3; discriminate. }
  destruct (ended ClusterBuild s) eqn:E1.
  2: { right. exists (Bg ClusterBuild).
       apply stepBuild_enabled;
         [exact Hc | exact (gate_empty_before_write s HI) | |];
         intros E; simpl in E1; rewrite E in E1; discriminate. }
  destruct (ended ClusterUp s) eqn:E4.
  2: { right. destruct (pcUp s) eqn:Hpc; try (simpl in E4; rewrite Hpc in E4; discriminate).
       all: try (exists (Bg ClusterUp); apply stepUp_enabled;
                 [exact Hc | rewrite Hpc; discriminate
                 | rewrite Hpc; discriminate | rewrite Hpc; discriminate]).
       destruct (k8sDependencyChan s) eqn:Hg.
       - exists (Bg ClusterBuild). exact (writer_pending s HI Hpc Hg Hc).
       - exists (Bg ClusterUp). apply stepUp_enabled;
           [exact Hc | rewrite Hg; discriminate
           | rewrite Hpc; discriminate | rewrite Hpc; discriminate]. }
  destruct (stepMain_blocked s EM) as [[Hf _]|[[Hpc Hg]|[[(i & fe & Hpc) Hch]|[ret Hpc]]]].
  - lia.
  - exfalso. exact (Hg (gate_empty_at_197 s HI Hpc)).
  - pose proof (loop_waits_for_someone s i fe HI Hpc Hch) as Hx.
    rewrite E1, E2, E3, E4 in Hx. discriminate.
  - left. unfold finished. now rewrite Hpc, E1, E2, E3, E4.
Qed.

(** Every run can be brought to its end: [handle] returns. *)
Lemma can_finish n s :
  stepsLeft s <= n -> reachable s ->
  exists sched s', run sched s = Some s' /\ finished s' = true.
Proof.
  revert s. induction n as [|n IH]; intros s Hn Hr.
  - destruct (progress s (reachable_Inv _ Hr)) as [Hf|(t & s' & Hs)].
    + exists [], s. split; [reflexivity | exact Hf].
    + pose proof (step_decreases _ _ _ Hs). lia.
  - destruct (progress s (reachable_Inv _ Hr)) as [Hf|(t & s' & Hs)].
    + exists [], s. split; [reflexivity | exact Hf].
    + pose proof (step_decreases _ _ _ Hs) as Hd.
      destruct (IH s' ltac:(lia) (reachable_step _ _ _ Hr Hs)) as (sched & s'' & Hrun & Hf).
      exists (t :: sched), s''. split; [|exact Hf]. simpl. now rewrite Hs.
Qed.

(** The build failed: when [handle] has its 4 outcomes, the bring-up
    goroutine has read the gate and reported its success. *)
Lemma up_done_after_failed_build s firstErr :
  Inv s -> needClusterBuild = true -> buildOutcome <> None ->
  pcMain s = M319 firstErr -> bringupCluster f = true ->
  eventsOf (Bg ClusterUp) (log s) = upRun false.
Proof.
  intros HI Hn Hf Hpc Hb. pose proof (inv_main _ HI) as HM. unfold mainInv in HM.
  rewrite Hpc in HM. destruct HM as (He & _ & Hl & _).
  assert (Hlate : forallb lateEvent (map Recv (recvsIn (eventsOf Main (log s)))) = true)
    by apply lateEvent_map_Recv.
  pose proof (inv_chan _ HI) as HC. unfold chanInv in HC.
  pose proof (arrivals_length s) as HA.
  rewrite (sendsIn_main_after s _ He Hlate), sendsIn_E312, !length_app, Hn, Hb in HA.
  pose proof (slot_test s _ HI He Hlate) as H1.
  pose proof (slot_push s _ HI He Hlate) as H2.
  pose proof (isPrefix_length _ _ (sendsIn_build_prefix s (inv_build _ HI))) as H4.
  assert (H5 : List.length (arrivals s) = 4 + List.length (errChan s))
    by (rewrite HC, length_app; unfold received; lia).
  simpl in HA, H4.
  assert (Hu : 1 <= List.length (sendsIn (eventsOf (Bg ClusterUp) (log s)))) by lia.
  destruct (up_skips s HI Hn Hf) as [r Hr].
  destruct (eventsOf (Bg ClusterUp) (log s)) as [|e1 [|e2 [|e3 l]]].
  - simpl in Hu. lia.
  - injection Hr as <- _. simpl in Hu. lia.
  - injection Hr as <- <- _. reflexivity.
  - discriminate.
Qed.

(** *** The outcome of each slot, whatever the scheduling *)

Lemma sentForIn_up_gate :
  sentForIn ClusterUp (upRun gateValue)
  = upOutcome :: (if gateValue && negb (deploymentStrat f =? "gce")
                     && negb (deploymentStrat f =? "gke")
                  then [None] else []).
Proof.
  unfold upOutcome, upOutcomeGCE, upRun. destruct gateValue; simpl; [|reflexivity].
  destruct (deploymentStrat f =? "gce"); simpl.
  - unfold_runs. break_goal; reflexivity.
  - destruct (deploymentStrat f =? "gke"); simpl; unfold_runs; break_goal; reflexivity.
Qed.

(** The bring-up goroutine has read the gate: it read [gateValue]. *)
Lemma up_read_gate s :
  Inv s -> pcUp s <> UIdle -> pcUp s <> U241 ->
  eventsOf (Bg ClusterUp) (log s) ++ upRest (pcUp s) = upRun gateValue.
Proof.
  intros HI H1 H2. destruct (up_has_read s HI H1 H2) as (b & Hb & He).
  destruct (up_read_value s b HI Hb) as [Hv _]. unfold gateValue. now rewrite <- Hv.
Qed.

Lemma up_events_gate s :
  Inv s -> isPrefix (eventsOf (Bg ClusterUp) (log s)) (upRun gateValue).
Proof.
  intros HI. destruct (pcUp s) eqn:Hpc.
  1-2: pose proof (inv_up _ HI) as HU; unfold upInv in HU; rewrite Hpc in HU;
       rewrite HU; now exists (upRun gateValue).
  all: rewrite <- (up_read_gate s HI) by (rewrite Hpc; discriminate); apply isPrefix_app.
Qed.

Lemma slotResult_not_needed t : needed t = false -> slotResult t = None.
Proof. destruct t; simpl; intros ->; reflexivity. Qed.

(** What is sent for a slot is the outcome of the slot, but for the second
    outcome of the bring-up goroutine. *)
Lemma sentFor_prefix s t :
  Inv s ->
  isPrefix (sentFor t (log s))
    (slotResult t :: (if reportsTwice then match t with ClusterUp => [None] | _ => [] end
                      else [])).
Proof.
  intros HI. destruct (needed t) eqn:Hn.
  2: { pose proof (sentFor_not_needed s t HI Hn) as [r Hr].
       rewrite (slotResult_not_needed t Hn). exists (r ++ if reportsTwice
         then match t with ClusterUp => [None] | _ => [] end else []).
       rewrite app_assoc, <- Hr. reflexivity. }
  rewrite (sentFor_split s t HI), Hn.
  assert (Hx : forall a b c : list error, isPrefix a b -> isPrefix a (b ++ c)).
  { intros a b c [r ->]. exists (r ++ c). now rewrite app_assoc. }
  destruct t; simpl in Hn; simpl slotResult; rewrite Hn.
  - apply (Hx _ [buildOutcome]). pose proof (sentForIn_build ClusterBuild) as E.
    cbv iota in E. rewrite <- E.
    unfold sentForIn. rewrite <- (build_pick _ s (inv_build _ HI)). apply isPrefix_app.
  - apply (Hx _ [testOutcome]). pose proof (sentForIn_test TestBuild) as E.
    cbv iota in E. rewrite <- E.
    unfold sentForIn. rewrite <- (test_pick _ s (inv_test _ HI)). apply isPrefix_app.
  - apply (Hx _ [w PushImage]). pose proof (sentForIn_push ImagePush) as E.
    cbv iota in E. rewrite <- E.
    unfold sentForIn. rewrite <- (push_pick _ s (inv_push _ HI)). apply isPrefix_app.
  - pose proof (pickE_prefix (slotOutcome ClusterUp) _ _ (up_events_gate s HI)) as Hp.
    fold (sentForIn ClusterUp (upRun gateValue)) in Hp. rewrite sentForIn_up_gate in Hp.
    unfold reportsTwice. rewrite Hn. simpl andb.
    destruct (gateValue && negb (deploymentStrat f =? "gce")
              && negb (deploymentStrat f =? "gke")); exact Hp.
Qed.

Lemma sentFor_values s t x :
  Inv s -> In x (sentFor t (log s)) -> x = slotResult t \/ x = None.
Proof.
  intros HI Hin. apply (isPrefix_in _ _ x (sentFor_prefix s t HI)) in Hin.
  destruct Hin as [<-|Hin]; [now left|]. right.
  destruct reportsTwice, t; simpl in Hin; intuition.
Qed.

Lemma sentOn_in_slot l x : In x (sentOn l) -> exists t, In x (sentFor t l).
Proof.
  induction l as [|[u e] l IH]; [intros []|].
  unfold sentOn, sentFor, pick in *. simpl.
  destruct e as [| | | | |slot y| | |]; simpl; try exact IH.
  intros [<-|H].
  - exists slot. apply in_or_app. left. destruct slot; now left.
  - destruct (IH H) as [t Ht]. exists t. apply in_or_app. now right.
Qed.

Lemma sentFor_in_sentOn l t x : In x (sentFor t l) -> In x (sentOn l).
Proof.
  induction l as [|[u e] l IH]; [intros []|].
  unfold sentOn, sentFor, pick in *. simpl.
  destruct e as [| | | | |slot y| | |]; simpl; try exact IH.
  intros H. apply in_app_or in H as [H|H]; [left | right; exact (IH H)].
  destruct slot, t; simpl in H; intuition.
Qed.

Lemma tasksSucceed_slot t : tasksSucceed = true -> slotResult t = None.
Proof.
  unfold tasksSucceed. intros H.
  apply andb_true_iff in H as [H H4]. apply andb_true_iff in H as [H H3].
  apply andb_true_iff in H as [H1 H2].
  destruct t.
  - destruct (slotResult ClusterBuild); [discriminate H1 | reflexivity].
  - destruct (slotResult TestBuild); [discriminate H2 | reflexivity].
  - destruct (slotResult ImagePush); [discriminate H3 | reflexivity].
  - destruct (slotResult ClusterUp); [discriminate H4 | reflexivity].
Qed.

Lemma tasksFail_slot : tasksSucceed = false -> exists t, slotResult t <> None.
Proof.
  unfold tasksSucceed. intros H.
  destruct (slotResult ClusterBuild) eqn:E1; [exists ClusterBuild; congruence|].
  destruct (slotResult TestBuild) eqn:E2; [exists TestBuild; congruence|].
  destruct (slotResult ImagePush) eqn:E3; [exists ImagePush; congruence|].
  destruct (slotResult ClusterUp) eqn:E4; [exists ClusterUp; congruence|].
  discriminate.
Qed.

Lemma firstFailure_all_nil l : (forall x, In x l -> x = None) -> firstFailure l = None.
Proof.
  induction l as [|[e|] l IH]; simpl; intros H; [reflexivity | | ].
  - discriminate (H (Some e) (or_introl eq_refl)).
  - apply IH. intros x Hx. apply H. now right.
Qed.

Lemma firstFailure_some l e : In (Some e) l -> firstFailure l <> None.
Proof.
  induction l as [|[y|] l IH]; simpl; [intros [] | discriminate |].
  intros [H|H]; [discriminate | exact (IH H)].
Qed.

(** No task fails: every outcome is a success. *)
Lemma aggregate_success s :
  Inv s -> tasksSucceed = true -> firstFailure (received s) = None.
Proof.
  intros HI Ht. apply firstFailure_all_nil. intros x Hx.
  assert (Ha : In x (arrivals s)).
  { rewrite (inv_chan _ HI). apply in_or_app. now left. }
  destruct (sentOn_in_slot _ _ Ha) as [t Hin].
  destruct (sentFor_values s t x HI Hin) as [-> | ->]; [|reflexivity].
  exact (tasksSucceed_slot t Ht).
Qed.

Lemma received_firstn s :
  Inv s -> List.length (received s) = 4 -> received s = firstn 4 (arrivals s).
Proof.
  intros HI H4. rewrite (inv_chan _ HI), <- H4, firstn_app, Nat.sub_diag, firstn_all.
  simpl. now rewrite app_nil_r.
Qed.

Lemma sentFor_app t l1 l2 : sentFor t (l1 ++ l2) = sentFor t l1 ++ sentFor t l2.
Proof. apply pick_app. Qed.

Lemma in_firstn_early {A} (a b : list A) x n :
  List.length a < n -> In x (firstn n (a ++ x :: b)).
Proof.
  intros H. rewrite firstn_app. apply in_or_app. right.
  destruct (n - List.length a) as [|k] eqn:E; [lia|]. now left.
Qed.

(** The bring-up goroutine reports twice: its failure is among the first 4
    outcomes, since nothing but the outcomes of the three other slots can
    come before it. *)
Lemma up_failure_received s :
  Inv s -> List.length (received s) = 4 -> reportsTwice = true ->
  In upOutcome (received s) /\ upOutcome <> None.
Proof.
  intros HI H4 Hb.
  assert (Hne : upOutcome <> None).
  { unfold reportsTwice in Hb. unfold upOutcome.
    apply andb_true_iff in Hb as [Hb H3]. apply andb_true_iff in Hb as [Hb H2].
    apply andb_true_iff in Hb as [_ H1]. rewrite H1. simpl.
    apply negb_true_iff in H2, H3. rewrite H2, H3. unfold Errorf. discriminate. }
  split; [|exact Hne].
  assert (Hn : bringupCluster f = true).
  { unfold reportsTwice in Hb. destruct (bringupCluster f); [reflexivity | discriminate]. }
  pose proof (sentFor_prefix s ClusterUp HI) as Hp. rewrite Hb in Hp.
  simpl slotResult in Hp. rewrite Hn in Hp.
  pose proof (f_equal (@List.length _) (inv_chan _ HI)) as HL.
  rewrite length_app, H4 in HL. unfold arrivals in HL. rewrite sentOn_by_slot in HL.
  pose proof (sentFor_le_one_bg s ClusterBuild HI ltac:(discriminate)) as B1.
  pose proof (sentFor_le_one_bg s TestBuild HI ltac:(discriminate)) as B2.
  pose proof (sentFor_le_one_bg s ImagePush HI ltac:(discriminate)) as B3.
  assert (Hin : In upOutcome (sentFor ClusterUp (log s))).
  { destruct Hp as [r Hr]. destruct (sentFor ClusterUp (log s)) as [|y l];
      [simpl in HL; lia|]. injection Hr as -> _. now left. }
  unfold sentFor, pick in Hin. apply in_flat_map in Hin as ([u e] & Hlog & He).
  apply in_split in Hlog as (l1 & l2 & Hlog).
  assert (Hev : e = Send ClusterUp upOutcome).
  { simpl in He. destruct e as [| | | | |slot y| | |]; simpl in He; try contradiction.
    destruct slot; simpl in He; try contradiction. destruct He as [->|[]]. reflexivity. }
  subst e. clear He.
  assert (H1 : sentFor ClusterUp l1 = []).
  { rewrite Hlog, sentFor_app in Hp.
    change (sentFor ClusterUp ((u, Send ClusterUp upOutcome) :: l2))
      with (upOutcome :: sentFor ClusterUp l2) in Hp.
    destruct Hp as [r Hr]. destruct (sentFor ClusterUp l1) as [|y [|z l]]; [reflexivity | |].
    - simpl in Hr. injection Hr as _ Hr. congruence.
    - simpl in Hr. injection Hr as _ _ Hr. destruct l; discriminate. }
  assert (Hle : forall t, List.length (sentFor t l1) <= List.length (sentFor t (log s))).
  { intros t. rewrite Hlog, sentFor_app, length_app. lia. }
  pose proof (Hle ClusterBuild). pose proof (Hle TestBuild). pose proof (Hle ImagePush).
  assert (H3 : List.length (sentOn l1) <= 3).
  { rewrite sentOn_by_slot, H1. simpl. lia. }
  rewrite (received_firstn s HI H4). unfold arrivals. rewrite Hlog.
  unfold sentOn. rewrite pick_app. fold (sentOn l1).
  change (pick _ ((u, Send ClusterUp upOutcome) :: l2))
    with (upOutcome :: sentOn l2).
  apply in_firstn_early. lia.
Qed.

Lemma sentFor_le_one_once s t :
  Inv s -> reportsTwice = false -> List.length (sentFor t (log s)) <= 1.
Proof.
  intros HI Hb. pose proof (isPrefix_length _ _ (sentFor_prefix s t HI)) as H.
  rewrite Hb in H. exact H.
Qed.

(** A task fails: a failure is among the 4 outcomes [handle] receives. *)
Lemma failure_received s :
  Inv s -> List.length (received s) = 4 -> tasksSucceed = false ->
  firstFailure (received s) <> None.
Proof.
  intros HI H4 Ht. destruct reportsTwice eqn:Hb.
  - destruct (up_failure_received s HI H4 Hb) as [Hin Hne].
    destruct upOutcome as [e|]; [|congruence]. exact (firstFailure_some _ e Hin).
  - destruct (tasksFail_slot Ht) as [t Hf].
    pose proof (inv_chan _ HI) as HC. unfold chanInv in HC.
    pose proof (f_equal (@List.length _) HC) as HL.
    rewrite length_app, H4 in HL. unfold arrivals in HL. rewrite sentOn_by_slot in HL.
    pose proof (sentFor_le_one_once s ClusterBuild HI Hb).
    pose proof (sentFor_le_one_once s TestBuild HI Hb).
    pose proof (sentFor_le_one_once s ImagePush HI Hb).
    pose proof (sentFor_le_one_once s ClusterUp HI Hb).
    assert (Hc : errChan s = []) by (destruct (errChan s); [reflexivity | simpl in HL; lia]).
    rewrite Hc, app_nil_r in HC.
    assert (Hone : List.length (sentFor t (log s)) = 1) by (destruct t; lia).
    pose proof (sentFor_prefix s t HI) as [r Hr].
    destruct (sentFor t (log s)) as [|y [|z l]] eqn:Hs; try discriminate.
    injection Hr as Hy _. subst y.
    assert (Hin : In (slotResult t) (received s)).
    { rewrite <- HC. apply (sentFor_in_sentOn _ t). rewrite Hs. now left. }
    destruct (slotResult t) as [e|]; [|congruence]. exact (firstFailure_some _ e Hin).
Qed.

Lemma preludeFailure_fails base r : preludeFailure = Some (base, r) -> r <> None.
Proof.
  unfold preludeFailure, Errorf. break_goal; intros H; try discriminate;
    injection H as <- <-; discriminate.
Qed.

(** [handle] returns [nil] exactly when nothing fails but a teardown. *)
Lemma returns_nil_iff s ret :
  Inv s -> pcMain s = MReturned ret -> (ret = None <-> runSucceeds = true).
Proof.
  intros HI Hpc. destruct (returned_events s ret HI Hpc) as (_ & Hret & _ & Hlen).
  unfold runSucceeds. unfold returnPoint in Hret.
  destruct preludeFailure as [[base r]|] eqn:Hp.
  { simpl in Hret. subst ret. split; [|discriminate].
    intros E. exfalso. exact (preludeFailure_fails base r Hp E). }
  specialize (Hlen eq_refl). simpl in Hret.
  destruct tasksSucceed eqn:Ht.
  - rewrite (aggregate_success s HI Ht) in Hret. unfold afterAggregate in Hret.
    subst ret. simpl andb. unfold Errorf, testsResult.
    destruct (w InstallDriver); simpl; [split; discriminate|].
    destruct selectedTests as [o|]; simpl; [|split; discriminate].
    destruct (w o); simpl; unfold Errorf; split; congruence.
  - simpl. split; [|discriminate]. intros ->. exfalso.
    pose proof (failure_received s HI Hlen Ht) as Hf.
    destruct (firstFailure (received s)); [|congruence].
    unfold afterAggregate in Hret. discriminate.
Qed.

Lemma aggregate_nil_iff s firstErr :
  reachable s -> pcMain s = M319 firstErr -> (firstErr = None <-> tasksSucceed = true).
Proof.
  intros Hr Hpc. pose proof (reachable_Inv _ Hr) as HI.
  destruct (aggregate_at_319 s firstErr Hr Hpc) as (_ & H4 & ->).
  destruct tasksSucceed eqn:Ht.
  - split; [reflexivity|]. intros _. exact (aggregate_success s HI Ht).
  - split; [|discriminate]. intros E. exfalso. exact (failure_received s HI H4 Ht E).
Qed.

(** *** The calls of a run that has returned *)

Lemma aggregate_is_tasks s :
  Inv s -> List.length (received s) = 4 ->
  firstFailure (received s) = None <-> tasksSucceed = true.
Proof.
  intros HI H4. destruct tasksSucceed eqn:Ht.
  - split; [reflexivity|]. intros _. exact (aggregate_success s HI Ht).
  - split; [|discriminate]. intros E. exfalso. exact (failure_received s HI H4 Ht E).
Qed.

(** The events of [handle] between the loop and its [return]. *)
Lemma after_loop s ret :
  Inv s -> pcMain s = MReturned ret -> preludeFailure = None ->
  eventsOf Main (log s)
  = (E312 ++ map Recv (received s) ++ fst (afterAggregate (if tasksSucceed then None else ret)))
    ++ unwind (rev (registeredIn E312
                    ++ registeredIn (fst (afterAggregate
                                            (if tasksSucceed then None else ret))))).
Proof.
  intros HI Hpc Hp. destruct (returned_events s ret HI Hpc) as (He & Hret & _ & Hlen).
  specialize (Hlen Hp). unfold returnPoint in He, Hret. rewrite Hp in He, Hret.
  simpl in He, Hret.
  assert (Hf : afterAggregate (firstFailure (received s))
               = afterAggregate (if tasksSucceed then None else ret)).
  { destruct tasksSucceed eqn:Ht.
    - now rewrite (proj2 (aggregate_is_tasks s HI Hlen) Ht).
    - destruct (firstFailure (received s)) as [e|] eqn:Hff.
      + subst ret. reflexivity.
      + exfalso. apply (proj1 (aggregate_is_tasks s HI Hlen)) in Hff. congruence. }
  rewrite Hf in He. rewrite He at 1.
  now rewrite !registeredIn_app, registeredIn_map_Recv.
Qed.

Lemma afterAggregate_failure e : afterAggregate (Some e) = ([], Some e).
Proof. reflexivity. Qed.

Lemma returned_failure s ret :
  Inv s -> pcMain s = MReturned ret -> preludeFailure = None -> tasksSucceed = false ->
  exists e, ret = Some e.
Proof.
  intros HI Hpc Hp Ht. destruct (returned_events s ret HI Hpc) as (_ & Hret & _ & Hlen).
  specialize (Hlen Hp). pose proof (failure_received s HI Hlen Ht) as Hf.
  unfold returnPoint in Hret. rewrite Hp in Hret. simpl in Hret.
  destruct (firstFailure (received s)) as [e|]; [|congruence].
  exists e. exact Hret.
Qed.

(** The teardowns of a run that got past its set-up: the driver, the cluster,
    the image, the two temporary directories, the project and the umask, in
    this order, each when it was deferred. *)
Lemma teardown_sequence s ret :
  Inv s -> pcMain s = MReturned ret -> preludeFailure = None ->
  called isTeardownOp (log s)
  = (if tasksSucceed && teardownDriver f then [DeleteDriver] else [])
    ++ (if teardownCluster f
        then if deploymentStrat f =? "gce" then [ClusterDownGCE]
             else if deploymentStrat f =? "gke" then [ClusterDownGKE] else []
        else [])
    ++ (if doDriverBuild f && teardownCluster f then [DeleteImage] else [])
    ++ [RemoveTestTempDir; RemoveK8sTempDir]
    ++ (if inProw f then [RestoreEnvProject] else [])
    ++ [RestoreUmask].
Proof.
  intros HI Hpc Hp. rewrite (called_main _ s HI) by (intros []; simpl; congruence).
  rewrite (after_loop s ret HI Hpc Hp).
  assert (Hfail : tasksSucceed = false -> exists e, ret = Some e)
    by exact (returned_failure s ret HI Hpc Hp).
  rewrite !calledIn_app, calledIn_map_Recv, calledIn_unwind, rev_app_distr, flat_map_app.
  rewrite (calledIn_E312 isTeardownOp) by (intros []; simpl; congruence).
  rewrite (calledIn_afterAggregate isTeardownOp) by (intros []; simpl; congruence).
  rewrite registeredIn_E312. simpl app.
  assert (Hreg : registeredIn (fst (afterAggregate (if tasksSucceed then None else ret)))
                 = if tasksSucceed && teardownDriver f then [DDeleteDriver] else []).
  { destruct tasksSucceed.
    - unfold afterAggregate, installEvents, callOf. simpl andb.
      destruct (w InstallDriver); [destruct (teardownDriver f); reflexivity|].
      destruct selectedTests; destruct (teardownDriver f); reflexivity.
    - destruct (Hfail eq_refl) as [e ->]. reflexivity. }
  rewrite Hreg.
  destruct (tasksSucceed && teardownDriver f), (inProw f), (doDriverBuild f),
    (teardownCluster f) eqn:Htc; simpl; rewrite ?Htc; unfold klogIfErr;
    break_goal; reflexivity.
Qed.

(** On every path, the umask is restored, once, and it is the last of the
    teardowns. *)
Lemma umask_restored_last s ret :
  Inv s -> pcMain s = MReturned ret ->
  exists l, called isTeardownOp (log s) = l ++ [RestoreUmask] /\ ~ In RestoreUmask l.
Proof.
  intros HI Hpc. destruct preludeFailure as [[base r]|] eqn:Hp.
  - rewrite (called_main _ s HI) by (intros []; simpl; congruence).
    destruct (returned_events s ret HI Hpc) as (He & _ & _ & _).
    rewrite He. unfold returnPoint. rewrite Hp. simpl fst. clear He.
    revert Hp. unfold preludeFailure.
    break_goal; intros Hq; try discriminate; injection Hq as <- <-;
      unfold_E; simpl; unfold klogIfErr; break_goal;
      first [ exists []; split; [reflexivity | simpl; tauto]
            | exists [RestoreEnvProject]; split;
              [reflexivity | simpl; intuition discriminate] ].
  - rewrite (teardown_sequence s ret HI Hpc Hp).
    eexists. split.
    + rewrite !app_assoc. reflexivity.
    + rewrite !in_app_iff. simpl.
      destruct (tasksSucceed && teardownDriver f), (teardownCluster f),
        (deploymentStrat f =? "gce"), (deploymentStrat f =? "gke"),
        (doDriverBuild f), (inProw f); simpl; intuition discriminate.
Qed.

(** The sequential phase of a run: the driver is installed when no task
    failed, and one test suite is run when the installation succeeded. *)
Lemma sequential_calls s ret :
  Inv s -> pcMain s = MReturned ret ->
  called isInstallOrTest (log s)
  = match preludeFailure with
    | Some _ => []
    | None =>
        if tasksSucceed
        then InstallDriver ::
             (if isNil (w InstallDriver)
              then if negb (storageClassFile f =? "") then [RunCSITests]
                   else if migrationTest f then [RunMigrationTests] else []
              else [])
        else []
    end.
Proof.
  intros HI Hpc. rewrite (called_main _ s HI) by (intros []; simpl; congruence).
  destruct preludeFailure as [[base r]|] eqn:Hp.
  - destruct (returned_events s ret HI Hpc) as (He & _ & _ & _).
    rewrite He. unfold returnPoint. rewrite Hp. simpl fst. clear He.
    rewrite calledIn_app, calledIn_unwind_install, app_nil_r. simpl.
    pose proof (pickE_prefix (fun e => match e with
                                       | Call o _ => if isInstallOrTest o then Some o else None
                                       | _ => None
                                       end) _ _
                  (isPrefix_trans _ _ _ (preludeFailure_prefix _ _ Hp)
                     (isPrefix_trans _ _ _ prefix_164_239 prefix_239_312))) as Hx.
    fold (calledIn isInstallOrTest base) in Hx. fold (calledIn isInstallOrTest E312) in Hx.
    rewrite (calledIn_E312 isInstallOrTest) in Hx by (intros []; simpl; congruence).
    exact (isPrefix_nil _ Hx).
  - rewrite (after_loop s ret HI Hpc Hp).
    rewrite !calledIn_app, calledIn_map_Recv, calledIn_unwind_install.
    rewrite (calledIn_E312 isInstallOrTest) by (intros []; simpl; congruence).
    simpl. rewrite app_nil_r.
    destruct tasksSucceed eqn:Ht.
    + unfold afterAggregate, installEvents, callOf, selectedTests, calledIn, pickE.
      destruct (w InstallDriver); simpl; [destruct (teardownDriver f); reflexivity|].
      destruct (negb (storageClassFile f =? "")); simpl;
        [destruct (teardownDriver f); reflexivity|].
      destruct (migrationTest f); simpl; destruct (teardownDriver f); reflexivity.
    + destruct (returned_failure s ret HI Hpc Hp Ht) as [e ->]. reflexivity.
Qed.

(** No test suite is selected: [handle] finds out after it has installed the
    driver. *)
Lemma no_suite_selected s ret :
  Inv s -> pcMain s = MReturned ret ->
  preludeFailure = None -> tasksSucceed = true -> w InstallDriver = None ->
  storageClassFile f = "" -> migrationTest f = false ->
  ret = Some "Did not run either CSI or Migration test".
Proof.
  intros HI Hpc Hp Ht Hi Hs Hm.
  destruct (returned_events s ret HI Hpc) as (_ & Hret & _ & _).
  unfold returnPoint in Hret. rewrite Hp in Hret. simpl in Hret.
  rewrite (aggregate_success s HI Ht) in Hret.
  unfold afterAggregate, selectedTests in Hret. now rewrite Hi, Hs, Hm in Hret.
Qed.

(** *** The bring-up of the cluster (lines 246-277) *)

Lemma calledIn_up_gate :
  bringupCluster f = true ->
  calledIn isClusterUp (upRun gateValue) = clusterUpCalls.
Proof.
  intros Hb. unfold clusterUpCalls, upRun. rewrite Hb. simpl andb.
  destruct gateValue; simpl; [|reflexivity].
  destruct (deploymentStrat f =? "gce"); simpl.
  - unfold_runs. unfold calledIn, pickE, isNil.
    destruct (w StatKubectl), (w SetenvKubectl), (negb (kubeFeatureGates f =? "")),
      (w SetenvFeatureGates), (w ClusterUpGCE); reflexivity.
  - destruct (deploymentStrat f =? "gke"); simpl; unfold_runs; unfold calledIn, pickE;
      break_goal; reflexivity.
Qed.

(** Only the bring-up goroutine brings a cluster up. *)
Lemma called_up s :
  Inv s -> called isClusterUp (log s) = calledIn isClusterUp (eventsOf (Bg ClusterUp) (log s)).
Proof.
  intros HI.
  apply (pick_only (fun e => match e with
                             | Call o _ => if isClusterUp o then Some o else None
                             | _ => None
                             end) (Bg ClusterUp)).
  intros [|[]] Hs; try discriminate.
  - apply main_pick_nil; [| |exact (inv_main _ HI)].
    + intros [] H; try reflexivity; try discriminate. destruct o; try discriminate; reflexivity.
    + unfold_E. break_goal; reflexivity.
  - apply (build_pick_nil _ s (inv_build _ HI)). unfold_runs. break_goal; reflexivity.
  - apply (test_pick_nil _ s (inv_test _ HI)). unfold_runs. break_goal; reflexivity.
  - apply (push_pick_nil _ s (inv_push _ HI)). reflexivity.
Qed.

Lemma clusterUp_calls s :
  Inv s ->
  isPrefix (called isClusterUp (log s)) clusterUpCalls /\
  (pcUp s = UDone -> called isClusterUp (log s) = clusterUpCalls).
Proof.
  intros HI. rewrite (called_up s HI).
  destruct (bringupCluster f) eqn:Hb.
  - rewrite <- (calledIn_up_gate Hb). split.
    + apply pickE_prefix. exact (up_events_gate s HI).
    + intros Hpc. pose proof (up_read_gate s HI) as Hg. rewrite Hpc in Hg.
      simpl in Hg. rewrite app_nil_r in Hg. rewrite Hg by discriminate. reflexivity.
  - assert (Hn : needed ClusterUp = false) by exact Hb.
    rewrite (not_needed_no_events s ClusterUp HI Hn). unfold clusterUpCalls. rewrite Hb.
    split; [apply isPrefix_refl | reflexivity].
Qed.

(** *** Where a goroutine waits *)

(** [handle] waits nowhere but in the loop of line 312, for an outcome. *)
Lemma main_waits s :
  Inv s -> stepMain s = None ->
  (exists i fe, pcMain s = M313 i fe /\ i < 4 /\ errChan s = [])
  \/ exists ret, pcMain s = MReturned ret.
Proof.
  intros HI EM.
  destruct (stepMain_blocked s EM) as [[Hf Hs]|[[Hpc Hg]|[[(i & fe & Hpc) Hch]|Hret]]].
  - destruct (chan_full_main s HI Hf) as (i & fe & Hpc). rewrite Hpc in Hs. discriminate.
  - exfalso. exact (Hg (gate_empty_at_197 s HI Hpc)).
  - left. exists i, fe. repeat split; auto.
    pose proof (inv_main _ HI) as HM. unfold mainInv in HM. rewrite Hpc in HM. tauto.
  - now right.
Qed.

(** A slot without an outcome yet: the channel is not full. *)
Lemma chan_not_full s t :
  Inv s -> reportsTwice = false -> sentFor t (log s) = [] ->
  List.length (errChan s) < 4.
Proof.
  intros HI Hb Ht.
  pose proof (f_equal (@List.length _) (inv_chan _ HI)) as HL.
  rewrite length_app in HL. unfold arrivals in HL. rewrite sentOn_by_slot in HL.
  pose proof (sentFor_le_one_once s ClusterBuild HI Hb).
  pose proof (sentFor_le_one_once s TestBuild HI Hb).
  pose proof (sentFor_le_one_once s ImagePush HI Hb).
  pose proof (sentFor_le_one_once s ClusterUp HI Hb).
  destruct t; rewrite Ht in *; simpl in *; lia.
Qed.

(** A goroutine that still has an outcome to send has sent none. *)
Lemma pending_outcome s t (rest : list Event) :
  Inv s -> reportsTwice = false -> idle t s = false ->
  (exists run, eventsOf (Bg t) (log s) ++ rest = run
               /\ List.length (sentForIn t run) <= 1) ->
  sentForIn t rest <> [] ->
  sentFor t (log s) = [].
Proof.
  intros HI Hb Hi (run & Hrun & Hlen) Hrest.
  assert (Hn : needed t = true).
  { destruct (needed t) eqn:Hn; [reflexivity|].
    rewrite (idle_not_needed s t HI Hn) in Hi. discriminate. }
  rewrite (sentFor_split s t HI), Hn.
  rewrite <- Hrun in Hlen. unfold sentForIn in *. rewrite pickE_app, length_app in Hlen.
  destruct (pickE (slotOutcome t) (eventsOf (Bg t) (log s))); [reflexivity|].
  destruct (pickE (slotOutcome t) rest); [congruence | simpl in Hlen; lia].
Qed.

Lemma sendErr_blocked t slot e s :
  sendErr t slot e s = None -> 4 <= List.length (errChan s).
Proof.
  unfold sendErr, numTasks. destruct (List.length (errChan s) <? 4)%nat eqn:E;
    [discriminate|]. intros _. now apply Nat.ltb_ge in E.
Qed.

Lemma sendDep_blocked t b s : sendDep t b s = None -> k8sDependencyChan s <> [].
Proof.
  unfold sendDep. intros H E. rewrite E in H. discriminate.
Qed.

(** With one outcome for each slot, the goroutines of the two builds and of
    the image push never wait. *)
Lemma build_never_waits s :
  Inv s -> reportsTwice = false -> stepBuild s = None -> ended ClusterBuild s = true.
Proof.
  intros HI Hb H. unfold stepBuild, option_map in H. simpl.
  pose proof (inv_build _ HI) as HB. unfold buildInv in HB.
  assert (Hrun : forall rest, eventsOf (Bg ClusterBuild) (log s) ++ rest = buildRun ->
                 exists run, eventsOf (Bg ClusterBuild) (log s) ++ rest = run
                             /\ List.length (sentForIn ClusterBuild run) <= 1).
  { intros rest E. exists buildRun. split; [exact E|]. now rewrite sentForIn_build. }
  destruct (pcBuild s) eqn:Hpc; try reflexivity; try discriminate; exfalso; simpl in HB.
  all: try (match type of H with
            | context [sendErr ?t ?slot ?e ?x] =>
                destruct (sendErr t slot e x) eqn:Hs; [discriminate|];
                apply sendErr_blocked in Hs;
                pose proof (chan_not_full s ClusterBuild HI Hb
                              (pending_outcome s ClusterBuild _ HI Hb
                                 ltac:(simpl; now rewrite Hpc) (Hrun _ HB)
                                 ltac:(discriminate))); lia
            end).
  all: match type of H with
       | context [sendDep ?t ?b ?x] =>
           destruct (sendDep t b x) eqn:Hs; [discriminate|];
           apply sendDep_blocked in Hs; apply Hs;
           apply (gate_empty_before_write s HI); rewrite Hpc; auto
       end.
Qed.

Lemma test_never_waits s :
  Inv s -> reportsTwice = false -> stepTest s = None -> ended TestBuild s = true.
Proof.
  intros HI Hb H. unfold stepTest, option_map in H. simpl.
  pose proof (inv_test _ HI) as HB. unfold testInv in HB.
  assert (Hrun : forall rest, eventsOf (Bg TestBuild) (log s) ++ rest = testRun ->
                 exists run, eventsOf (Bg TestBuild) (log s) ++ rest = run
                             /\ List.length (sentForIn TestBuild run) <= 1).
  { intros rest E. exists testRun. split; [exact E|]. now rewrite sentForIn_test. }
  destruct (pcTest s) eqn:Hpc; try reflexivity; try discriminate; exfalso; simpl in HB.
  all: match type of H with
       | context [sendErr ?t ?slot ?e ?x] =>
           destruct (sendErr t slot e x) eqn:Hs; [discriminate|];
           apply sendErr_blocked in Hs;
           pose proof (chan_not_full s TestBuild HI Hb
                         (pending_outcome s TestBuild _ HI Hb
                            ltac:(simpl; now rewrite Hpc) (Hrun _ HB)
                            ltac:(discriminate))); lia
       end.
Qed.

Lemma push_never_waits s :
  Inv s -> reportsTwice = false -> stepPush s = None -> ended ImagePush s = true.
Proof.
  intros HI Hb H. unfold stepPush, option_map in H. simpl.
  pose proof (inv_push _ HI) as HB. unfold pushInv in HB.
  assert (Hrun : forall rest, eventsOf (Bg ImagePush) (log s) ++ rest = pushRun ->
                 exists run, eventsOf (Bg ImagePush) (log s) ++ rest = run
                             /\ List.length (sentForIn ImagePush run) <= 1).
  { intros rest E. exists pushRun. split; [exact E|]. now rewrite sentForIn_push. }
  destruct (pcPush s) eqn:Hpc; try reflexivity; try discriminate; exfalso; simpl in HB.
  all: match type of H with
       | context [sendErr ?t ?slot ?e ?x] =>
           destruct (sendErr t slot e x) eqn:Hs; [discriminate|];
           apply sendErr_blocked in Hs;
           pose proof (chan_not_full s ImagePush HI Hb
                         (pending_outcome s ImagePush _ HI Hb
                            ltac:(simpl; now rewrite Hpc) (Hrun _ HB)
                            ltac:(discriminate))); lia
       end.
Qed.

(** The bring-up goroutine waits nowhere but at the gate. *)
Lemma up_waits s :
  Inv s -> reportsTwice = false -> stepUp s = None ->
  ended ClusterUp s = true \/ (pcUp s = U241 /\ k8sDependencyChan s = []).
Proof.
  intros HI Hb H.
  destruct (ended ClusterUp s) eqn:He; [now left|]. right.
  assert (Hi : idle ClusterUp s = false).
  { simpl in *. destruct (pcUp s); try reflexivity; discriminate. }
  destruct (pcUp s) eqn:Hpc; try (simpl in He; rewrite Hpc in He; discriminate).
  { unfold stepUp in H. rewrite Hpc in H. destruct (k8sDependencyChan s); [auto|discriminate]. }
  all: exfalso.
  all: assert (Hn : bringupCluster f = true)
         by (pose proof (idle_not_needed s ClusterUp HI) as Hx; simpl needed in Hx;
             destruct (bringupCluster f); [reflexivity | rewrite Hx in Hi; [discriminate|reflexivity]]).
  all: pose proof (up_read_gate s HI) as Hg; rewrite Hpc in Hg;
    specialize (Hg ltac:(discriminate) ltac:(discriminate)).
  all: assert (Hlen : List.length (sentForIn ClusterUp (upRun gateValue)) <= 1)
         by (rewrite sentForIn_up_gate; unfold reportsTwice in Hb; rewrite Hn in Hb;
             simpl andb in Hb; rewrite Hb; simpl; lia).
  all: unfold stepUp, option_map in H; rewrite Hpc in H.
  all: try (match type of H with
            | context [sendErr ?t ?slot ?e ?x] =>
                destruct (sendErr t slot e x) eqn:Hs; [discriminate|];
                apply sendErr_blocked in Hs;
                pose proof (chan_not_full s ClusterUp HI Hb
                              (pending_outcome s ClusterUp _ HI Hb Hi
                                 (ex_intro _ _ (conj Hg Hlen))
                                 ltac:(simpl; discriminate))); lia
            end).
  all: revert H; break_goal; discriminate.
Qed.

(** *** A failure of the set-up (lines 119-161) *)






(** *** The failure that is returned *)

Lemma firstFailure_in l e : firstFailure l = Some e -> In (Some e) l.
Proof.
  induction l as [|[y|] l IH]; simpl; [discriminate | |].
  - intros H. injection H as ->. now left.
  - intros H. right. exact (IH H).
Qed.

(** A task fails: what [handle] returns is the outcome of a task that failed. *)
Lemma returned_failure_source s ret :
  Inv s -> pcMain s = MReturned ret -> preludeFailure = None -> tasksSucceed = false ->
  ret <> None /\ exists t, slotResult t = ret.
Proof.
  intros HI Hpc Hp Ht. destruct (returned_events s ret HI Hpc) as (_ & Hret & _ & Hlen).
  specialize (Hlen Hp). pose proof (failure_received s HI Hlen Ht) as Hf.
  unfold returnPoint in Hret. rewrite Hp in Hret. simpl in Hret.
  destruct (firstFailure (received s)) as [e|] eqn:Hff; [|congruence].
  simpl in Hret. subst ret. split; [discriminate|].
  apply firstFailure_in in Hff.
  assert (Ha : In (Some e) (arrivals s)).
  { rewrite (inv_chan _ HI). apply in_or_app. now left. }
  destruct (sentOn_in_slot _ _ Ha) as [t Hin].
  destruct (sentFor_values s t _ HI Hin) as [E|E]; [|discriminate].
  exists t. now symmetry.
Qed.

End Handle.

(** *** The outcome aggregation (lines 310-321) *)

(** C1, as the code has it: when [handle] reaches line 319, it has received
    exactly 4 outcomes, they are the first 4 that were sent on [errChan], and
    [firstErr] is the first failure among them in the order of arrival, or
    [nil] when all 4 are successes. *)
Theorem aggregate_first_arrival (f : Flags) (w : World) (s : State) (firstErr : error) :
  reachable f w s -> pcMain s = M319 firstErr ->
  List.length (received s) = 4 /\
  received s = firstn 4 (arrivals s) /\
  firstErr = firstFailure (firstn 4 (arrivals s)).
Proof.
  intros Hr Hpc. destruct (aggregate_at_319 f w s firstErr Hr Hpc) as (H1 & H2 & H3).
  repeat split; auto. now rewrite <- H1.
Qed.

Lemma aggregate_first_arrival_witness :
  exists s, run flagsGCE downloadAndPushFail pushFirst init = Some s /\
            pcMain s = M319 (Some "denied") /\
            arrivals s = [None; Some "denied";
                          Some "failed to download Kubernetes source: no route to host";
                          None] /\
            Some "denied" = firstFailure (firstn 4 (arrivals s)).
Proof.
  destruct (run flagsGCE downloadAndPushFail pushFirst init) as [s|] eqn:E;
    [|vm_compute in E; discriminate].
  exists s. split; [reflexivity|].
  assert (Hpc : pcMain s = M319 (Some "denied"))
    by (vm_compute in E; inversion E; reflexivity).
  assert (Hr : reachable flagsGCE downloadAndPushFail s)
    by (exact (run_reachable _ _ _ _ _ (reachable_init _ _) E)).
  split; [exact Hpc|]. split; [vm_compute in E; inversion E; reflexivity|].
  exact (proj2 (proj2 (aggregate_first_arrival _ _ _ _ Hr Hpc))).
Defined.

(** C1 as stated fails: with the same failing tasks, the aggregate is the
    failure of the image push (slot 2) when it arrives first, although the
    cluster build (slot 0) failed too; it is the failure of the cluster build
    when that one arrives first. *)
Lemma aggregate_not_by_slot :
  exists s1 s2,
    run flagsGCE downloadAndPushFail pushFirst init = Some s1 /\
    run flagsGCE downloadAndPushFail buildFirst init = Some s2 /\
    pcMain s1 = M319 (Some "denied") /\
    lowestSlotFailure (log s1)
    = Some "failed to download Kubernetes source: no route to host" /\
    pcMain s2 = M319 (Some "failed to download Kubernetes source: no route to host").
Proof.
  destruct (run flagsGCE downloadAndPushFail pushFirst init) as [s1|] eqn:E1;
    [|vm_compute in E1; discriminate].
  destruct (run flagsGCE downloadAndPushFail buildFirst init) as [s2|] eqn:E2;
    [|vm_compute in E2; discriminate].
  exists s1, s2. vm_compute in E1, E2. inversion E1. inversion E2.
  repeat split; reflexivity.
Qed.

(** *** The dependency gate (lines 173-198 and 239-245) *)

(** C4: when no Kubernetes version is set, the gate holds [true] whenever
    the bring-up goroutine is about to read it: the read of line 241 does not
    block, and the goroutine goes on to the switch of line 246. *)
Theorem gate_preseeded (f : Flags) (w : World) (s : State) :
  reachable f w s -> kubeVersion f = "" -> pcUp s = U241 ->
  k8sDependencyChan s = [true] /\
  exists s', step f w (Bg ClusterUp) s = Some s' /\
             pcUp s' = (if deploymentStrat f =? "gce" then U249
                        else if deploymentStrat f =? "gke" then U276
                        else U282).
Proof.
  intros Hr Hk Hpc.
  assert (Hn : needClusterBuild f = false) by (unfold needClusterBuild; now rewrite Hk).
  pose proof (gate_at_241 f w s Hr Hn Hpc) as Hg. split; [exact Hg|].
  unfold step, stepUp. rewrite Hpc, Hg. eexists. split; [reflexivity|]. reflexivity.
Qed.

Lemma gate_preseeded_witness :
  exists s, run flagsLocal allSucceed (steps 9 Main) init = Some s /\
            pcUp s = U241 /\ k8sDependencyChan s = [true].
Proof.
  destruct (run flagsLocal allSucceed (steps 9 Main) init) as [s|] eqn:E;
    [|vm_compute in E; discriminate].
  exists s. split; [reflexivity|].
  assert (Hpc : pcUp s = U241) by (vm_compute in E; inversion E; reflexivity).
  assert (Hr : reachable flagsLocal allSucceed s)
    by (exact (run_reachable _ _ _ _ _ (reachable_init _ _) E)).
  split; [exact Hpc|].
  exact (proj1 (gate_preseeded flagsLocal allSucceed s Hr eq_refl Hpc)).
Defined.

(** C5, as the code has it: when a Kubernetes version is set and its
    download or its build fails, the bring-up goroutine only ever reads
    [false] from the gate and then reports [nil]: it calls no external
    operation and logs nothing, and it has done both when [handle] has its 4
    outcomes.  The aggregate is then a failure, and it is the failure of the
    build when neither the test build nor the image push fails. *)
Theorem bringup_skipped_after_failed_build (f : Flags) (w : World) (s : State) :
  reachable f w s -> kubeVersion f <> "" ->
  w DownloadK8sSource <> None \/ w BuildK8s <> None ->
  isPrefix (eventsOf (Bg ClusterUp) (log s)) [DepRecv false; Send ClusterUp None] /\
  (pcUp s = UDone ->
   eventsOf (Bg ClusterUp) (log s) = [DepRecv false; Send ClusterUp None]) /\
  (forall firstErr,
      pcMain s = M319 firstErr ->
      firstErr <> None /\
      (bringupCluster f = true ->
       eventsOf (Bg ClusterUp) (log s) = [DepRecv false; Send ClusterUp None]) /\
      ((needTestBuild f = true -> testOutcome w = None) ->
       (doDriverBuild f = true -> w PushImage = None) ->
       firstErr = buildOutcome w)).
Proof.
  intros Hr Hk Hfail. pose proof (reachable_Inv f w s Hr) as HI.
  assert (Hn : needClusterBuild f = true).
  { unfold needClusterBuild. apply negb_true_iff. now apply String.eqb_neq. }
  assert (Hf : buildOutcome w <> None).
  { unfold buildOutcome, outcome, Errorf.
    destruct (w DownloadK8sSource); [discriminate|].
    destruct (w BuildK8s); [discriminate|]. destruct Hfail; congruence. }
  split; [exact (up_skips f w s HI Hn Hf)|]. split.
  - exact (up_done_skipped f w s HI Hn Hf).
  - intros firstErr Hpc.
    destruct (aggregate_after_failed_build f w s firstErr Hr Hn Hf Hpc) as [H1 H2].
    split; [exact H1|]. split; [|exact H2].
    intros Hb. exact (up_done_after_failed_build f w s firstErr HI Hn Hf Hpc Hb).
Qed.

Lemma bringup_skipped_after_failed_build_witness :
  exists s, run flagsGCE downloadAndPushFail buildFirst init = Some s /\
            eventsOf (Bg ClusterUp) (log s) = [DepRecv false; Send ClusterUp None].
Proof.
  destruct (run flagsGCE downloadAndPushFail buildFirst init) as [s|] eqn:E;
    [|vm_compute in E; discriminate].
  exists s. split; [reflexivity|].
  assert (Hpc : pcUp s = UDone) by (vm_compute in E; inversion E; reflexivity).
  assert (Hr : reachable flagsGCE downloadAndPushFail s)
    by (exact (run_reachable _ _ _ _ _ (reachable_init _ _) E)).
  assert (Hk : kubeVersion flagsGCE <> "") by discriminate.
  assert (Hf : downloadAndPushFail DownloadK8sSource <> None
               \/ downloadAndPushFail BuildK8s <> None) by (left; discriminate).
  exact (proj1 (proj2 (bringup_skipped_after_failed_build _ _ s Hr Hk Hf)) Hpc).
Defined.

(** C5 as stated fails in its last clause: the build fails and the bring-up
    reports a success, but the aggregate is the failure of the image push,
    which arrived first. *)
Lemma aggregate_other_failure_first :
  exists s,
    run flagsGCE downloadAndPushFail pushFirst init = Some s /\
    buildOutcome downloadAndPushFail
    = Some "failed to download Kubernetes source: no route to host" /\
    eventsOf (Bg ClusterUp) (log s) = [DepRecv false; Send ClusterUp None] /\
    pcMain s = M319 (Some "denied").
Proof.
  destruct (run flagsGCE downloadAndPushFail pushFirst init) as [s|] eqn:E;
    [|vm_compute in E; discriminate].
  exists s. vm_compute in E. inversion E. repeat split; reflexivity.
Qed.

(** C8, as the code has it: the cluster-build goroutine, once done, has
    written the gate exactly once on each of its three paths, right before
    its outcome on the path of success and right after it on the two paths of
    failure; the gate is never written twice in a run; and every event of the
    bring-up goroutine comes after a write to the gate. *)
Theorem gate_written_once (f : Flags) (w : World) (s : State) :
  reachable f w s ->
  (pcBuild s = BDone ->
   eventsOf (Bg ClusterBuild) (log s)
   = match w DownloadK8sSource, w BuildK8s with
     | Some err, _ =>
         [Call DownloadK8sSource (Some err);
          Send ClusterBuild (Errorf "failed to download Kubernetes source: " err);
          DepSend false]
     | None, Some err =>
         [Call DownloadK8sSource None; Call BuildK8s (Some err);
          Send ClusterBuild (Errorf "failed to build Kubernetes: " err);
          DepSend false]
     | None, None =>
         [Call DownloadK8sSource None; Call BuildK8s None;
          DepSend true; Send ClusterBuild None]
     end
   /\ List.length (depSent (log s)) = 1) /\
  List.length (depSent (log s)) <= 1 /\
  (forall l1 e l2, log s = l1 ++ (Bg ClusterUp, e) :: l2 -> depSent l1 <> []).
Proof.
  intros Hr. pose proof (reachable_Inv f w s Hr) as HI. repeat split.
  - destruct (build_done f w s HI H) as [E _]. rewrite E.
    unfold buildRun, buildFrom185.
    destruct (w DownloadK8sSource), (w BuildK8s); reflexivity.
  - exact (proj2 (build_done f w s HI H)).
  - exact (depSent_once f w s HI).
  - intros l1 e l2 Hl. exact (up_events_after_write f w s l1 e l2 Hr Hl).
Qed.

Lemma gate_written_once_witness :
  exists s, run flagsGCE allSucceed (steps 8 Main ++ steps 4 (Bg ClusterBuild)) init
            = Some s /\
            eventsOf (Bg ClusterBuild) (log s)
            = [Call DownloadK8sSource None; Call BuildK8s None;
               DepSend true; Send ClusterBuild None].
Proof.
  destruct (run flagsGCE allSucceed (steps 8 Main ++ steps 4 (Bg ClusterBuild)) init)
    as [s|] eqn:E; [|vm_compute in E; discriminate].
  exists s. split; [reflexivity|].
  assert (Hpc : pcBuild s = BDone) by (vm_compute in E; inversion E; reflexivity).
  assert (Hr : reachable flagsGCE allSucceed s)
    by (exact (run_reachable _ _ _ _ _ (reachable_init _ _) E)).
  exact (proj1 (proj1 (gate_written_once flagsGCE allSucceed s Hr) Hpc)).
Defined.

(** C8 as stated fails on the paths of failure: when the download fails, the
    goroutine reports its outcome first and writes the gate after it. *)
Lemma gate_written_after_outcome :
  exists s, run flagsGCE downloadAndPushFail (steps 8 Main ++ steps 3 (Bg ClusterBuild)) init
            = Some s /\
            pcBuild s = BDone /\
            eventsOf (Bg ClusterBuild) (log s)
            = [Call DownloadK8sSource (Some "no route to host");
               Send ClusterBuild
                 (Some "failed to download Kubernetes source: no route to host");
               DepSend false].
Proof.
  destruct (run flagsGCE downloadAndPushFail
              (steps 8 Main ++ steps 3 (Bg ClusterBuild)) init) as [s|] eqn:E;
    [|vm_compute in E; discriminate].
  exists s. vm_compute in E. inversion E. repeat split; reflexivity.
Qed.

(** *** The four outcomes (lines 171-288 and 310-321) *)

(** C6, for the runs whose deployment strategy is [gce] or [gke] or that
    bring up no cluster: no slot ever has more than one outcome; a step that
    is not needed has no goroutine, does nothing, and its outcome is a
    success sent by [handle] itself; and when [handle] reaches line 319 it
    has received 4 outcomes, exactly one of each slot, and none is left in
    the channel. *)
Theorem one_outcome_per_slot (f : Flags) (w : World) (s : State) :
  reachable f w s ->
  bringupCluster f = false \/ deploymentStrat f = "gce" \/ deploymentStrat f = "gke" ->
  (forall t, List.length (sentFor t (log s)) <= 1) /\
  (forall t, needed f t = false ->
             eventsOf (Bg t) (log s) = [] /\ isPrefix (sentFor t (log s)) [None]) /\
  (forall firstErr,
      pcMain s = M319 firstErr ->
      List.length (received s) = 4 /\ received s = arrivals s /\
      forall t, List.length (sentFor t (log s)) = 1).
Proof.
  intros Hr Hk. pose proof (reachable_Inv f w s Hr) as HI. split; [|split].
  - intros t. exact (sentFor_le_one f w s t HI Hk).
  - intros t Hn. split.
    + exact (not_needed_no_events f w s t HI Hn).
    + exact (sentFor_not_needed f w s t HI Hn).
  - intros firstErr Hpc. exact (four_slots_at_319 f w s firstErr Hr Hk Hpc).
Qed.

Lemma one_outcome_per_slot_witness :
  exists s,
    run flagsLocal allSucceed
      (steps 9 Main ++ steps 2 (Bg ImagePush) ++ steps 5 (Bg ClusterUp) ++ steps 4 Main)
      init = Some s /\
    List.length (received s) = 4 /\ received s = arrivals s /\
    forall t, List.length (sentFor t (log s)) = 1.
Proof.
  destruct (run flagsLocal allSucceed
              (steps 9 Main ++ steps 2 (Bg ImagePush) ++ steps 5 (Bg ClusterUp)
               ++ steps 4 Main) init) as [s|] eqn:E; [|vm_compute in E; discriminate].
  exists s. split; [reflexivity|].
  assert (Hpc : pcMain s = M319 None) by (vm_compute in E; inversion E; reflexivity).
  assert (Hr : reachable flagsLocal allSucceed s)
    by (exact (run_reachable _ _ _ _ _ (reachable_init _ _) E)).
  assert (Hk : bringupCluster flagsLocal = false
               \/ deploymentStrat flagsLocal = "gce" \/ deploymentStrat flagsLocal = "gke")
    by (right; left; reflexivity).
  exact (proj2 (proj2 (one_outcome_per_slot flagsLocal allSucceed s Hr Hk)) None Hpc).
Defined.

(** C6 at a deployment strategy that is neither [gce] nor [gke]: the
    [default] case of the switch of line 246 sends its error and falls
    through to the [errChan <- nil] of line 284.  The bring-up goroutine then
    produces two outcomes.  In the first run [handle] has its 4 outcomes,
    two of them from the bring-up, before the image push has even begun; in
    the second 5 outcomes are produced and one is never received. *)
Lemma unknown_strategy_two_outcomes :
  exists s1 s2,
    run flagsOther allSucceed
      (steps 9 Main ++ steps 3 (Bg ClusterUp) ++ steps 4 Main) init = Some s1 /\
    pcMain s1
    = M319 (Some "deployment-strategy must be set to 'gce' or 'gke', but is: aws") /\
    sentFor ClusterUp (log s1)
    = [Some "deployment-strategy must be set to 'gce' or 'gke', but is: aws"; None] /\
    sentFor ImagePush (log s1) = [] /\ pcPush s1 = P225 /\
    run flagsOther allSucceed
      (steps 9 Main ++ steps 2 (Bg ImagePush) ++ steps 2 (Bg ClusterUp)
       ++ steps 1 Main ++ steps 1 (Bg ClusterUp) ++ steps 3 Main) init = Some s2 /\
    pcMain s2
    = M319 (Some "deployment-strategy must be set to 'gce' or 'gke', but is: aws") /\
    arrivals s2
    = [None; None; None;
       Some "deployment-strategy must be set to 'gce' or 'gke', but is: aws"; None] /\
    errChan s2 = [None].
Proof.
  destruct (run flagsOther allSucceed
              (steps 9 Main ++ steps 3 (Bg ClusterUp) ++ steps 4 Main) init)
    as [s1|] eqn:E1; [|vm_compute in E1; discriminate].
  destruct (run flagsOther allSucceed
              (steps 9 Main ++ steps 2 (Bg ImagePush) ++ steps 2 (Bg ClusterUp)
               ++ steps 1 Main ++ steps 1 (Bg ClusterUp) ++ steps 3 Main) init)
    as [s2|] eqn:E2; [|vm_compute in E2; discriminate].
  exists s1, s2. vm_compute in E1, E2. inversion E1. inversion E2.
  repeat split; reflexivity.
Qed.

(** *** The installation of the driver (lines 323-335) *)

(** C3, as the code has it: the deletion of the driver is deferred exactly
    when [installDriver] has been called and the teardown-driver flag is set,
    whether the installation succeeded or not.  Once [handle] has returned
    after a call to [installDriver], [deleteDriver] has been called exactly
    when the flag is set, and if the installation failed [handle] returns
    that failure. *)
Theorem delete_driver_deferred_on_flag (f : Flags) (w : World) (s : State) :
  reachable f w s ->
  (In (Defer DDeleteDriver) (eventsOf Main (log s))
   <-> In (Call InstallDriver (w InstallDriver)) (eventsOf Main (log s))
       /\ teardownDriver f = true) /\
  (forall ret,
      pcMain s = MReturned ret ->
      In (Call InstallDriver (w InstallDriver)) (eventsOf Main (log s)) ->
      (In (Call DeleteDriver (w DeleteDriver)) (eventsOf Main (log s))
       <-> teardownDriver f = true) /\
      (forall err, w InstallDriver = Some err ->
                   ret = Errorf "failed to install CSI Driver: " err)).
Proof.
  intros Hr. pose proof (reachable_Inv f w s Hr) as HI.
  pose proof (deleteDriver_deferred f w s HI) as Hd. unfold callOf in Hd.
  split; [exact Hd|]. intros ret Hpc Hin. split.
  - rewrite (deleteDriver_called f w s ret HI Hpc). tauto.
  - intros err Herr. exact (install_failure_returned f w s ret err HI Hpc Hin Herr).
Qed.

Lemma delete_driver_deferred_on_flag_witness :
  exists s,
    run flagsLocal installFails (localRun 13) init = Some s /\
    pcMain s = MReturned (Some "failed to install CSI Driver: kubectl apply failed") /\
    In (Call DeleteDriver None) (eventsOf Main (log s)).
Proof.
  destruct (run flagsLocal installFails (localRun 13) init) as [s|] eqn:E;
    [|vm_compute in E; discriminate].
  exists s. split; [reflexivity|].
  assert (Hpc : pcMain s
                = MReturned (Some "failed to install CSI Driver: kubectl apply failed"))
    by (vm_compute in E; inversion E; reflexivity).
  assert (Hin : In (Call InstallDriver (installFails InstallDriver))
                  (eventsOf Main (log s)))
    by (vm_compute in E; inversion E; vm_compute; tauto).
  assert (Hr : reachable flagsLocal installFails s)
    by (exact (run_reachable _ _ _ _ _ (reachable_init _ _) E)).
  split; [exact Hpc|].
  exact (proj2 (proj1 (proj2 (delete_driver_deferred_on_flag _ _ s Hr) _ Hpc Hin))
           eq_refl).
Defined.

(** C3 as stated fails: [installDriver] fails, and the deletion of the
    driver has been deferred all the same, before the test of line 333; it is
    run when [handle] returns the failure. *)
Lemma delete_driver_deferred_after_failed_install :
  exists s,
    run flagsLocal installFails (localRun 13) init = Some s /\
    pcMain s = MReturned (Some "failed to install CSI Driver: kubectl apply failed") /\
    called (fun _ => true) (log s)
    = [Umask; LookupEnvGOPATH; GetK8sTempDir; GetTestTempDir; PushImage;
       StatKubectl; SetenvKubectl; ClusterUpGCE; InstallDriver; DeleteDriver;
       ClusterDownGCE; DeleteImage; RemoveTestTempDir; RemoveK8sTempDir; RestoreUmask] /\
    registeredIn (eventsOf Main (log s))
    = [DUmask; DRemoveK8sTemp; DRemoveTestTemp; DDeleteImage; DClusterDown; DDeleteDriver].
Proof.
  destruct (run flagsLocal installFails (localRun 13) init) as [s|] eqn:E;
    [|vm_compute in E; discriminate].
  exists s. vm_compute in E. inversion E. repeat split; reflexivity.
Qed.

(** *** The teardown of the image and of the cluster (lines 222-237, 290-308) *)

(** C2, as the code has it: in a run that gets past the set-up of lines
    119-161 and returns, the deletion of the image was deferred exactly when
    the driver is built, and the cluster-down exactly when the cluster is to
    be torn down; the teardowns executed are the cluster-down of the
    deployment strategy when the cluster is to be torn down, then the deletion
    of the image when the driver is built and the cluster is to be torn down.
    None of it depends on what the image push or the bring-up answered.  A
    run that returns from the set-up executes none of them. *)
Theorem teardown_by_flags (f : Flags) (w : World) (s : State) (ret : error) :
  reachable f w s -> pcMain s = MReturned ret ->
  (preludeFailure f w = None ->
   (In DDeleteImage (registeredIn (eventsOf Main (log s))) <-> doDriverBuild f = true) /\
   (In DClusterDown (registeredIn (eventsOf Main (log s))) <-> teardownCluster f = true) /\
   called isAcquisitionTeardown (log s)
   = (if teardownCluster f
      then if deploymentStrat f =? "gce" then [ClusterDownGCE]
           else if deploymentStrat f =? "gke" then [ClusterDownGKE] else []
      else [])
     ++ (if doDriverBuild f && teardownCluster f then [DeleteImage] else [])) /\
  (preludeFailure f w <> None -> called isAcquisitionTeardown (log s) = []).
Proof.
  intros Hr Hpc. pose proof (reachable_Inv f w s Hr) as HI. split.
  - intros Hp. destruct (teardown_registered f w s ret HI Hpc Hp) as [H1 H2].
    split; [exact H1|]. split; [exact H2|]. exact (teardown_calls f w s ret HI Hpc Hp).
  - intros Hp. exact (no_teardown_after_prelude f w s ret HI Hpc Hp).
Qed.

Lemma teardown_by_flags_witness :
  exists s,
    run flagsLocal allSucceed (localRun 14) init = Some s /\
    called isAcquisitionTeardown (log s) = [ClusterDownGCE; DeleteImage].
Proof.
  destruct (run flagsLocal allSucceed (localRun 14) init) as [s|] eqn:E;
    [|vm_compute in E; discriminate].
  exists s. split; [reflexivity|].
  assert (Hpc : pcMain s = MReturned None) by (vm_compute in E; inversion E; reflexivity).
  assert (Hr : reachable flagsLocal allSucceed s)
    by (exact (run_reachable _ _ _ _ _ (reachable_init _ _) E)).
  exact (proj2 (proj2 (proj1 (teardown_by_flags _ _ s _ Hr Hpc) eq_refl))).
Defined.

(** C2 as stated fails: the image push fails, and the deletion of the image
    runs all the same, as does the cluster-down: two teardowns for one
    acquisition that succeeded. *)
Lemma image_deleted_after_failed_push :
  exists s,
    run flagsLocal pushFails (localRun 11) init = Some s /\
    pcMain s = MReturned (Some "denied") /\
    In (Bg ImagePush, Call PushImage (Some "denied")) (log s) /\
    called isAcquisitionTeardown (log s) = [ClusterDownGCE; DeleteImage].
Proof.
  destruct (run flagsLocal pushFails (localRun 11) init) as [s|] eqn:E;
    [|vm_compute in E; discriminate].
  exists s. vm_compute in E. inversion E. repeat split; try reflexivity.
  vm_compute. tauto.
Qed.

(** *** The return of a failure and the teardowns (lines 319-335, 291-308) *)

(** What [handle] returns does not depend on what the teardowns answer. *)
Lemma returnPoint_teardown (f : Flags) (w w' : World) (rcv : list error) :
  (forall o, isTeardownOp o = false -> w' o = w o) ->
  snd (returnPoint f w' rcv) = snd (returnPoint f w rcv).
Proof.
  intros H. unfold returnPoint, preludeFailure, afterAggregate, selectedTests.
  rewrite (H LookupEnvGOPATH), (H GcloudGetProject), (H SetEnvProject),
    (H LookupEnvUSER), (H SetenvUSER), (H InstallDriver) by reflexivity.
  destruct (negb (storageClassFile f =? "")), (migrationTest f); simpl;
    rewrite ?(H RunCSITests), ?(H RunMigrationTests) by reflexivity;
    repeat match goal with
           | |- context [match w ?o with _ => _ end] => destruct (w o)
           | |- context [if ?b then _ else _] => destruct b
           end; simpl; destruct (firstFailure rcv); reflexivity.
Qed.

(** C7: once [handle] has returned, every closure it deferred has run, once
    and last deferred first, with all it does; when the aggregate is a
    failure, [handle] returns that failure and has called neither
    [installDriver] nor the tests; what it returns is the same whatever the
    teardowns answer, whose failures are only logged, and it is [nil] when
    nothing but teardowns fails. *)
Theorem failure_returned_after_teardown (f : Flags) (w : World) (s : State) (ret : error) :
  reachable f w s -> pcMain s = MReturned ret ->
  ranIn (eventsOf Main (log s)) = rev (registeredIn (eventsOf Main (log s))) /\
  (forall d e, In (Defer d) (eventsOf Main (log s)) ->
               e = RunDeferred d \/ In e (runDeferred f w d) ->
               In e (eventsOf Main (log s))) /\
  (forall e, firstFailure (received s) = Some e ->
             List.length (received s) = 4 /\ ret = Some e /\
             called isInstallOrTest (log s) = []) /\
  (forall w', (forall o, isTeardownOp o = false -> w' o = w o) ->
              ret = snd (returnPoint f w' (received s))) /\
  (forall o, preludeFailure f w = None -> firstFailure (received s) = None ->
             w InstallDriver = None -> selectedTests f = Some o -> w o = None ->
             ret = None).
Proof.
  intros Hr Hpc. pose proof (reachable_Inv f w s Hr) as HI.
  destruct (returned_events f w s ret HI Hpc) as (_ & Hret & Hran & _).
  split; [exact Hran|]. split; [|split; [|split]].
  - intros d e Hd He. exact (deferred_all_run f w s ret d e HI Hpc Hd He).
  - intros e Hf. exact (failure_returned f w s ret e HI Hpc Hf).
  - intros w' Hw. rewrite Hret. symmetry. exact (returnPoint_teardown f w w' _ Hw).
  - intros o Hp Hf Hi Hs Ho. exact (success_returned f w s ret o HI Hpc Hp Hf Hi Hs Ho).
Qed.

Lemma failure_returned_after_teardown_witness :
  exists s1 s2,
    run flagsLocal pushAndTeardownFail (localRun 11) init = Some s1 /\
    run flagsLocal teardownFails (localRun 14) init = Some s2 /\
    pcMain s1 = MReturned (Some "denied") /\
    called isInstallOrTest (log s1) = [] /\
    In (Klog "failed to cluster down: quota exceeded") (eventsOf Main (log s1)) /\
    pcMain s2 = MReturned None.
Proof.
  destruct (run flagsLocal pushAndTeardownFail (localRun 11) init) as [s1|] eqn:E1;
    [|vm_compute in E1; discriminate].
  destruct (run flagsLocal teardownFails (localRun 14) init) as [s2|] eqn:E2;
    [|vm_compute in E2; discriminate].
  exists s1, s2. split; [reflexivity|]. split; [reflexivity|].
  assert (Hpc1 : exists ret, pcMain s1 = MReturned ret)
    by (vm_compute in E1; inversion E1; eexists; reflexivity).
  assert (Hpc2 : exists ret, pcMain s2 = MReturned ret)
    by (vm_compute in E2; inversion E2; eexists; reflexivity).
  destruct Hpc1 as [ret1 Hpc1]. destruct Hpc2 as [ret2 Hpc2].
  assert (Hf1 : firstFailure (received s1) = Some "denied")
    by (vm_compute in E1; inversion E1; reflexivity).
  assert (Hd1 : In (Defer DClusterDown) (eventsOf Main (log s1)))
    by (vm_compute in E1; inversion E1; vm_compute; tauto).
  assert (Hf2 : firstFailure (received s2) = None)
    by (vm_compute in E2; inversion E2; reflexivity).
  assert (Hr1 : reachable flagsLocal pushAndTeardownFail s1)
    by (exact (run_reachable _ _ _ _ _ (reachable_init _ _) E1)).
  assert (Hr2 : reachable flagsLocal teardownFails s2)
    by (exact (run_reachable _ _ _ _ _ (reachable_init _ _) E2)).
  destruct (failure_returned_after_teardown _ _ s1 ret1 Hr1 Hpc1) as (_ & Hall & Hfail & _).
  destruct (failure_returned_after_teardown _ _ s2 ret2 Hr2 Hpc2) as (_ & _ & _ & _ & Hok).
  destruct (Hfail _ Hf1) as (_ & Hret1 & Hcalled).
  pose proof (Hok RunCSITests eq_refl Hf2 eq_refl eq_refl eq_refl) as Hret2.
  rewrite Hpc1, Hpc2, Hret1, Hret2. repeat split; try reflexivity; [exact Hcalled|].
  apply (Hall DClusterDown); [exact Hd1|]. right. vm_compute. tauto.
Defined.

(** *** Every run ends, and [handle] returns *)

(** In every state of a run, either [handle] has returned and every goroutine
    it started has ended, or some goroutine can take a step: no send and no
    receive on [errChan] or [k8sDependencyChan] blocks for ever. *)
Theorem no_deadlock (f : Flags) (w : World) (s : State) :
  reachable f w s ->
  finished s = true \/ exists t s', step f w t s = Some s'.
Proof. intros Hr. exact (progress f w s (reachable_Inv f w s Hr)). Qed.

Lemma no_deadlock_witness :
  exists s,
    run flagsOther allSucceed
      (steps 9 Main ++ steps 2 (Bg ImagePush) ++ steps 2 (Bg ClusterUp)) init = Some s /\
    errChan s
    = [None; None; None;
       Some "deployment-strategy must be set to 'gce' or 'gke', but is: aws"] /\
    step flagsOther allSucceed (Bg ClusterUp) s = None /\
    exists t s', step flagsOther allSucceed t s = Some s'.
Proof.
  destruct (run flagsOther allSucceed
              (steps 9 Main ++ steps 2 (Bg ImagePush) ++ steps 2 (Bg ClusterUp)) init)
    as [s|] eqn:E; [|vm_compute in E; discriminate].
  exists s. split; [reflexivity|].
  assert (Hr : reachable flagsOther allSucceed s)
    by (exact (run_reachable _ _ _ _ _ (reachable_init _ _) E)).
  assert (Hf : finished s = false) by (vm_compute in E; inversion E; reflexivity).
  split; [vm_compute in E; inversion E; reflexivity|].
  split; [vm_compute in E; inversion E; reflexivity|].
  destruct (no_deadlock flagsOther allSucceed s Hr) as [H|H]; [congruence | exact H].
Defined.

(** No run has more than 44 steps, whatever the scheduling. *)
Theorem every_run_ends (f : Flags) (w : World) (sched : list Thread) (s : State) :
  run f w sched init = Some s -> List.length sched <= 44.
Proof.
  intros H. pose proof (run_decreases f w sched init s H) as Hd.
  change (stepsLeft init) with 44 in Hd. lia.
Qed.

Lemma every_run_ends_witness :
  List.length (localRun 14) <= 44.
Proof.
  destruct (run flagsLocal allSucceed (localRun 14) init) as [s|] eqn:E;
    [|vm_compute in E; discriminate].
  exact (every_run_ends flagsLocal allSucceed (localRun 14) s E).
Defined.

(** From every state of a run, the run can be continued to its end, where
    [handle] has returned and every goroutine has ended; and a run that
    cannot be continued is at its end. *)
Theorem handle_returns (f : Flags) (w : World) (s : State) :
  reachable f w s ->
  (exists sched s' ret,
      run f w sched s = Some s' /\ finished s' = true /\ pcMain s' = MReturned ret) /\
  ((forall t, step f w t s = None) -> exists ret, pcMain s = MReturned ret).
Proof.
  intros Hr.
  assert (Hret : forall x, finished x = true -> exists ret, pcMain x = MReturned ret).
  { intros x Hx. unfold finished in Hx. destruct (pcMain x); try discriminate. eauto. }
  split.
  - destruct (can_finish f w (stepsLeft s) s (le_n _) Hr) as (sched & s' & Hrun & Hf).
    destruct (Hret s' Hf) as [ret Hpc]. exists sched, s', ret. auto.
  - intros Hstuck. destruct (progress f w s (reachable_Inv f w s Hr)) as [Hf|(t & s' & Hs)].
    + exact (Hret s Hf).
    + rewrite Hstuck in Hs. discriminate.
Qed.

Lemma handle_returns_witness :
  exists sched s' ret,
    run flagsGCE downloadAndPushFail sched init = Some s' /\
    finished s' = true /\ pcMain s' = MReturned ret.
Proof.
  exact (proj1 (handle_returns flagsGCE downloadAndPushFail init (reachable_init _ _))).
Defined.

(** *** What does not depend on the scheduling *)

(** Which failure [handle] returns depends on the scheduling, but not whether
    it returns one: the aggregate of line 319 is [nil] exactly when none of
    the four tasks fails, and [handle] returns [nil] exactly when nothing
    fails but, possibly, a teardown. *)
Theorem success_does_not_depend_on_scheduling (f : Flags) (w : World) (s : State) :
  reachable f w s ->
  (forall firstErr, pcMain s = M319 firstErr ->
                    (firstErr = None <-> tasksSucceed f w = true)) /\
  (forall ret, pcMain s = MReturned ret -> (ret = None <-> runSucceeds f w = true)).
Proof.
  intros Hr. split.
  - intros firstErr Hpc. exact (aggregate_nil_iff f w s firstErr Hr Hpc).
  - intros ret Hpc. exact (returns_nil_iff f w s ret (reachable_Inv f w s Hr) Hpc).
Qed.

Lemma success_does_not_depend_on_scheduling_witness :
  exists s1 s2 e1 e2,
    run flagsGCE downloadAndPushFail pushFirst init = Some s1 /\
    run flagsGCE downloadAndPushFail buildFirst init = Some s2 /\
    pcMain s1 = M319 (Some e1) /\ pcMain s2 = M319 (Some e2) /\ e1 <> e2 /\
    tasksSucceed flagsGCE downloadAndPushFail = false.
Proof.
  destruct (run flagsGCE downloadAndPushFail pushFirst init) as [s1|] eqn:E1;
    [|vm_compute in E1; discriminate].
  destruct (run flagsGCE downloadAndPushFail buildFirst init) as [s2|] eqn:E2;
    [|vm_compute in E2; discriminate].
  exists s1, s2, "denied", "failed to download Kubernetes source: no route to host".
  assert (Hr : reachable flagsGCE downloadAndPushFail s1)
    by (exact (run_reachable _ _ _ _ _ (reachable_init _ _) E1)).
  assert (H1 : pcMain s1 = M319 (Some "denied"))
    by (vm_compute in E1; inversion E1; reflexivity).
  assert (H2 : pcMain s2
               = M319 (Some "failed to download Kubernetes source: no route to host"))
    by (vm_compute in E2; inversion E2; reflexivity).
  split; [reflexivity|]. split; [reflexivity|]. split; [exact H1|]. split; [exact H2|].
  split; [discriminate|].
  destruct (tasksSucceed flagsGCE downloadAndPushFail) eqn:Ht; [|reflexivity].
  pose proof (proj2 (proj1 (success_does_not_depend_on_scheduling _ _ s1 Hr) _ H1) Ht).
  discriminate.
Defined.

(** *** The teardowns, in order *)

(** A run that got past its set-up tears down, in this order: the driver
    (when no task failed and the flag is set), the cluster, the image, the
    two temporary directories, the project (in Prow) and the umask.  On every
    path, the set-up that failed included, the umask is restored exactly once
    and last. *)
Theorem teardown_order (f : Flags) (w : World) (s : State) (ret : error) :
  reachable f w s -> pcMain s = MReturned ret ->
  (preludeFailure f w = None ->
   called isTeardownOp (log s)
   = (if tasksSucceed f w && teardownDriver f then [DeleteDriver] else [])
     ++ (if teardownCluster f
         then if deploymentStrat f =? "gce" then [ClusterDownGCE]
              else if deploymentStrat f =? "gke" then [ClusterDownGKE] else []
         else [])
     ++ (if doDriverBuild f && teardownCluster f then [DeleteImage] else [])
     ++ [RemoveTestTempDir; RemoveK8sTempDir]
     ++ (if inProw f then [RestoreEnvProject] else [])
     ++ [RestoreUmask]) /\
  (exists l, called isTeardownOp (log s) = l ++ [RestoreUmask] /\ ~ In RestoreUmask l).
Proof.
  intros Hr Hpc. pose proof (reachable_Inv f w s Hr) as HI. split.
  - intros Hp. exact (teardown_sequence f w s ret HI Hpc Hp).
  - exact (umask_restored_last f w s ret HI Hpc).
Qed.

Lemma teardown_order_witness :
  exists s,
    run flagsLocal installFails (localRun 13) init = Some s /\
    called isTeardownOp (log s)
    = [DeleteDriver; ClusterDownGCE; DeleteImage; RemoveTestTempDir; RemoveK8sTempDir;
       RestoreUmask].
Proof.
  destruct (run flagsLocal installFails (localRun 13) init) as [s|] eqn:E;
    [|vm_compute in E; discriminate].
  exists s. split; [reflexivity|].
  assert (Hpc : exists ret, pcMain s = MReturned ret)
    by (vm_compute in E; inversion E; eexists; reflexivity).
  destruct Hpc as [ret Hpc].
  assert (Hr : reachable flagsLocal installFails s)
    by (exact (run_reachable _ _ _ _ _ (reachable_init _ _) E)).
  exact (proj1 (teardown_order _ _ s ret Hr Hpc) eq_refl).
Defined.

(** *** The sequential phase (lines 323-350) *)

(** [installDriver] is called, once, exactly in the runs whose set-up and
    four tasks succeed; a test suite is run only after a successful
    installation, and only one: the CSI tests when a storage class file is
    given, the migration tests otherwise when they are asked for.  With
    neither, [handle] has installed the driver when it returns that no test
    was run. *)
Theorem sequential_phase (f : Flags) (w : World) (s : State) (ret : error) :
  reachable f w s -> pcMain s = MReturned ret ->
  called isInstallOrTest (log s)
  = match preludeFailure f w with
    | Some _ => []
    | None =>
        if tasksSucceed f w
        then InstallDriver ::
             (if isNil (w InstallDriver)
              then if negb (storageClassFile f =? "") then [RunCSITests]
                   else if migrationTest f then [RunMigrationTests] else []
              else [])
        else []
    end
  /\ (preludeFailure f w = None -> tasksSucceed f w = true -> w InstallDriver = None ->
      storageClassFile f = "" -> migrationTest f = false ->
      ret = Some "Did not run either CSI or Migration test").
Proof.
  intros Hr Hpc. pose proof (reachable_Inv f w s Hr) as HI. split.
  - exact (sequential_calls f w s ret HI Hpc).
  - exact (no_suite_selected f w s ret HI Hpc).
Qed.

Lemma sequential_phase_witness :
  exists s,
    run flagsLocal teardownFails (localRun 14) init = Some s /\
    called isInstallOrTest (log s) = [InstallDriver; RunCSITests].
Proof.
  destruct (run flagsLocal teardownFails (localRun 14) init) as [s|] eqn:E;
    [|vm_compute in E; discriminate].
  exists s. split; [reflexivity|].
  assert (Hpc : exists ret, pcMain s = MReturned ret)
    by (vm_compute in E; inversion E; eexists; reflexivity).
  destruct Hpc as [ret Hpc].
  assert (Hr : reachable flagsLocal teardownFails s)
    by (exact (run_reachable _ _ _ _ _ (reachable_init _ _) E)).
  exact (proj1 (sequential_phase _ _ s ret Hr Hpc)).
Defined.

(** *** The bring-up of the cluster (lines 239-288) *)

(** A cluster is brought up at most once in a run, by the function of the
    deployment strategy, and only when a bring-up is asked for and [true] was
    written to the gate; once the bring-up goroutine has ended, it has been
    brought up exactly when, besides, the environment could be set. *)
Theorem cluster_up_calls (f : Flags) (w : World) (s : State) :
  reachable f w s ->
  isPrefix (called isClusterUp (log s)) (clusterUpCalls f w) /\
  (pcUp s = UDone -> called isClusterUp (log s) = clusterUpCalls f w) /\
  List.length (called isClusterUp (log s)) <= 1 /\
  (forall o, In o (called isClusterUp (log s)) ->
             bringupCluster f = true /\ gateValue f w = true /\
             (o = ClusterUpGCE /\ deploymentStrat f = "gce"
              \/ o = ClusterUpGKE /\ deploymentStrat f = "gke")).
Proof.
  intros Hr. destruct (clusterUp_calls f w s (reachable_Inv f w s Hr)) as [Hp Hd].
  split; [exact Hp|]. split; [exact Hd|].
  assert (Hin : forall o, In o (clusterUpCalls f w) ->
                bringupCluster f = true /\ gateValue f w = true /\
                (o = ClusterUpGCE /\ deploymentStrat f = "gce"
                 \/ o = ClusterUpGKE /\ deploymentStrat f = "gke")).
  { intros o. unfold clusterUpCalls.
    destruct (bringupCluster f), (gateValue f w); simpl; try tauto.
    destruct (deploymentStrat f =? "gce") eqn:E1.
    - apply String.eqb_eq in E1.
      match goal with |- context [if ?b then _ else _] => destruct b end;
        simpl; intuition.
    - destruct (deploymentStrat f =? "gke") eqn:E2; simpl; [|tauto].
      apply String.eqb_eq in E2. intuition. }
  split.
  - apply isPrefix_length in Hp. unfold clusterUpCalls in Hp.
    repeat match type of Hp with
           | context [if ?b then _ else _] => destruct b
           end; simpl in Hp; lia.
  - intros o Ho. apply Hin. destruct Hp as [r Hr']. rewrite Hr'.
    apply in_or_app. now left.
Qed.

Lemma cluster_up_calls_witness :
  exists s,
    run flagsLocal allSucceed (localRun 0) init = Some s /\
    called isClusterUp (log s) = [ClusterUpGCE].
Proof.
  destruct (run flagsLocal allSucceed (localRun 0) init) as [s|] eqn:E;
    [|vm_compute in E; discriminate].
  exists s. split; [reflexivity|].
  assert (Hpc : pcUp s = UDone) by (vm_compute in E; inversion E; reflexivity).
  assert (Hr : reachable flagsLocal allSucceed s)
    by (exact (run_reachable _ _ _ _ _ (reachable_init _ _) E)).
  exact (proj1 (proj2 (cluster_up_calls _ _ s Hr)) Hpc).
Defined.

(** *** Where the goroutines wait *)

(** [handle] waits nowhere but in the loop of line 312, for an outcome: none
    of its own sends and none of its deferred closures blocks.  When the
    bring-up goroutine reports one outcome, a goroutine that has not ended
    waits nowhere but at the read of the gate: [errChan] is never full when
    a goroutine sends. *)
Theorem waiting_points (f : Flags) (w : World) (s : State) (t : Thread) :
  reachable f w s -> step f w t s = None ->
  match t with
  | Main =>
      (exists i fe, pcMain s = M313 i fe /\ i < 4 /\ errChan s = [])
      \/ exists ret, pcMain s = MReturned ret
  | Bg u =>
      reportsTwice f w = false ->
      ended u s = true
      \/ (u = ClusterUp /\ pcUp s = U241 /\ k8sDependencyChan s = [])
  end.
Proof.
  intros Hr H. pose proof (reachable_Inv f w s Hr) as HI.
  destruct t as [|[]]; simpl in H.
  - exact (main_waits f w s HI H).
  - intros Hb. left. exact (build_never_waits f w s HI Hb H).
  - intros Hb. left. exact (test_never_waits f w s HI Hb H).
  - intros Hb. left. exact (push_never_waits f w s HI Hb H).
  - intros Hb. destruct (up_waits f w s HI Hb H) as [He|He]; [now left | right; tauto].
Qed.

Lemma waiting_points_witness :
  exists s,
    run flagsGCE allSucceed (steps 8 Main) init = Some s /\
    step flagsGCE allSucceed (Bg ClusterUp) s = None /\
    pcUp s = U241 /\ k8sDependencyChan s = [].
Proof.
  destruct (run flagsGCE allSucceed (steps 8 Main) init) as [s|] eqn:E;
    [|vm_compute in E; discriminate].
  exists s. split; [reflexivity|].
  assert (Hs : step flagsGCE allSucceed (Bg ClusterUp) s = None)
    by (vm_compute in E; inversion E; reflexivity).
  assert (He : ended ClusterUp s = false) by (vm_compute in E; inversion E; reflexivity).
  assert (Hr : reachable flagsGCE allSucceed s)
    by (exact (run_reachable _ _ _ _ _ (reachable_init _ _) E)).
  split; [exact Hs|].
  destruct (waiting_points _ _ s (Bg ClusterUp) Hr Hs eq_refl) as [H|(_ & H1 & H2)];
    [congruence | auto].
Defined.

(** *** A failure of the set-up (lines 119-161) *)



(** *** The failure that is returned *)

(** When a task fails, what [handle] returns is the outcome of one of the
    tasks that failed; it is the outcome of that task, whatever the
    scheduling, when one task only fails. *)
Theorem failure_is_a_task_outcome (f : Flags) (w : World) (s : State) (ret : error) :
  reachable f w s -> pcMain s = MReturned ret ->
  preludeFailure f w = None -> tasksSucceed f w = false ->
  ret <> None /\
  (exists t, slotResult f w t = ret) /\
  (forall t, (forall u, slotResult f w u <> None -> u = t) -> ret = slotResult f w t).
Proof.
  intros Hr Hpc Hp Ht.
  destruct (returned_failure_source f w s ret (reachable_Inv f w s Hr) Hpc Hp Ht)
    as (Hne & t & Hres).
  split; [exact Hne|]. split; [exists t; exact Hres|].
  intros t' Honly. rewrite <- Hres. f_equal. apply Honly. now rewrite Hres.
Qed.

Lemma failure_is_a_task_outcome_witness :
  exists s,
    run flagsLocal pushFails (localRun 11) init = Some s /\
    pcMain s = MReturned (slotResult flagsLocal pushFails ImagePush).
Proof.
  destruct (run flagsLocal pushFails (localRun 11) init) as [s|] eqn:E;
    [|vm_compute in E; discriminate].
  exists s. split; [reflexivity|].
  assert (Hpc : exists ret, pcMain s = MReturned ret)
    by (vm_compute in E; inversion E; eexists; reflexivity).
  destruct Hpc as [ret Hpc].
  assert (Hr : reachable flagsLocal pushFails s)
    by (exact (run_reachable _ _ _ _ _ (reachable_init _ _) E)).
  rewrite Hpc. f_equal.
  apply (proj2 (proj2 (failure_is_a_task_outcome _ _ s ret Hr Hpc eq_refl eq_refl))).
  intros [] H; try reflexivity; exfalso; apply H; reflexivity.
Defined.

End Pipeline.

(* ================================================================== *)
(** * Properties *)

(** ** Device paths *)
Section DevicePaths.

Import GoPath MountManager.

Example Clean_double_slash : Clean "abc//def//ghi" = "abc/def/ghi".
Proof. reflexivity. Qed.

Example Clean_above_root : Clean "/../abc" = "/abc".
Proof. reflexivity. Qed.

Example Clean_dotdot_left : Clean "abc/../../././../def" = "../../def".
Proof. reflexivity. Qed.

Example Clean_trailing_slash : Clean "abc/" = "abc".
Proof. reflexivity. Qed.

Example Join_skips_empty : Join [""; "a"; ""; "b"] = "a/b".
Proof. reflexivity. Qed.

Lemma append_assoc (a b c : string) : (a ++ b) ++ c = a ++ b ++ c.
Proof. induction a as [|x a IH]; simpl; [reflexivity | now rewrite IH]. Qed.

Lemma split_slash_no_slash (s : string) :
  no_slash s = true -> split_slash s = [s].
Proof.
  induction s as [|c r IH]; simpl; [reflexivity|].
  intros H. apply andb_true_iff in H as [Hc Hr].
  apply negb_true_iff in Hc. rewrite Hc, (IH Hr). reflexivity.
Qed.

(** Under [diskByIdPath], a last element that is a plain name comes out of
    [path.Join] unchanged. *)
Lemma Join_diskByIdPath (name : string) :
  no_slash name = true ->
  (name =? "") = false -> (name =? ".") = false -> (name =? "..") = false ->
  Join [diskByIdPath; name] = diskByIdPath ++ name.
Proof.
  intros Hns H1 H2 H3.
  unfold Join, diskByIdPath, Clean. simpl.
  rewrite (split_slash_no_slash _ Hns). simpl.
  rewrite H1, H2, H3. reflexivity.
Qed.

Lemma GetDiskByIdPaths_length (deviceName partition : string) :
  List.length (GetDiskByIdPaths deviceName partition) = 2.
Proof.
  unfold GetDiskByIdPaths. destruct (negb (partition =? "")); reflexivity.
Qed.

(** C10, as the code has it: the list always has two paths; for a device name
    without a slash they are the two by-id paths of the claim, each followed
    by ["-part" ++ partition] when the partition is not empty. *)
Theorem GetDiskByIdPaths_plain_name (deviceName partition : string) :
  List.length (GetDiskByIdPaths deviceName partition) = 2 /\
  (no_slash deviceName = true ->
   GetDiskByIdPaths deviceName partition =
   if partition =? ""
   then [ "/dev/disk/by-id/google-" ++ deviceName;
          "/dev/disk/by-id/scsi-0Google_PersistentDisk_" ++ deviceName ]
   else [ ("/dev/disk/by-id/google-" ++ deviceName) ++ "-part" ++ partition;
          ("/dev/disk/by-id/scsi-0Google_PersistentDisk_" ++ deviceName)
            ++ "-part" ++ partition ]).
Proof.
  split; [apply GetDiskByIdPaths_length|].
  intros Hns. unfold GetDiskByIdPaths.
  rewrite !Join_diskByIdPath by (try reflexivity; exact Hns).
  destruct (partition =? ""); simpl; [reflexivity|].
  unfold diskByIdPath, diskGooglePrefix, diskScsiGooglePrefix, diskPartitionSuffix.
  rewrite !append_assoc. reflexivity.
Qed.

Lemma GetDiskByIdPaths_plain_name_witness :
  no_slash "disk-1" = true /\
  GetDiskByIdPaths "disk-1" "2" =
  [ "/dev/disk/by-id/google-disk-1-part2";
    "/dev/disk/by-id/scsi-0Google_PersistentDisk_disk-1-part2" ].
Proof.
  split; [reflexivity|].
  apply (proj2 (GetDiskByIdPaths_plain_name "disk-1" "2")). reflexivity.
Defined.

(** C10 as stated fails for a device name that [path.Join] rewrites: the
    trailing slash of ["a/"] is cleaned away. *)
Lemma GetDiskByIdPaths_cleans_name :
  GetDiskByIdPaths "a/" "" <>
  [ "/dev/disk/by-id/google-" ++ "a/";
    "/dev/disk/by-id/scsi-0Google_PersistentDisk_" ++ "a/" ].
Proof. vm_compute. discriminate. Qed.

Lemma firstExisting_decisive (m : Machine) (devicePaths : list string) :
  firstExisting m devicePaths =
  match firstDecisive m devicePaths with
  | None => ("", None)
  | Some path =>
      match stat m path with
      | StatOk => (path, None)
      | StatNotExist => ("", None)
      | StatFailed err => ("", Errorf "Error checking if path exists: " err)
      end
  end.
Proof.
  unfold firstDecisive.
  induction devicePaths as [|p rest IH]; simpl; [reflexivity|].
  unfold pathExists. destruct (stat m p) eqn:Hp; try rewrite Hp; auto.
Qed.

Lemma firstExisting_no_error (m : Machine) (devicePaths : list string) (path : string) :
  firstExisting m devicePaths = (path, None) ->
  path = match find (existsOn m) devicePaths with
         | Some p => p
         | None => ""
         end.
Proof.
  induction devicePaths as [|p rest IH]; simpl.
  - intros H. inversion H. reflexivity.
  - unfold pathExists, existsOn. destruct (stat m p) eqn:Hp.
    + intros H. inversion H. reflexivity.
    + exact IH.
    + discriminate.
Qed.

Lemma firstExisting_error (m : Machine) (devicePaths : list string) (path e : string) :
  firstExisting m devicePaths = (path, Some e) ->
  path = "" /\
  exists p err, In p devicePaths /\ stat m p = StatFailed err /\
                e = "Error checking if path exists: " ++ err.
Proof.
  induction devicePaths as [|p rest IH]; simpl; [discriminate|].
  unfold pathExists. destruct (stat m p) eqn:Hp.
  - discriminate.
  - intros H. destruct (IH H) as [H1 (q & err & Hin & Hq & He)].
    split; [exact H1|]. exists q, err. auto.
  - intros H. inversion H. split; [reflexivity|]. exists p, err. auto.
Qed.

(** C9: without an error, [VerifyDevicePath] returns the first path of the
    list that exists, or the empty string when none does; with an error, the
    path is empty and the existence check of some path of the list failed.
    What the glob and udevadm calls answer has no part in the result. *)
Theorem VerifyDevicePath_first_existing (m : Machine) (devicePaths : list string) :
  match fst (VerifyDevicePath m devicePaths) with
  | (path, None) =>
      path = match find (existsOn m) devicePaths with
             | Some p => p
             | None => ""
             end
  | (path, Some e) =>
      path = "" /\
      exists p err, In p devicePaths /\ stat m p = StatFailed err /\
                    e = "Error checking if path exists: " ++ err
  end.
Proof.
  unfold VerifyDevicePath. destruct (globBefore m) as [sdBefore globErr]. simpl.
  destruct (firstExisting m devicePaths) as [path [e|]] eqn:H.
  - exact (firstExisting_error _ _ _ _ H).
  - exact (firstExisting_no_error _ _ _ H).
Qed.

(** *** [VerifyDevicePath], exactly *)

(** [VerifyDevicePath] stops at the first candidate whose check does not
    answer that the path is missing: it returns that path when it exists, and
    the error when its check failed, whatever comes later in the list. *)
Theorem VerifyDevicePath_first_decisive (m : Machine) (devicePaths : list string) :
  fst (VerifyDevicePath m devicePaths) =
  match firstDecisive m devicePaths with
  | None => ("", None)
  | Some path =>
      match stat m path with
      | StatOk => (path, None)
      | StatNotExist => ("", None)
      | StatFailed err => ("", Some ("Error checking if path exists: " ++ err))
      end
  end
  /\ (forall before path err later,
         devicePaths = (before ++ path :: later)%list ->
         Forall (fun p => stat m p = StatNotExist) before ->
         stat m path = StatFailed err ->
         fst (VerifyDevicePath m devicePaths)
         = ("", Some ("Error checking if path exists: " ++ err))).
Proof.
  assert (H : fst (VerifyDevicePath m devicePaths) = firstExisting m devicePaths).
  { unfold VerifyDevicePath. now destruct (globBefore m). }
  rewrite H. split; [apply firstExisting_decisive|].
  intros before path err later -> Hb Hp. clear H.
  induction before as [|q before IH]; simpl.
  - unfold pathExists. now rewrite Hp.
  - inversion Hb as [|? ? Hq Hb']; subst. unfold pathExists at 1. rewrite Hq.
    exact (IH Hb').
Qed.

Lemma VerifyDevicePath_first_decisive_witness :
  let m := {| globBefore := ([], None); globAfter := ([], None);
              evalSymlinks := fun p => (p, None); udevadmTrigger := fun _ => None;
              stat := fun p => if p =? "/dev/disk/by-id/google-pd-0" then StatNotExist
                               else if p =? "/dev/disk/by-id/scsi-0Google_PersistentDisk_pd-0"
                                    then StatFailed "permission denied"
                                    else StatOk |} in
  fst (VerifyDevicePath m ["/dev/disk/by-id/google-pd-0";
                           "/dev/disk/by-id/scsi-0Google_PersistentDisk_pd-0";
                           "/dev/sdb"])
  = ("", Some "Error checking if path exists: permission denied").
Proof.
  intros m.
  apply (proj2 (VerifyDevicePath_first_decisive m _)
           ["/dev/disk/by-id/google-pd-0"]
           "/dev/disk/by-id/scsi-0Google_PersistentDisk_pd-0"
           "permission denied" ["/dev/sdb"]).
  - reflexivity.
  - repeat constructor.
  - reflexivity.
Defined.

(** *** [GetDiskByIdPaths] and [VerifyDevicePath] together *)

Lemma append_empty_r (a : string) : a ++ "" = a.
Proof. induction a as [|x a IH]; simpl; [reflexivity | now rewrite IH]. Qed.

Lemma GetDiskByIdPaths_no_slash (deviceName partition : string) :
  no_slash deviceName = true ->
  GetDiskByIdPaths deviceName partition =
  let suffix := if partition =? "" then "" else "-part" ++ partition in
  [ ("/dev/disk/by-id/google-" ++ deviceName) ++ suffix;
    ("/dev/disk/by-id/scsi-0Google_PersistentDisk_" ++ deviceName) ++ suffix ].
Proof.
  intros Hns. unfold GetDiskByIdPaths.
  rewrite !Join_diskByIdPath by (try reflexivity; exact Hns).
  destruct (partition =? ""); simpl.
  - now rewrite !append_empty_r.
  - unfold diskByIdPath, diskGooglePrefix, diskScsiGooglePrefix, diskPartitionSuffix.
    rewrite !append_assoc. reflexivity.
Qed.

(** For a device name without a slash, the [google-] link is preferred to the
    [scsi-] link: the second is looked at only when the first is missing, and
    a failing check of the first is an error even if the second exists. *)
Theorem VerifyDevicePath_prefers_google (m : Machine) (deviceName partition : string) :
  no_slash deviceName = true ->
  let suffix := if partition =? "" then "" else "-part" ++ partition in
  let google := ("/dev/disk/by-id/google-" ++ deviceName) ++ suffix in
  let scsi := ("/dev/disk/by-id/scsi-0Google_PersistentDisk_" ++ deviceName) ++ suffix in
  fst (VerifyDevicePath m (GetDiskByIdPaths deviceName partition)) =
  match stat m google with
  | StatOk => (google, None)
  | StatFailed err => ("", Some ("Error checking if path exists: " ++ err))
  | StatNotExist =>
      match stat m scsi with
      | StatOk => (scsi, None)
      | StatFailed err => ("", Some ("Error checking if path exists: " ++ err))
      | StatNotExist => ("", None)
      end
  end.
Proof.
  intros Hns suffix google scsi.
  rewrite (GetDiskByIdPaths_no_slash deviceName partition Hns). cbv zeta.
  fold suffix. fold google. fold scsi. unfold VerifyDevicePath. destruct (globBefore m). simpl.
  unfold pathExists. destruct (stat m google); [reflexivity | | reflexivity].
  destruct (stat m scsi); reflexivity.
Qed.

Lemma VerifyDevicePath_prefers_google_witness :
  let m := {| globBefore := ([], None); globAfter := ([], None);
              evalSymlinks := fun p => (p, None); udevadmTrigger := fun _ => None;
              stat := fun p => if p =? "/dev/disk/by-id/scsi-0Google_PersistentDisk_pd-0-part1"
                               then StatOk else StatNotExist |} in
  fst (VerifyDevicePath m (GetDiskByIdPaths "pd-0" "1"))
  = ("/dev/disk/by-id/scsi-0Google_PersistentDisk_pd-0-part1", None).
Proof.
  intros m.
  exact (VerifyDevicePath_prefers_google m "pd-0" "1" eq_refl).
Defined.

(** *** The paths of [GetDiskByIdPaths] are clean *)

Lemma split_slash_elems (s : string) : Forall (fun e => no_slash e = true) (split_slash s).
Proof.
  induction s as [|c r IH]; simpl; [repeat constructor|].
  destruct (Ascii.eqb c "/") eqn:Hc; [constructor; [reflexivity | exact IH]|].
  destruct (split_slash r) as [|seg segs]; [repeat constructor; simpl; now rewrite Hc|].
  inversion IH; subst. constructor; [simpl; now rewrite Hc | assumption].
Qed.

Lemma clean_step_elems (rooted : bool) (acc : nat * list string) (seg : string) :
  no_slash seg = true ->
  Forall (fun e => cleanElem e = true) (snd acc) ->
  Forall (fun e => cleanElem e = true) (snd (clean_step rooted acc seg)).
Proof.
  intros Hs Ha. destruct acc as [ups elems]. unfold clean_step. simpl in *.
  destruct ((seg =? "") || (seg =? ".")) eqn:H1; [exact Ha|].
  apply orb_false_iff in H1 as [H1 H2].
  destruct (seg =? "..") eqn:H3.
  - destruct elems as [|e rest]; [destruct rooted; exact Ha|].
    inversion Ha; subst. assumption.
  - constructor; [|exact Ha]. unfold cleanElem. now rewrite H1, H2, H3, Hs.
Qed.

Lemma fold_clean_step_elems (rooted : bool) (segs : list string) (acc : nat * list string) :
  Forall (fun e => no_slash e = true) segs ->
  Forall (fun e => cleanElem e = true) (snd acc) ->
  Forall (fun e => cleanElem e = true) (snd (fold_left (clean_step rooted) segs acc)).
Proof.
  revert acc. induction segs as [|seg segs IH]; intros acc Hs Ha; simpl; [exact Ha|].
  inversion Hs; subst. apply IH; [assumption|]. now apply clean_step_elems.
Qed.

(** [path.Clean] of a rooted path: a slash, then the clean elements. *)
Lemma Clean_rooted (p : string) :
  exists elems,
    Clean (String "/" p) = "/" ++ String.concat "/" elems
    /\ Forall (fun e => cleanElem e = true) elems.
Proof.
  unfold Clean.
  change (Ascii.eqb "/" "/") with true. cbv iota.
  pose proof (fold_clean_step_elems true (split_slash (String "/" p)) (0, [])
                (split_slash_elems _) (Forall_nil _)) as H.
  destruct (fold_left (clean_step true) (split_slash (String "/" p)) (0, []))
    as [ups elems].
  exists (rev elems). split; [reflexivity|]. apply Forall_rev. exact H.
Qed.

(** Whatever the device name, the paths [GetDiskByIdPaths] returns for no
    partition are absolute and clean: a slash, then elements separated by one
    slash, none of them empty, [.] or [..]. *)
Theorem GetDiskByIdPaths_clean (deviceName : string) :
  Forall (fun path => exists elems,
              path = "/" ++ String.concat "/" elems
              /\ Forall (fun e => cleanElem e = true) elems)
    (GetDiskByIdPaths deviceName "").
Proof.
  assert (H : forall name, exists p, Join [diskByIdPath; name] = Clean (String "/" p)).
  { intros name. eexists. unfold Join, diskByIdPath. simpl String.eqb. cbv iota.
    simpl String.concat. reflexivity. }
  unfold GetDiskByIdPaths. simpl negb. cbv iota.
  destruct (H (diskGooglePrefix ++ deviceName)) as [p1 ->].
  destruct (H (diskScsiGooglePrefix ++ deviceName)) as [p2 ->].
  constructor; [apply Clean_rooted|]. constructor; [apply Clean_rooted|]. constructor.
Qed.

(** *** [VerifyExistingMount] *)

Lemma optsVerify_existsb (readOnly : bool) (opts : list string) :
  optsVerify readOnly opts = existsb (String.eqb (modeOpt readOnly)) opts.
Proof.
  induction opts as [|opt rest IH]; simpl; [reflexivity|].
  rewrite IH. unfold modeOpt. rewrite (String.eqb_sym _ opt).
  destruct readOnly; simpl; destruct (opt =? _); reflexivity.
Qed.

Lemma verifyMounts_find (actual target : string) (readOnly : bool)
  (mounts : list MountPoint) :
  verifyMounts actual target readOnly mounts = find (verifies actual target readOnly) mounts.
Proof.
  induction mounts as [|mp rest IH]; simpl; [reflexivity|].
  unfold verifies at 1. rewrite <- optsVerify_existsb, IH.
  destruct ((Device mp =? actual) && (Path mp =? target)); simpl; [|reflexivity].
  destruct (optsVerify readOnly (Opts mp)); reflexivity.
Qed.

(** What [VerifyExistingMount] returns is a mount point of the list, of the
    device the path resolves to, at the target path, with the wanted mode
    among its options; and it returns a mount point or an error, never both
    and never neither. *)
Theorem VerifyExistingMount_sound (m : Machine) (mounterList : list MountPoint * error)
  (devicePath targetPath : string) (readOnly : bool) :
  match VerifyExistingMount m mounterList devicePath targetPath readOnly with
  | (Some mp, e) =>
      e = None /\
      snd (evalSymlinks m devicePath) = None /\ snd mounterList = None /\
      In mp (fst mounterList) /\
      Device mp = fst (evalSymlinks m devicePath) /\ Path mp = targetPath /\
      In (if readOnly then "ro" else "rw") (Opts mp)
  | (None, e) => e <> None
  end.
Proof.
  unfold VerifyExistingMount.
  destruct (evalSymlinks m devicePath) as [actual [e|]]; [discriminate|].
  destruct mounterList as [mounts [e|]]; [discriminate|].
  rewrite verifyMounts_find.
  destruct (find (verifies actual targetPath readOnly) mounts) as [mp|] eqn:Hf;
    [|discriminate].
  apply find_some in Hf as [Hin Hv]. unfold verifies in Hv.
  apply andb_true_iff in Hv as [Hv H3]. apply andb_true_iff in Hv as [H1 H2].
  apply String.eqb_eq in H1, H2. apply existsb_exists in H3 as (opt & Ho & He).
  apply String.eqb_eq in He. subst opt. simpl. repeat split; auto.
Qed.

(** When the device path resolves and the mounts can be listed,
    [VerifyExistingMount] returns the first mount point of the list that is of
    the resolved device, at the target path and in the wanted mode, and fails
    exactly when there is none. *)
Theorem VerifyExistingMount_first_match (m : Machine) (mounts : list MountPoint)
  (devicePath actual targetPath : string) (readOnly : bool) :
  evalSymlinks m devicePath = (actual, None) ->
  VerifyExistingMount m (mounts, None) devicePath targetPath readOnly =
  match find (verifies actual targetPath readOnly) mounts with
  | Some mp => (Some mp, None)
  | None =>
      (None, Some ("could not verify mountpoint at " ++ targetPath
                   ++ " for device " ++ devicePath))
  end
  /\ (fst (VerifyExistingMount m (mounts, None) devicePath targetPath readOnly) = None
      <-> Forall (fun mp => verifies actual targetPath readOnly mp = false) mounts).
Proof.
  intros Hs. unfold VerifyExistingMount. rewrite Hs, verifyMounts_find. split.
  - reflexivity.
  - destruct (find (verifies actual targetPath readOnly) mounts) as [mp|] eqn:Hf; simpl.
    + split; [discriminate|]. intros Hall. apply find_some in Hf as [Hin Hv].
      rewrite Forall_forall in Hall. rewrite (Hall mp Hin) in Hv. discriminate.
    + split; [|reflexivity]. intros _. apply Forall_forall. intros mp Hin.
      exact (find_none _ _ Hf mp Hin).
Qed.

Lemma VerifyExistingMount_first_match_witness :
  let m := {| globBefore := ([], None); globAfter := ([], None);
              evalSymlinks := fun p => if p =? "/dev/disk/by-id/google-pd-0"
                                       then ("/dev/sdb", None) else (p, None);
              udevadmTrigger := fun _ => None; stat := fun _ => StatOk |} in
  let rw := {| Device := "/dev/sdb"; Path := "/mnt/vol"; Type_ := "ext4";
               Opts := ["rw"; "relatime"]; Freq := 0%Z; Pass := 0%Z |} in
  let ro := {| Device := "/dev/sdb"; Path := "/mnt/vol"; Type_ := "ext4";
               Opts := ["ro"; "relatime"]; Freq := 0%Z; Pass := 0%Z |} in
  VerifyExistingMount m ([rw; ro], None) "/dev/disk/by-id/google-pd-0" "/mnt/vol" true
  = (Some ro, None).
Proof.
  intros m rw ro.
  exact (proj1 (VerifyExistingMount_first_match m [rw; ro] "/dev/disk/by-id/google-pd-0"
                  "/dev/sdb" "/mnt/vol" true eq_refl)).
Defined.

End DevicePaths.

(** ** The environment of the test run *)
Section TestEnvironment.

Import GoPath MountManager TestRunner.

Lemma split_slash_app (a r : string) :
  no_slash a = true -> split_slash (a ++ String "/" r) = a :: split_slash r.
Proof.
  induction a as [|c a IH]; simpl; [reflexivity|].
  intros H. apply andb_true_iff in H as [Hc Ha].
  apply negb_true_iff in Hc. rewrite Hc, (IH Ha). reflexivity.
Qed.

Lemma clean_step_cleanElem (rooted : bool) (ups : nat) (acc : list string) (e : string) :
  cleanElem e = true -> clean_step rooted (ups, acc) e = (ups, e :: acc).
Proof.
  unfold cleanElem, clean_step. intros H.
  apply andb_true_iff in H as [H _]. apply andb_true_iff in H as [H H3].
  apply andb_true_iff in H as [H1 H2].
  apply negb_true_iff in H1, H2, H3. now rewrite H1, H2, H3.
Qed.

Lemma cleanElem_no_slash (e : string) : cleanElem e = true -> no_slash e = true.
Proof. unfold cleanElem. intros H. now apply andb_true_iff in H as [_ H]. Qed.

(** Cleaning the elements of a clean path and then what follows it. *)
Lemma fold_clean_step_concat (rooted : bool) (elems : list string) (r : string)
  (ups : nat) (acc : list string) :
  Forall (fun e => cleanElem e = true) elems ->
  fold_left (clean_step rooted) (split_slash (String.concat "/" elems ++ String "/" r))
    (ups, acc)
  = fold_left (clean_step rooted) (split_slash r) (ups, (rev elems ++ acc)%list).
Proof.
  revert acc. induction elems as [|e es IH]; intros acc H.
  - reflexivity.
  - inversion H as [|? ? He Hes]; subst.
    destruct es as [|e2 es'].
    + simpl String.concat. rewrite (split_slash_app _ _ (cleanElem_no_slash _ He)).
      cbn [fold_left]. rewrite (clean_step_cleanElem _ _ _ _ He). reflexivity.
    + change (String.concat "/" (e :: e2 :: es'))
        with (e ++ "/" ++ String.concat "/" (e2 :: es')).
      rewrite append_assoc.
      change (("/" ++ String.concat "/" (e2 :: es')) ++ String "/" r)
        with (String "/" (String.concat "/" (e2 :: es') ++ String "/" r)).
      rewrite (split_slash_app _ _ (cleanElem_no_slash _ He)).
      cbn [fold_left]. rewrite (clean_step_cleanElem _ _ _ _ He).
      rewrite (IH _ Hes).
      change (rev (e :: e2 :: es')) with (rev (e2 :: es') ++ [e])%list.
      rewrite <- app_assoc. reflexivity.
Qed.

Lemma concat_slash_app (elems : list string) (e : string) (l : list string) :
  elems <> [] ->
  String.concat "/" (elems ++ e :: l)
  = String.concat "/" elems ++ "/" ++ String.concat "/" (e :: l).
Proof.
  induction elems as [|x xs IH]; [congruence|]. intros _.
  destruct xs as [|y ys].
  - reflexivity.
  - change (String.concat "/" ((x :: y :: ys) ++ e :: l))
      with (x ++ "/" ++ String.concat "/" ((y :: ys) ++ e :: l)).
    rewrite IH by discriminate.
    change (String.concat "/" (x :: y :: ys)) with (x ++ "/" ++ String.concat "/" (y :: ys)).
    rewrite !append_assoc. reflexivity.
Qed.

(** [path.Join] of a clean absolute path and [.kube/config]. *)
Lemma Join_home (elems : list string) :
  Forall (fun e => cleanElem e = true) elems ->
  Join ["/" ++ String.concat "/" elems; ".kube/config"]
  = match elems with
    | [] => "/.kube/config"
    | _ => ("/" ++ String.concat "/" elems) ++ "/.kube/config"
    end.
Proof.
  intros H.
  assert (E : Join ["/" ++ String.concat "/" elems; ".kube/config"]
              = "/" ++ String.concat "/" (elems ++ [".kube"; "config"])).
  { unfold Join. change ("/" ++ String.concat "/" elems =? "") with false. cbv iota.
    change (String.concat "/" ["/" ++ String.concat "/" elems; ".kube/config"])
      with (String "/" (String.concat "/" elems ++ String "/" ".kube/config")).
    unfold Clean. change (Ascii.eqb "/" "/") with true. cbv iota.
    change (split_slash (String "/" (String.concat "/" elems ++ String "/" ".kube/config")))
      with ("" :: split_slash (String.concat "/" elems ++ String "/" ".kube/config")).
    cbn [fold_left]. change (clean_step true (0, []) "") with (0, @nil string). rewrite (fold_clean_step_concat true elems _ 0 [] H).
    simpl. rewrite app_nil_r, rev_involutive, <- app_assoc. reflexivity. }
  rewrite E. destruct elems as [|e es]; [reflexivity|].
  rewrite concat_slash_app by discriminate. reflexivity.
Qed.

Lemma hasByte_app (b : ascii) (s t : string) :
  hasByte b (s ++ t) = hasByte b s || hasByte b t.
Proof.
  induction s as [|c s IH]; simpl; [reflexivity|]. now rewrite IH, orb_assoc.
Qed.

(** After a successful [os.Chdir], the environment is the one [os.Setenv]
    leaves, whatever the command answers. *)
Lemma runTestsWithConfig_environ (sys : Sys)
  (pkgDir k8sDir gceZone testFocus testConfigArg : string) (p : Proc) :
  Chdir sys k8sDir = None ->
  environ (snd (runTestsWithConfig sys pkgDir k8sDir gceZone testFocus testConfigArg p))
  = fst (Setenv (environ p) "KUBECONFIG"
           (Join [fst (LookupEnv (environ p) "HOME"); ".kube/config"])).
Proof.
  intros H. unfold runTestsWithConfig. rewrite H.
  destruct (LookupEnv (environ p) "HOME") as [homeDir b]. cbn [fst].
  destruct (Setenv (environ p) "KUBECONFIG" (Join [homeDir; ".kube/config"])) as [env1 e].
  destruct (LookupEnv env1 "ARTIFACTS") as [artifactsDir b0]. cbv zeta.
  now destruct (runCommand sys _ _).
Qed.

(** [runTestsWithConfig] and the environment.  A failing [os.Chdir] is
    returned as it is and leaves the process as it was.  After it, no variable
    but [KUBECONFIG] is touched; [KUBECONFIG] is the relative path
    [.kube/config] when [HOME] is not set or empty, and [HOME] followed by
    [/.kube/config] when [HOME] is a clean absolute path ([/.kube/config] for
    the root), whether the tests pass or not. *)
Theorem kubeconfig_from_home (sys : Sys)
  (pkgDir k8sDir gceZone testFocus testConfigArg : string) (p : Proc) :
  let r := runTestsWithConfig sys pkgDir k8sDir gceZone testFocus testConfigArg p in
  (forall err, Chdir sys k8sDir = Some err -> r = (Some err, p)) /\
  (Chdir sys k8sDir = None ->
   (forall key, key <> "KUBECONFIG" -> environ (snd r) key = environ p key) /\
   (environ p "HOME" = None \/ environ p "HOME" = Some "" ->
    environ (snd r) "KUBECONFIG" = Some ".kube/config") /\
   (forall elems,
       let home := "/" ++ String.concat "/" elems in
       environ p "HOME" = Some home ->
       Forall (fun e => cleanElem e = true) elems ->
       hasByte "000" home = false ->
       environ (snd r) "KUBECONFIG"
       = Some (match elems with
               | [] => "/.kube/config"
               | _ => home ++ "/.kube/config"
               end))).
Proof.
  intros r. split.
  - intros err H. subst r. unfold runTestsWithConfig. now rewrite H.
  - intros H. subst r.
    rewrite (runTestsWithConfig_environ sys pkgDir k8sDir gceZone testFocus testConfigArg p H).
    split; [|split].
    + intros key Hkey. unfold Setenv. simpl orb.
      destruct (hasByte "000" _); [reflexivity|]. simpl.
      apply String.eqb_neq in Hkey. now rewrite Hkey.
    + intros Hhome. unfold LookupEnv. now destruct Hhome as [-> | ->].
    + intros elems home Hhome Hclean Hnul.
      unfold LookupEnv. rewrite Hhome. cbn [fst]. unfold home at 1.
      rewrite (Join_home elems Hclean). fold home.
      assert (Hv : hasByte "000" match elems with
                                 | [] => "/.kube/config"
                                 | _ :: _ => home ++ "/.kube/config"
                                 end = false).
      { destruct elems; [reflexivity|]. rewrite hasByte_app, Hnul. reflexivity. }
      unfold Setenv. rewrite Hv. reflexivity.
Qed.

Lemma kubeconfig_from_home_witness :
  let sys := {| Chdir := fun _ => None;
                runCommand := fun _ _ => Some "exit status 1" |} in
  let p := {| environ := fun key => if key =? "HOME" then Some "/home/prow" else None;
              effects := [] |} in
  environ (snd (runTestsWithConfig sys "/go/src/driver" "/tmp/k8s" "us-central1-b"
                  "External.Storage" "-storage.migratedPlugins=kubernetes.io/gce-pd" p))
    "KUBECONFIG"
  = Some "/home/prow/.kube/config".
Proof.
  intros sys p.
  apply (proj2 (proj2 (proj2 (kubeconfig_from_home sys "/go/src/driver" "/tmp/k8s"
                                "us-central1-b" "External.Storage"
                                "-storage.migratedPlugins=kubernetes.io/gce-pd" p)
                         eq_refl))
           ["home"; "prow"]).
  - reflexivity.
  - repeat constructor.
  - reflexivity.
Defined.

End TestEnvironment.
